(** * Migration pipeline of the cross-dialect database migration assistant

    A shallow embedding of the pipeline logic of [backend/routes/migrate.py],
    [backend/routes/validate.py], [backend/routes/extract.py] and
    [backend/ai.py], with the properties of the design document stated and
    proved over it.

    Conventions of the embedding.
    - Python [str] values are [string]s of one-byte characters; the case
      conversions and the character classes of [re] and [str.strip] are the
      ASCII ones (code points above 127 are left alone by [lower]/[upper] and
      are neither word nor space characters).  Python converts and classifies
      characters beyond ASCII as Unicode has it; a property that depends on
      the conversions is stated for texts that satisfy [Py.isascii].
    - A [dict] whose iteration order is observed is an association list in
      insertion order; a [set] is a [gset]; a [dict] used only by lookup is a
      [gmap].
    - Code that can raise returns an [outcome]; recursion that Python bounds
      only by its arguments takes a fuel argument, and the theorems show the
      fuel handed over by the callers to be enough. *)

From Stdlib Require Import Ascii String ZArith QArith Lia.
From stdpp Require Import base decidable option list sets gmap strings relations.

(** ** Outcomes of fallible code *)

Inductive exn : Type :=
  | KeyError (key : string)
  | ZeroDivisionError
  | JSONDecodeError (doc : string)
  | Exception (msg : string).

Inductive outcome (A : Type) : Type :=
  | Done (a : A)
  | Raise (e : exn)
  | OutOfFuel.
Arguments Done {A} a.
Arguments Raise {A} e.
Arguments OutOfFuel {A}.

Global Instance outcome_ret : MRet outcome := fun A a => Done a.

Global Instance outcome_bind : MBind outcome := fun A B k m =>
  match m with
  | Done a => k a
  | Raise e => Raise e
  | OutOfFuel => OutOfFuel
  end.

(** The result of a call that returns or raises, for code and collaborators
    whose termination is not in question. *)
Inductive answer (A : Type) : Type :=
  | Ok (a : A)
  | Err (e : exn).
Arguments Ok {A} a.
Arguments Err {A} e.

Global Instance answer_ret : MRet answer := fun A a => Ok a.

Global Instance answer_bind : MBind answer := fun A B k m =>
  match m with
  | Ok a => k a
  | Err e => Err e
  end.

Global Instance exn_eq_dec : EqDecision exn.
Proof. solve_decision. Defined.

Global Instance outcome_eq_dec {A : Type} `{EqDecision A} : EqDecision (outcome A).
Proof. solve_decision. Defined.

(** [str(e)] of an exception. *)
Definition str_exn (e : exn) : string :=
  match e with
  | KeyError k => "'" +:+ k +:+ "'"
  | ZeroDivisionError => "division by zero"
  | JSONDecodeError d => "Expecting value: line 1 column 1 (char 0)"
  | Exception m => m
  end.

(** ** Python string primitives *)

Module Py.

Definition code (c : ascii) : N := N_of_ascii c.

(** [str.isspace] on one character, which is also the class [\s] of [re]. *)
Definition is_space (c : ascii) : bool :=
  let n := code c in
  ((9 <=? n) && (n <=? 13) || (28 <=? n) && (n <=? 32))%N.

Definition is_upper (c : ascii) : bool :=
  let n := code c in ((65 <=? n) && (n <=? 90))%N.

Definition is_lower (c : ascii) : bool :=
  let n := code c in ((97 <=? n) && (n <=? 122))%N.

Definition is_digit (c : ascii) : bool :=
  let n := code c in ((48 <=? n) && (n <=? 57))%N.

(** The class [\w] of [re]. *)
Definition is_word (c : ascii) : bool :=
  is_upper c || is_lower c || is_digit c || (code c =? 95)%N.

Definition lower_char (c : ascii) : ascii :=
  if is_upper c then ascii_of_N (code c + 32) else c.

Definition upper_char (c : ascii) : ascii :=
  if is_lower c then ascii_of_N (code c - 32) else c.

Fixpoint map_chars (f : ascii -> ascii) (s : string) : string :=
  match s with
  | EmptyString => EmptyString
  | String c s' => String (f c) (map_chars f s')
  end.

Definition lower : string -> string := map_chars lower_char.
Definition upper : string -> string := map_chars upper_char.

(** [str.isascii]: on such texts the conversions and classes above are
    those of Python. *)
Definition is_ascii (c : ascii) : bool := (code c <? 128)%N.

Fixpoint isascii (s : string) : bool :=
  match s with
  | EmptyString => true
  | String c s' => is_ascii c && isascii s'
  end.

Fixpoint lstrip (s : string) : string :=
  match s with
  | EmptyString => EmptyString
  | String c s' => if is_space c then lstrip s' else s
  end.

Fixpoint rstrip (s : string) : string :=
  match s with
  | EmptyString => EmptyString
  | String c s' =>
      match rstrip s' with
      | EmptyString => if is_space c then EmptyString else String c EmptyString
      | r => String c r
      end
  end.

Definition strip (s : string) : string := lstrip (rstrip s).

(** [s.rstrip(chars)] for a one-character [chars]. *)
Fixpoint rstrip_char (x : ascii) (s : string) : string :=
  match s with
  | EmptyString => EmptyString
  | String c s' =>
      match rstrip_char x s' with
      | EmptyString => if Ascii.eqb c x then EmptyString else String c EmptyString
      | r => String c r
      end
  end.

Definition startswith (s p : string) : bool := String.prefix p s.

Fixpoint endswith_char (s : string) (x : ascii) : bool :=
  match s with
  | EmptyString => false
  | String c EmptyString => Ascii.eqb c x
  | String _ s' => endswith_char s' x
  end.

(** [s[:-1]] *)
Fixpoint drop_last (s : string) : string :=
  match s with
  | EmptyString => EmptyString
  | String _ EmptyString => EmptyString
  | String c s' => String c (drop_last s')
  end.

(** [s.count(x)] for a one-character [x]. *)
Fixpoint count (x : ascii) (s : string) : Z :=
  match s with
  | EmptyString => 0
  | String c s' => ((if Ascii.eqb c x then 1 else 0) + count x s')%Z
  end.

(** [s.split(x)] for a one-character separator. *)
Fixpoint split (x : ascii) (s : string) : list string :=
  match s with
  | EmptyString => [EmptyString]
  | String c s' =>
      if Ascii.eqb c x then EmptyString :: split x s'
      else match split x s' with
           | [] => [String c EmptyString]
           | p :: ps => String c p :: ps
           end
  end.

(** [sub in s] *)
Fixpoint contains (sub s : string) : bool :=
  String.prefix sub s ||
  match s with
  | EmptyString => false
  | String _ s' => contains sub s'
  end.

(** [s.isspace()] *)
Fixpoint all_space (s : string) : bool :=
  match s with
  | EmptyString => true
  | String c s' => is_space c && all_space s'
  end.

Definition isspace (s : string) : bool :=
  match s with
  | EmptyString => false
  | _ => all_space s
  end.

(** Truth value of a string. *)
Definition truthy (s : string) : bool :=
  match s with
  | EmptyString => false
  | _ => true
  end.

(** [s[:n]] *)
Definition take (n : nat) (s : string) : string := String.substring 0 n s.

(** [s[n:]] *)
Fixpoint drop (n : nat) (s : string) : string :=
  match n, s with
  | O, _ => s
  | S n', String _ s' => drop n' s'
  | S _, EmptyString => EmptyString
  end.

(** [s[:-n]] for a positive [n]. *)
Definition drop_end (n : nat) (s : string) : string :=
  take (String.length s - n) s.

(** [s.endswith(suffix)] *)
Definition endswith (s suffix : string) : bool :=
  String.eqb (drop (String.length s - String.length suffix) s) suffix
  && (String.length suffix <=? String.length s)%nat.

End Py.

(** ** The regular expressions of the pipeline

    Each pattern of the source has one capture group and is built from
    literals, [\s+], [\w+] and, once, a lazy [.*?]; as the classes that
    follow one another are disjoint, greedy and backtracking matching
    coincide and a pattern is matched by one left-to-right scan.  A matcher
    returns the captured group and what is left of the text after the whole
    match. *)

Module Re.

(** Takes the longest prefix of characters of a class. *)
Fixpoint span (p : ascii -> bool) (s : string) : string * string :=
  match s with
  | EmptyString => (EmptyString, EmptyString)
  | String c s' =>
      if p c then let '(a, b) := span p s' in (String c a, b)
      else (EmptyString, s)
  end.

(** A literal, compared as written. *)
Fixpoint lit (l s : string) : option string :=
  match l, s with
  | EmptyString, _ => Some s
  | String a l', String c s' => if Ascii.eqb a c then lit l' s' else None
  | String _ _, EmptyString => None
  end.

(** A literal under [re.IGNORECASE]. *)
Fixpoint lit_i (l s : string) : option string :=
  match l, s with
  | EmptyString, _ => Some s
  | String a l', String c s' =>
      if Ascii.eqb (Py.lower_char a) (Py.lower_char c) then lit_i l' s' else None
  | String _ _, EmptyString => None
  end.

(** [\s+] *)
Definition spaces1 (s : string) : option string :=
  match span Py.is_space s with
  | (EmptyString, _) => None
  | (_, r) => Some r
  end.

(** [(\w+)] *)
Definition word1 (s : string) : option (string * string) :=
  match span Py.is_word s with
  | (EmptyString, _) => None
  | (w, r) => Some (w, r)
  end.

(** An optional single or double quote character. *)
Definition opt_quote (s : string) : string :=
  match s with
  | String c s' => if Ascii.eqb c "034" || Ascii.eqb c "'" then s' else s
  | EmptyString => s
  end.

(** [re.findall] and [re.search] over a matcher anchored at the head of the
    text: after a match the scan resumes where the match ended, which the
    [skip] counter does on the structure of the text. *)
Section Scan.
Variable at_head : string -> option (string * string).

Fixpoint findall_from (skip : nat) (s : string) : list string :=
  match s with
  | EmptyString => []
  | String _ s' =>
      match skip with
      | S k => findall_from k s'
      | O =>
          match at_head s with
          | Some (g, rest) =>
              g :: findall_from (String.length s - String.length rest - 1) s'
          | None => findall_from 0 s'
          end
      end
  end.

Definition findall (s : string) : list string := findall_from 0 s.

Fixpoint search (s : string) : option string :=
  match at_head s with
  | Some (g, _) => Some g
  | None =>
      match s with
      | EmptyString => None
      | String _ s' => search s'
      end
  end.
End Scan.

(** [references\s+(\w+)] at the head of the text. *)
Definition references_at (kw s : string) : option (string * string) :=
  match lit kw s with
  | Some r =>
      match spaces1 r with
      | Some r1 => word1 r1
      | None => None
      end
  | None => None
  end.

(** [.*?references\s+(\w+)]: the shortest run of characters other than a
    newline after which the rest of the pattern matches. *)
Fixpoint lazy_references (s : string) : option (string * string) :=
  match references_at "references" s with
  | Some m => Some m
  | None =>
      match s with
      | EmptyString => None
      | String c s' => if Ascii.eqb c "010" then None else lazy_references s'
      end
  end.

(** [foreign key.*?references\s+(\w+)] *)
Definition foreign_key_at (s : string) : option (string * string) :=
  match lit "foreign key" s with
  | Some r => lazy_references r
  | None => None
  end.

(** [CREATE TABLE\s+(\w+)] over an upper-cased statement. *)
Definition create_table_at (s : string) : option (string * string) :=
  match lit "CREATE TABLE" s with
  | Some r =>
      match spaces1 r with
      | Some r1 => word1 r1
      | None => None
      end
  | None => None
  end.

(** The pattern of the drop-and-recreate recovery, under [re.IGNORECASE]:
    [create\s+table], an optional [\s+if\s+not\s+exists], [\s+], and the
    captured [\w+] between two optional quote characters.  The optional
    group is tried first, and given up when what follows it does not match. *)
Definition name_after (s : string) : option (string * string) :=
  match spaces1 s with
  | Some r =>
      match word1 (opt_quote r) with
      | Some (w, r1) => Some (w, opt_quote r1)
      | None => None
      end
  | None => None
  end.

Definition if_not_exists (s : string) : option string :=
  r1 ← spaces1 s; r2 ← lit_i "if" r1; r3 ← spaces1 r2;
  r4 ← lit_i "not" r3; r5 ← spaces1 r4; lit_i "exists" r5.

Definition drop_target_at (s : string) : option (string * string) :=
  match lit_i "create" s with
  | Some r =>
      match spaces1 r with
      | Some r1 =>
          match lit_i "table" r1 with
          | Some r2 =>
              match if_not_exists r2 with
              | Some r3 =>
                  match name_after r3 with
                  | Some m => Some m
                  | None => name_after r2
                  end
              | None => name_after r2
              end
          | None => None
          end
      | None => None
      end
  | None => None
  end.

End Re.

(** ** Insertion-ordered dictionaries *)

Module Dict.
Section Dict.
Context {V : Type}.

Fixpoint get (d : list (string * V)) (k : string) : option V :=
  match d with
  | [] => None
  | (k', v) :: d' => if decide (k = k') then Some v else get d' k
  end.

Definition mem (k : string) (d : list (string * V)) : bool :=
  bool_decide (is_Some (get d k)).

(** [d[k] = v]: a key already present keeps its place. *)
Fixpoint set (k : string) (v : V) (d : list (string * V)) : list (string * V) :=
  match d with
  | [] => [(k, v)]
  | (k', v') :: d' =>
      if decide (k = k') then (k, v) :: d' else (k', v') :: set k v d'
  end.

Definition keys (d : list (string * V)) : list string := d.*1.

(** [d[k]], which raises on a missing key. *)
Definition item (d : list (string * V)) (k : string) : outcome V :=
  match get d k with
  | Some v => Done v
  | None => Raise (KeyError k)
  end.
End Dict.
End Dict.

(** A loop [for x in xs: body] over a state. *)
Fixpoint for_each {A S : Type} (xs : list A) (body : A -> S -> outcome S) (s : S)
  : outcome S :=
  match xs with
  | [] => Done s
  | x :: xs' => s' ← body x s; for_each xs' body s'
  end.

(** ** Dependency Sequencer: ordering of table records
    ([sort_tables_by_dependencies]) *)

(** A table record [{"name": ..., "ddl": ...}]. *)
Record table : Type := Table { name : string; ddl : string }.

Global Instance table_eq_dec : EqDecision table.
Proof. solve_decision. Defined.

(** An entry of the [tables] list: a dict that carries both keys, or anything
    else, which the sequencer passes over. *)
Inductive item : Type :=
  | ITable (t : table)
  | IOther.

(** The foreign-key targets of a DDL text, as the sequencer derives them. *)
Definition fk_matches (ddl_text : string) : list string :=
  Re.findall Re.foreign_key_at (Py.lower ddl_text).

Definition index_table
    (acc : list (string * table) * gmap string (list string)) (it : item)
  : list (string * table) * gmap string (list string) :=
  match it with
  | ITable t =>
      (Dict.set (name t) t acc.1, <[name t := fk_matches (ddl t)]> acc.2)
  | IOther => acc
  end.

(** The first loop: [table_map] and [table_deps]. *)
Definition index_tables (tables : list item)
  : list (string * table) * gmap string (list string) :=
  foldl index_table ([], ∅) tables.

Record dfs_state : Type := DfsState {
  visited : gset string;
  temp_visited : gset string;
  sorted_tables : list table
}.

(** [s.remove(x)] on a set raises when [x] is absent. *)
Definition set_remove (x : string) (s : gset string) : outcome (gset string) :=
  if decide (x ∈ s) then Done (s ∖ {[x]}) else Raise (KeyError x).

Section SortTables.
Variable table_map : list (string * table).
Variable table_deps : gmap string (list string).

Fixpoint visit (fuel : nat) (table_name : string) (st : dfs_state)
  : outcome dfs_state :=
  match fuel with
  | O => OutOfFuel
  | S fuel' =>
      if decide (table_name ∈ temp_visited st) then Done st
      else if decide (table_name ∈ visited st) then Done st
      else
        let st1 := DfsState (visited st) ({[table_name]} ∪ temp_visited st)
                            (sorted_tables st) in
        st2 ← for_each (default [] (table_deps !! table_name))
                (fun dep s =>
                   if Dict.mem dep table_map then visit fuel' dep s else Done s)
                st1;
        temp ← set_remove table_name (temp_visited st2);
        t ← Dict.item table_map table_name;
        Done (DfsState ({[table_name]} ∪ visited st2) temp
                       (sorted_tables st2 ++ [t]))
  end.

Definition visit_all (fuel : nat) : outcome dfs_state :=
  for_each (Dict.keys table_map)
    (fun table_name s =>
       if decide (table_name ∈ visited s) then Done s
       else visit fuel table_name s)
    (DfsState ∅ ∅ []).
End SortTables.

(** The recursion of [visit] descends only into names that are in neither
    set, so its depth never exceeds the number of tables. *)
Definition sort_tables_by_dependencies (tables : list item) : outcome (list table) :=
  let '(table_map, table_deps) := index_tables tables in
  st ← visit_all table_map table_deps (S (length table_map));
  Done (sorted_tables st).

Definition customers_demo : table :=
  Table "customers" "CREATE TABLE customers (id SERIAL PRIMARY KEY, name VARCHAR(120) NOT NULL)".
Definition orders_demo : table :=
  Table "orders" "CREATE TABLE orders (id SERIAL PRIMARY KEY, customer_id INTEGER NOT NULL, FOREIGN KEY (customer_id) REFERENCES customers(id))".

(** The table records among the entries. *)
Definition records (tables : list item) : list table :=
  omap (fun it => match it with ITable t => Some t | IOther => None end) tables.

(** *** Vocabulary of the ordering properties *)

Section SortTablesSpec.
Variable table_map : list (string * table).
Variable table_deps : gmap string (list string).

(** The names of the input set. *)
Definition known : gset string := list_to_set (Dict.keys table_map).

Definition deps_of (n : string) : list string := default [] (table_deps !! n).

(** [edge n d]: table [n] references [d], and [d] is in the input set. *)
Definition edge (n d : string) : Prop := d ∈ deps_of n ∧ d ∈ known.

Definition acyclic : Prop := forall n, ¬ tc edge n n.

(** Every table of the list comes after the tables it references. *)
Definition deps_first (l : list table) : Prop :=
  forall l1 t l2, l = l1 ++ t :: l2 ->
  forall d, edge (name t) d -> d ∈ name <$> l1.

(** The names that the traversal has not reached yet. *)
Definition pending (st : dfs_state) : nat :=
  size (known ∖ (visited st ∪ temp_visited st)).

Definition dfs_inv (st : dfs_state) : Prop :=
  NoDup (name <$> sorted_tables st)
  ∧ (forall k, k ∈ name <$> sorted_tables st <-> k ∈ visited st)
  ∧ Forall (fun t => Dict.get table_map (name t) = Some t) (sorted_tables st)
  ∧ visited st ## temp_visited st.

(** What one call of [visit] does to the state. *)
Definition visit_post (n : string) (st st' : dfs_state) : Prop :=
  temp_visited st' = temp_visited st
  ∧ visited st ⊆ visited st'
  ∧ (n ∈ temp_visited st ∨ n ∈ visited st')
  ∧ (dfs_inv st -> dfs_inv st')
  ∧ (acyclic ->
     (forall a, a ∈ temp_visited st -> tc edge a n) ->
     dfs_inv st ->
     deps_first (sorted_tables st) ->
     deps_first (sorted_tables st')).

Definition loop_post (ds : list string) (st st' : dfs_state) : Prop :=
  temp_visited st' = temp_visited st
  ∧ visited st ⊆ visited st'
  ∧ (forall d, d ∈ ds -> d ∈ known -> d ∈ temp_visited st ∨ d ∈ visited st')
  ∧ (dfs_inv st -> dfs_inv st')
  ∧ (acyclic ->
     (forall d a, d ∈ ds -> d ∈ known -> a ∈ temp_visited st -> tc edge a d) ->
     dfs_inv st ->
     deps_first (sorted_tables st) ->
     deps_first (sorted_tables st')).
End SortTablesSpec.

(** *** The dependency graph of an input set of table records *)

(** [refers ts a b]: the DDL of the table named [a] has a foreign key to [b],
    and [b] is a table of the set [ts]. *)
Definition refers (ts : list table) (a b : string) : Prop :=
  exists t, t ∈ ts ∧ name t = a ∧ b ∈ fk_matches (ddl t) ∧ b ∈ name <$> ts.

Definition acyclic_refs (ts : list table) : Prop :=
  forall a, ¬ tc (refers ts) a a.

(** In [out], every table comes after the tables of [ts] that it references. *)
Definition referenced_first (ts out : list table) : Prop :=
  forall l1 t l2, out = l1 ++ t :: l2 ->
  forall d, d ∈ fk_matches (ddl t) -> d ∈ name <$> ts -> d ∈ name <$> l1.

(** The number of occurrences of a value in a list. *)
Definition occurrences {A : Type} `{EqDecision A} (x : A) (l : list A) : nat :=
  length (filter (fun y => y = x) l).

(** ** Dependency Sequencer: ordering of DDL statements
    ([sort_ddl_statements_by_dependencies]) *)

Module Info.
(** The record [{'name': ..., 'ddl': ..., 'deps': ...}] kept for a
    [CREATE TABLE] statement. *)
Record table_info : Type := TableInfo {
  name : string;
  ddl : string;
  deps : list string
}.
End Info.

Global Instance table_info_eq_dec : EqDecision Info.table_info.
Proof. solve_decision. Defined.

(** The [REFERENCES] targets of an upper-cased statement, lower-cased. *)
Definition reference_matches (statement_upper : string) : list string :=
  Py.lower <$> Re.findall (Re.references_at "REFERENCES") statement_upper.

(** The body of the first loop: a statement that starts with [CREATE TABLE]
    and from which a table name can be taken is a table statement. *)
Definition parse_statement (statement : string) : option Info.table_info :=
  let statement_upper := Py.upper statement in
  if Py.startswith statement_upper "CREATE TABLE" then
    match Re.search Re.create_table_at statement_upper with
    | Some g =>
        Some (Info.TableInfo (Py.lower g) statement
                (reference_matches statement_upper))
    | None => None
    end
  else None.

Definition classify_statement
    (acc : list Info.table_info * list string) (statement : string)
  : list Info.table_info * list string :=
  match parse_statement statement with
  | Some table_info => (acc.1 ++ [table_info], acc.2)
  | None => (acc.1, acc.2 ++ [statement])
  end.

(** [table_statements] and [other_statements]. *)
Definition classify_statements (ddl_statements : list string)
  : list Info.table_info * list string :=
  foldl classify_statement ([], []) ddl_statements.

Record ddl_state : Type := DdlState {
  ddl_visited : gset string;
  ddl_temp_visited : gset string;
  sorted_table_statements : list string
}.

Section SortStatements.
Variable table_statements : list Info.table_info.

Fixpoint visit_table (fuel : nat) (table_info : Info.table_info) (st : ddl_state)
  : outcome ddl_state :=
  match fuel with
  | O => OutOfFuel
  | S fuel' =>
      let table_name := Info.name table_info in
      if decide (table_name ∈ ddl_temp_visited st) then Done st
      else if decide (table_name ∈ ddl_visited st) then Done st
      else
        let st1 := DdlState (ddl_visited st) ({[table_name]} ∪ ddl_temp_visited st)
                            (sorted_table_statements st) in
        st2 ← for_each (Info.deps table_info)
                (fun dep s =>
                   for_each table_statements
                     (fun other_table s' =>
                        if decide (Info.name other_table = dep)
                        then visit_table fuel' other_table s'
                        else Done s')
                     s)
                st1;
        temp ← set_remove table_name (ddl_temp_visited st2);
        Done (DdlState ({[table_name]} ∪ ddl_visited st2) temp
                       (sorted_table_statements st2 ++ [Info.ddl table_info]))
  end.

Definition visit_tables (fuel : nat) : outcome ddl_state :=
  for_each table_statements
    (fun table_info s =>
       if decide (Info.name table_info ∈ ddl_visited s) then Done s
       else visit_table fuel table_info s)
    (DdlState ∅ ∅ []).
End SortStatements.

(** As for [visit], the depth of [visit_table] never exceeds the number of
    table statements. *)
Definition sort_ddl_statements_by_dependencies (ddl_statements : list string)
  : outcome (list string) :=
  let '(table_statements, other_statements) := classify_statements ddl_statements in
  st ← visit_tables table_statements (S (length table_statements));
  Done (sorted_table_statements st ++ other_statements).

(** *** Vocabulary of the statement ordering *)

Section SortStatementsSpec.
Variable table_statements : list Info.table_info.

Definition known_tables : gset string :=
  list_to_set (Info.name <$> table_statements).

(** [depends n d]: a statement creating [n] references [d], and [d] is
    created by a statement of the input. *)
Definition depends (n d : string) : Prop :=
  exists ti, ti ∈ table_statements ∧ Info.name ti = n
             ∧ d ∈ Info.deps ti ∧ d ∈ known_tables.

Definition acyclic_deps : Prop := forall n, ¬ tc depends n n.

Definition created_first (infos : list Info.table_info) : Prop :=
  forall l1 ti l2, infos = l1 ++ ti :: l2 ->
  forall d, d ∈ Info.deps ti -> d ∈ known_tables -> d ∈ Info.name <$> l1.

Definition ddl_pending (st : ddl_state) : nat :=
  size (known_tables ∖ (ddl_visited st ∪ ddl_temp_visited st)).

(** The state of the traversal against the list of the table statements
    emitted so far. *)
Definition emitted (st : ddl_state) (infos : list Info.table_info) : Prop :=
  sorted_table_statements st = Info.ddl <$> infos
  ∧ NoDup (Info.name <$> infos)
  ∧ (forall k, k ∈ Info.name <$> infos <-> k ∈ ddl_visited st)
  ∧ Forall (fun ti => ti ∈ table_statements) infos
  ∧ ddl_visited st ## ddl_temp_visited st.

(** What a step of the traversal that is to reach the names in [P] does. *)
Definition reaches (P : string -> Prop) (st st' : ddl_state) : Prop :=
  ddl_temp_visited st' = ddl_temp_visited st
  ∧ ddl_visited st ⊆ ddl_visited st'
  ∧ (forall d, P d -> d ∈ ddl_temp_visited st ∨ d ∈ ddl_visited st')
  ∧ (forall infos, emitted st infos ->
       exists ext, emitted st' (infos ++ ext)
         ∧ (acyclic_deps ->
            (forall d a, P d -> a ∈ ddl_temp_visited st -> tc depends a d) ->
            created_first infos -> created_first (infos ++ ext))).
End SortStatementsSpec.

Definition orders_stmt : string :=
  "CREATE TABLE orders (id INT PRIMARY KEY, customer_id INT REFERENCES customers(id))".
Definition customers_stmt : string :=
  "CREATE TABLE customers (id INT PRIMARY KEY)".

(** *** The dependency graph of a list of DDL statements *)

(** The table that a statement creates, as the sequencer reads it. *)
Definition creates (statement : string) : option string :=
  Info.name <$> parse_statement statement.

(** The tables that a statement references, as the sequencer reads them. *)
Definition references_of (statement : string) : list string :=
  match parse_statement statement with
  | Some table_info => Info.deps table_info
  | None => []
  end.

Definition created_in (stmts : list string) (d : string) : Prop :=
  exists s, s ∈ stmts ∧ creates s = Some d.

Definition stmt_refers (stmts : list string) (a b : string) : Prop :=
  exists s, s ∈ stmts ∧ creates s = Some a ∧ b ∈ references_of s
            ∧ created_in stmts b.

Definition acyclic_stmts (stmts : list string) : Prop :=
  forall n, ¬ tc (stmt_refers stmts) n n.

(** In [out], every statement comes after statements that create the tables
    of [stmts] that it references. *)
Definition created_before (stmts out : list string) : Prop :=
  forall l1 s l2, out = l1 ++ s :: l2 ->
  forall d, d ∈ references_of s -> created_in stmts d -> created_in l1 d.

Definition table_stmts (stmts : list string) : list string :=
  filter (fun s => is_Some (parse_statement s)) stmts.

Definition other_stmts (stmts : list string) : list string :=
  filter (fun s => parse_statement s = None) stmts.

(** Table records whose names are written with capital letters. *)
Definition orders_cap : table :=
  Table "Orders" "CREATE TABLE Orders (id INT PRIMARY KEY, customer_id INT, FOREIGN KEY (customer_id) REFERENCES Customers(id))".
Definition customers_cap : table :=
  Table "Customers" "CREATE TABLE Customers (id INT PRIMARY KEY)".

(** Table records whose reference is written at the column, without the
    words [FOREIGN KEY]. *)
Definition orders_inline : table := Table "orders" orders_stmt.
Definition customers_inline : table := Table "customers" customers_stmt.

(** Statements that create their table only when it is missing. *)
Definition orders_new : string :=
  "CREATE TABLE IF NOT EXISTS orders (id INT PRIMARY KEY, customer_id INT REFERENCES customers(id))".
Definition customers_new : string :=
  "CREATE TABLE IF NOT EXISTS customers (id INT PRIMARY KEY)".

(** Two tables that reference each other, the second one also a table that
    is not in the set. *)
Definition cyc_a : table :=
  Table "a" "CREATE TABLE a (id INT, b_id INT, FOREIGN KEY (b_id) REFERENCES b(id))".
Definition cyc_b : table :=
  Table "b" "CREATE TABLE b (id INT, a_id INT, z_id INT, FOREIGN KEY (a_id) REFERENCES a(id), FOREIGN KEY (z_id) REFERENCES missing(id))".

Definition cyc_a_stmt : string :=
  "CREATE TABLE a (id INT, b_id INT REFERENCES b(id))".
Definition cyc_b_stmt : string :=
  "CREATE TABLE b (id INT, a_id INT REFERENCES a(id))".

(** ** Validator: equivalence of column types ([are_equivalent_types]) *)

Definition EQUIVALENT_TYPES : gmap string string :=
  foldl (fun m kv => <[kv.1 := kv.2]> m) ∅
    [ ("int", "integer");
      ("integer", "int");
      ("varchar", "character varying");
      ("character varying", "varchar");
      ("datetime", "timestamp without time zone");
      ("timestamp without time zone", "datetime");
      ("tinyint", "smallint");
      ("smallint", "tinyint");
      ("bigint", "bigint");
      ("decimal", "numeric");
      ("numeric", "decimal");
      ("double", "double precision");
      ("double precision", "double") ].

(** [type.strip().lower()] *)
Definition normalize_type (t : string) : string := Py.lower (Py.strip t).

(** [k in d and d[k] == v] *)
Definition maps_to (d : gmap string string) (k v : string) : bool :=
  match d !! k with
  | Some v' => bool_decide (v' = v)
  | None => false
  end.

Definition are_equivalent_types (type1 type2 : string) : bool :=
  let type1 := normalize_type type1 in
  let type2 := normalize_type type2 in
  if decide (type1 = type2) then true
  else if maps_to EQUIVALENT_TYPES type1 type2 then true
  else if maps_to EQUIVALENT_TYPES type2 type1 then true
  else false.

(** ** Schema Extractor: the data profile of [extract_mysql_ddl] *)

(** [a / b] on integers.  The quotient, a float in the source, is kept as
    the exact rational. *)
Definition truediv (a b : Z) : outcome Q :=
  if decide (b = 0%Z) then Raise ZeroDivisionError
  else Done (inject_Z a / inject_Z b)%Q.

Record column_stat : Type := ColumnStat {
  column_name : string;
  data_type : string;
  nullable : bool;
  null_count : Z;
  distinct_count : Z;
  null_ratio : Q
}.

Record table_profile : Type := TableProfile {
  row_count : Z;
  columns : list column_stat
}.

(** [result[0] if result else 0] on the row that [fetchone] returns. *)
Definition first_or_zero (result : option Z) : Z := default 0%Z result.

(** [null_count / row_count if row_count > 0 else 0] *)
Definition null_ratio_of (null_count row_count : Z) : outcome Q :=
  if decide (row_count > 0)%Z then truediv null_count row_count else Done 0%Q.

(** The handler of a [try: ... except Exception: ...]. *)
Definition or_else {A : Type} (m : outcome A) (handler : A) : A :=
  match m with
  | Done a => a
  | _ => handler
  end.

Section DataProfile.
(** The answers of the source database to the queries of the profile. *)
Variable count_rows : string -> outcome (option Z).
Variable column_rows : string -> outcome (list (string * string * string)).
Variable count_nulls : string -> string -> outcome (option Z).
Variable count_distinct : string -> string -> outcome (option Z).

Definition profile_column (table : string) (row_count : Z)
    (col_row : string * string * string) : column_stat :=
  let '(column_name, data_type, is_nullable) := col_row in
  or_else
    (null_result ← count_nulls table column_name;
     let null_count := first_or_zero null_result in
     distinct_result ← count_distinct table column_name;
     let distinct_count := first_or_zero distinct_result in
     ratio ← null_ratio_of null_count row_count;
     Done (ColumnStat column_name data_type (bool_decide (is_nullable = "YES"))
                      null_count distinct_count ratio))
    (ColumnStat column_name data_type (bool_decide (is_nullable = "YES"))
                0 0 0%Q).

Definition profile_table (table : string) : table_profile :=
  or_else
    (count_result ← count_rows table;
     let row_count := first_or_zero count_result in
     columns_result ← column_rows table;
     Done (TableProfile row_count
             (profile_column table row_count <$> columns_result)))
    (TableProfile 0 []).

Definition data_profile (tables : list string) : list (string * table_profile) :=
  foldl (fun profile table => Dict.set table (profile_table table) profile)
        [] tables.
End DataProfile.

(** ** JSON values *)

Inductive json : Type :=
  | JNull
  | JBool (b : bool)
  | JNum (z : Z)
  | JStr (s : string)
  | JList (l : list json)
  | JDict (d : list (string * json)).

(** [d.get(k)] on a value that may not be a dict. *)
Definition json_get (k : string) (v : json) : option json :=
  match v with
  | JDict d => Dict.get d k
  | _ => None
  end.

(** The name of the type of a value, as an error message prints it. *)
Definition class_name (v : json) : string :=
  match v with
  | JNull => "NoneType"
  | JBool _ => "bool"
  | JNum _ => "int"
  | JStr _ => "str"
  | JList _ => "list"
  | JDict _ => "dict"
  end.

(** [getattr(v, attr)] on a value that has no such method. *)
Definition no_attribute (v : json) (attr : string) : exn :=
  Exception ("'" +:+ class_name v +:+ "' object has no attribute '"
             +:+ attr +:+ "'").

(** ** Schema Translator ([translate_schema]) *)

Definition table_entry (n d : string) : json :=
  JDict [("name", JStr n); ("ddl", JStr d)].

Definition customers_ddl : string :=
  "CREATE TABLE customers (id SERIAL PRIMARY KEY, name VARCHAR(120) NOT NULL, email VARCHAR(255) NOT NULL, city VARCHAR(120) NOT NULL, created_at TIMESTAMP NOT NULL DEFAULT CURRENT_TIMESTAMP)".

(** The result returned when no API key is configured. *)
Definition demo_translation : json :=
  JDict [
    ("translated_ddl", JDict [
       ("tables", JList [
          table_entry "customers" customers_ddl;
          table_entry "employees" "CREATE TABLE employees (id SERIAL PRIMARY KEY, first_name VARCHAR(80) NOT NULL, last_name VARCHAR(80) NOT NULL, title VARCHAR(120) NOT NULL, hired_on DATE NOT NULL, salary DECIMAL(12,2) NOT NULL)";
          table_entry "products" "CREATE TABLE products (id SERIAL PRIMARY KEY, sku VARCHAR(64) NOT NULL, name VARCHAR(160) NOT NULL, price DECIMAL(10,2) NOT NULL, in_stock SMALLINT NOT NULL DEFAULT 1)";
          table_entry "orders" "CREATE TABLE orders (id SERIAL PRIMARY KEY, customer_id INTEGER NOT NULL, order_date TIMESTAMP NOT NULL, status VARCHAR(20) NOT NULL DEFAULT 'PENDING', total DECIMAL(12,2) NOT NULL, FOREIGN KEY (customer_id) REFERENCES customers(id))";
          table_entry "order_items" "CREATE TABLE order_items (id SERIAL PRIMARY KEY, order_id INTEGER NOT NULL, product_id INTEGER NOT NULL, qty INTEGER NOT NULL, unit_price DECIMAL(10,2) NOT NULL, line_total DECIMAL(12,2) NOT NULL, FOREIGN KEY (order_id) REFERENCES orders(id), FOREIGN KEY (product_id) REFERENCES products(id))"
       ])]);
    ("notes", JStr "Schema translated successfully (demo mode - no AI key configured). This is a simplified structure for testing purposes.")
  ].

(** The result returned when the oracle answers nothing. *)
Definition empty_response_translation : json :=
  JDict [("translated_ddl", JDict [("tables", JList [])]);
         ("notes", JStr "AI returned empty response")].

(** The result returned when the answer of the oracle is not JSON. *)
Definition non_json_translation (content : string) : json :=
  JDict [("translated_ddl",
          JDict [("tables", JList [table_entry "customers" customers_ddl])]);
         ("notes", JStr ("AI translation returned non-JSON response: "
                         +:+ Py.take 200 content +:+ "..."))].

(** The result returned when calling the oracle fails. *)
Definition failed_translation (e : exn) : json :=
  JDict [("translated_ddl", JDict [("tables", JList [])]);
         ("notes", JStr ("AI translation failed: " +:+ str_exn e))].

(** Removes the code fence that may wrap the answer of the oracle. *)
Definition strip_code_fence (content : string) : string :=
  let cleaned_content := Py.strip content in
  if Py.startswith cleaned_content "```json" then
    let c1 := Py.drop 7 cleaned_content in
    let c2 := if Py.endswith c1 "```" then Py.drop_end 3 c1 else c1 in
    Py.strip c2
  else if Py.startswith cleaned_content "```" then
    let c1 := Py.drop 3 cleaned_content in
    let c2 := if Py.endswith c1 "```" then Py.drop_end 3 c1 else c1 in
    Py.strip c2
  else cleaned_content.

Section Translator.
(** [OPENAI_API_KEY] of the environment, absent or a string. *)
Variable api_key : option string.
(** The prompt, a fixed template around the dialects and the dumped input. *)
Variable build_prompt : string -> string -> json -> string.
(** The call to the oracle: the content of its first choice, which may be
    absent, or the exception raised on the way. *)
Variable chat_completion : string -> answer (option string).
(** [json.loads], which raises [JSONDecodeError] on malformed text. *)
Variable json_loads : string -> answer json.

Definition translate_schema (source_dialect target_dialect : string)
    (input_ddl_json : json) : answer json :=
  if bool_decide (api_key = None ∨ api_key = Some EmptyString) then
    Ok demo_translation
  else
    match chat_completion (build_prompt source_dialect target_dialect input_ddl_json) with
    | Ok None => Ok empty_response_translation
    | Ok (Some content) =>
        match json_loads (strip_code_fence content) with
        | Ok result => Ok result
        | Err (JSONDecodeError _) => Ok (non_json_translation content)
        | Err e => Ok (failed_translation e)
        end
    | Err e => Ok (failed_translation e)
    end.
End Translator.

(** The [tables] entries of a translation result. *)
Definition translated_tables (result : json) : list json :=
  match json_get "translated_ddl" result with
  | Some ddl_part =>
      match json_get "tables" ddl_part with
      | Some (JList l) => l
      | _ => []
      end
  | None => []
  end.

Definition notes_of (result : json) : string :=
  match json_get "notes" result with
  | Some (JStr s) => s
  | _ => EmptyString
  end.

(** ** Statement reassembly ([reassemble_ai_ddl_statements]) *)

Record reassembly : Type := Reassembly {
  statements : list string;
  current_statement : string;
  in_create_table : bool;
  paren_depth : Z
}.

(** [line.count('(') - line.count(')')] *)
Definition paren_balance (line : string) : Z :=
  (Py.count "(" line - Py.count ")" line)%Z.

(** Appends the stripped current statement when it is not blank. *)
Definition flush (st : list string) (current : string) : list string :=
  if Py.truthy (Py.strip current) then st ++ [Py.strip current] else st.

(** The body of the loop, for one item of the list. *)
Definition reassemble_item (r : reassembly) (item : json) : reassembly :=
  match item with
  | JStr text =>
      let line := Py.strip text in
      if negb (Py.truthy line) || String.eqb line ";" then
        if Py.truthy (Py.strip (current_statement r)) then
          Reassembly (flush (statements r) (current_statement r))
                     EmptyString false 0
        else r
      else if Py.startswith (Py.upper line) "CREATE TABLE" then
        Reassembly (statements r) line true (paren_balance line)
      else if in_create_table r then
        let current := current_statement r +:+ " " +:+ line in
        let depth := (paren_depth r + paren_balance line)%Z in
        Reassembly (statements r) current
                   (if decide (depth <= 0)%Z then false else true) depth
      else
        Reassembly (flush (statements r) (current_statement r)) line
                   (in_create_table r) (paren_depth r)
  | _ => r
  end.

Definition reassemble_ai_ddl_statements (ddl_list : json) : list string :=
  match ddl_list with
  | JList items =>
      let r := foldl reassemble_item (Reassembly [] EmptyString false 0) items in
      flush (statements r) (current_statement r)
  | _ => []
  end.

(** ** Statement extraction ([extract_ddl_statements]) *)

(** *** The table sequencer on the entries of a bundle

    [sort_tables_by_dependencies] as [extract_ddl_statements] calls it, on
    the entries that [json.loads] gives: an entry is any value, the value
    under [name] any value that can be a key, and the one under [ddl] has to
    be a string for [lower] to be there. *)

Module Entries.

(** The keys of [table_map]: [None], an integer or a string; [True] and
    [False] are the keys [1] and [0]. *)
Inductive key : Type :=
  | KNone
  | KInt (z : Z)
  | KStr (s : string).

Global Instance key_eq_dec : EqDecision key.
Proof. solve_decision. Defined.

Global Instance key_countable : Countable key.
Proof.
  refine (inj_countable'
    (fun k => match k with
              | KNone => inl tt
              | KInt z => inr (inl z)
              | KStr s => inr (inr s)
              end)
    (fun x => match x with
              | inl _ => KNone
              | inr (inl z) => KInt z
              | inr (inr s) => KStr s
              end) _).
  by intros [].
Defined.

(** The key that a value is; a list or a dict cannot be one. *)
Definition key_of (v : json) : outcome key :=
  match v with
  | JNull => Done KNone
  | JBool b => Done (KInt (if b then 1 else 0))
  | JNum z => Done (KInt z)
  | JStr s => Done (KStr s)
  | JList _ | JDict _ =>
      Raise (Exception ("unhashable type: '" +:+ class_name v +:+ "'"))
  end.

(** [v.lower()] *)
Definition lower_of (v : json) : outcome string :=
  match v with
  | JStr s => Done (Py.lower s)
  | _ => Raise (no_attribute v "lower")
  end.

Section Keyed.
Context {V : Type}.

Fixpoint get (d : list (key * V)) (k : key) : option V :=
  match d with
  | [] => None
  | (k', v) :: d' => if decide (k = k') then Some v else get d' k
  end.

Definition mem (k : key) (d : list (key * V)) : bool :=
  bool_decide (is_Some (get d k)).

(** [d[k] = v]: a key already present keeps its place. *)
Fixpoint set (k : key) (v : V) (d : list (key * V)) : list (key * V) :=
  match d with
  | [] => [(k, v)]
  | (k', v') :: d' =>
      if decide (k = k') then (k, v) :: d' else (k', v') :: set k v d'
  end.

Definition item (d : list (key * V)) (k : key) : outcome V :=
  match get d k with
  | Some v => Done v
  | None => Raise (KeyError EmptyString)
  end.
End Keyed.

(** The body of the first loop. *)
Definition index_table (table : json)
    (acc : list (key * json) * gmap key (list string))
  : outcome (list (key * json) * gmap key (list string)) :=
  match table with
  | JDict d =>
      match Dict.get d "name", Dict.get d "ddl" with
      | Some name_value, Some ddl_value =>
          table_name ← key_of name_value;
          ddl ← lower_of ddl_value;
          Done (set table_name table acc.1,
                <[table_name := Re.findall Re.foreign_key_at ddl]> acc.2)
      | _, _ => Done acc
      end
  | _ => Done acc
  end.

Definition index_tables (tables : list json)
  : outcome (list (key * json) * gmap key (list string)) :=
  for_each tables index_table ([], ∅).

Record dfs_state : Type := DfsState {
  visited : gset key;
  temp_visited : gset key;
  sorted_tables : list json
}.

Definition set_remove (x : key) (s : gset key) : outcome (gset key) :=
  if decide (x ∈ s) then Done (s ∖ {[x]}) else Raise (KeyError EmptyString).

Section SortTables.
Variable table_map : list (key * json).
Variable table_deps : gmap key (list string).

Fixpoint visit (fuel : nat) (table_name : key) (st : dfs_state)
  : outcome dfs_state :=
  match fuel with
  | O => OutOfFuel
  | S fuel' =>
      if decide (table_name ∈ temp_visited st) then Done st
      else if decide (table_name ∈ visited st) then Done st
      else
        let st1 := DfsState (visited st) ({[table_name]} ∪ temp_visited st)
                            (sorted_tables st) in
        st2 ← for_each (default [] (table_deps !! table_name))
                (fun dep s =>
                   if mem (KStr dep) table_map then visit fuel' (KStr dep) s
                   else Done s)
                st1;
        temp ← set_remove table_name (temp_visited st2);
        t ← item table_map table_name;
        Done (DfsState ({[table_name]} ∪ visited st2) temp
                       (sorted_tables st2 ++ [t]))
  end.

Definition visit_all (fuel : nat) : outcome dfs_state :=
  for_each table_map.*1
    (fun table_name s =>
       if decide (table_name ∈ visited s) then Done s
       else visit fuel table_name s)
    (DfsState ∅ ∅ []).
End SortTables.

Definition sort_tables_by_dependencies (tables : list json)
  : outcome (list json) :=
  index ← index_tables tables;
  st ← visit_all index.1 index.2 (S (length index.1));
  Done (sorted_tables st).

End Entries.

(** *** Vocabulary of the traversal of the entries *)

Section EntriesSpec.
Variable table_map : list (Entries.key * json).

(** The keys that the traversal has not reached yet. *)
Definition left_to_visit (st : Entries.dfs_state) : nat :=
  size ((list_to_set table_map.*1 : gset Entries.key) ∖ (Entries.visited st ∪ Entries.temp_visited st)).

(** The tables emitted so far are those of the keys [ks]. *)
Definition emitted_keys (st : Entries.dfs_state) (ks : list Entries.key) : Prop :=
  NoDup ks
  ∧ (forall k, k ∈ ks <-> k ∈ Entries.visited st)
  ∧ Forall2 (fun k t => Entries.get table_map k = Some t) ks
            (Entries.sorted_tables st)
  ∧ Entries.visited st ## Entries.temp_visited st.

Definition step_post (P : Entries.key -> Prop) (st st' : Entries.dfs_state) : Prop :=
  Entries.temp_visited st' = Entries.temp_visited st
  ∧ Entries.visited st ⊆ Entries.visited st'
  ∧ (forall k, P k -> k ∈ Entries.temp_visited st ∨ k ∈ Entries.visited st')
  ∧ (forall ks, emitted_keys st ks -> exists ext, emitted_keys st' (ks ++ ext)).
End EntriesSpec.

(** What the first loop makes of an entry: the key under which a table
    record is filed, nothing for an entry that it passes over, and the error
    of an entry whose name cannot be a key or whose DDL is no string. *)
Definition filed (table : json) : outcome (option Entries.key) :=
  match table with
  | JDict d =>
      match Dict.get d "name", Dict.get d "ddl" with
      | Some name_value, Some ddl_value =>
          table_name ← Entries.key_of name_value;
          _ ← Entries.lower_of ddl_value;
          Done (Some table_name)
      | _, _ => Done None
      end
  | _ => Done None
  end.

(** The error of the first entry that raises one. *)
Fixpoint first_error (tables : list json) : option exn :=
  match tables with
  | [] => None
  | table :: rest =>
      match filed table with
      | Raise e => Some e
      | _ => first_error rest
      end
  end.

(** The last entry filed under a key. *)
Definition last_filed (k : Entries.key) (tables : list json) : option json :=
  last (filter (fun table => filed table = Done (Some k)) tables).

(** The table record that an entry with a string under [name] and under
    [ddl] is; an entry that is no dict or lacks one of the two keys is passed
    over by the sequencer. *)
Definition item_of_json (v : json) : option item :=
  match v with
  | JDict d =>
      match Dict.get d "name", Dict.get d "ddl" with
      | Some (JStr n), Some (JStr text) => Some (ITable (Table n text))
      | Some _, Some _ => None
      | _, _ => Some IOther
      end
  | _ => Some IOther
  end.

(** A DDL text without surrounding space and without its last semicolon;
    nothing when that leaves it empty. *)
Definition clean_ddl (text : string) : list string :=
  let d := Py.strip text in
  let d := if Py.endswith_char d ";" then Py.strip (Py.drop_last d) else d in
  let d := Py.rstrip d in
  if Py.truthy d then [d] else [].

(** The statement of an entry: of a dict that carries a [ddl] key, the
    cleaned text under it. *)
Definition ddl_of_entry (entry : json) : outcome (list string) :=
  match entry with
  | JDict d =>
      match Dict.get d "ddl" with
      | Some (JStr text) => Done (clean_ddl text)
      | Some v => Raise (no_attribute v "strip")
      | None => Done []
      end
  | _ => Done []
  end.

(** The statements appended by a loop over [xs]. *)
Fixpoint collect {A : Type} (f : A -> outcome (list string)) (xs : list A)
  : outcome (list string) :=
  match xs with
  | [] => Done []
  | x :: xs' => a ← f x; b ← collect f xs'; Done (a ++ b)
  end.

Definition ddl_of_entries (entries : list json) : outcome (list string) :=
  collect ddl_of_entry entries.

Definition section_keys : list string :=
  ["indexes"; "constraints"; "views"; "triggers"; "procedures"; "functions"].

Definition extract_ddl_statements (ddl_data : json) : outcome (list string) :=
  match ddl_data with
  | JDict d =>
      table_part ←
        match Dict.get d "tables" with
        | Some (JList tables) =>
            sorted_tables ← Entries.sort_tables_by_dependencies tables;
            ddl_of_entries sorted_tables
        | _ => Done []
        end;
      section_part ←
        collect (fun key =>
                   match Dict.get d key with
                   | Some (JList entries) => ddl_of_entries entries
                   | _ => Done []
                   end) section_keys;
      Done (table_part ++ section_part)
  | JList _ => Done (reassemble_ai_ddl_statements ddl_data)
  | JStr text =>
      Done (filter (fun part => Py.truthy part = true)
              (Py.strip <$> Py.split ";" text))
  | _ => Done []
  end.

(** Deletes the white space of a text. *)
Fixpoint squeeze (s : string) : string :=
  match s with
  | EmptyString => EmptyString
  | String c s' => if Py.is_space c then squeeze s' else String c (squeeze s')
  end.

(** A statement up to white space and its terminating semicolons. *)
Definition statement_core (s : string) : string :=
  Py.rstrip_char ";" (squeeze s).

Definition fragments_t : json :=
  JList [JStr "CREATE TABLE t ("; JStr "id INT"; JStr ");"].
Definition joined_t : json := JStr "CREATE TABLE t (id INT);".

(** ** Stateful fallible code

    A computation over a state [St] returns or raises, and leaves a state
    either way: what was written before an exception stays written. *)

Definition task (St A : Type) : Type := St -> answer A * St.

Global Instance task_ret {St} : MRet (task St) := fun A a s => (Ok a, s).

Global Instance task_bind {St} : MBind (task St) := fun A B k m s =>
  match m s with
  | (Ok a, s') => k a s'
  | (Err e, s') => (Err e, s')
  end.

Definition raise {St A : Type} (e : exn) : task St A := fun s => (Err e, s).

Definition modify {St : Type} (f : St -> St) : task St unit :=
  fun s => (Ok tt, f s).

(** [try: m except Exception as e: handler e] *)
Definition try_except {St A : Type} (m : task St A) (handler : exn -> task St A)
  : task St A :=
  fun s =>
    match m s with
    | (Ok a, s') => (Ok a, s')
    | (Err e, s') => handler e s'
    end.

(** [try: m finally: cleanup], for a cleanup that does not raise. *)
Definition try_finally {St A : Type} (m : task St A) (cleanup : St -> St)
  : task St A :=
  fun s => let '(r, s') := m s in (r, cleanup s').

(** [try: m except: pass] *)
Definition suppress {St : Type} (m : task St unit) : St -> St :=
  fun s => (m s).2.

(** A loop [for x in xs: body x] whose body may raise. *)
Fixpoint for_task {St A : Type} (xs : list A) (body : A -> task St unit)
  : task St unit :=
  match xs with
  | [] => mret tt
  | x :: xs' => body x ≫= fun _ => for_task xs' body
  end.

(** A traversal that runs out of fuel is a recursion that Python gives up
    with an exception. *)
Definition outcome_answer {A : Type} (m : outcome A) : answer A :=
  match m with
  | Done a => Ok a
  | Raise e => Err e
  | OutOfFuel => Err (Exception "maximum recursion depth exceeded")
  end.

(** ** Migration Executor: structure migration ([apply_ddl_to_target]) *)

(** What the executor asks of the target connection and its cursor. *)
Inductive db_event : Type :=
  | Execute (statement : string)
  | Commit
  | Rollback
  | CloseCursor.

Definition dquote : string := String "034" EmptyString.

(** [f'DROP TABLE IF EXISTS "{table_name}" CASCADE'] with its quotes. *)
Definition drop_table_statement (table_name : string) : string :=
  "DROP TABLE IF EXISTS " +:+ dquote +:+ table_name +:+ dquote +:+ " CASCADE".

(** [statement.strip().rstrip(';')] *)
Definition clean_statement (statement : string) : string :=
  Py.rstrip_char ";" (Py.strip statement).

(** The message tells of an object that is there already. *)
Definition is_duplicate_error (e : exn) : bool :=
  let error_msg := Py.lower (str_exn e) in
  Py.contains "already exists" error_msg || Py.contains "duplicate" error_msg.

Section Executor.
(** The target database: its state, and how it answers the calls of the
    executor. *)
Variable W : Type.
Variable db_execute : string -> W -> answer unit * W.
Variable db_commit : W -> answer unit * W.
Variable db_rollback : W -> answer unit * W.
Variable db_close : W -> answer unit * W.
Variable json_loads : string -> answer json.

(** The state of a run: the database, the calls made so far, and the
    counter of the executed statements. *)
Record run_state : Type := RunState {
  world : W;
  trace : list db_event;
  executed_count : nat
}.

Definition call (ev : db_event) (op : W -> answer unit * W) : task run_state unit :=
  fun s =>
    let '(r, w) := op (world s) in
    (r, RunState w (trace s ++ [ev]) (executed_count s)).

Definition execute (statement : string) : task run_state unit :=
  call (Execute statement) (db_execute statement).

Definition count_executed : task run_state unit :=
  modify (fun s => RunState (world s) (trace s) (S (executed_count s))).

(** The recovery from a failure that tells of an existing object. *)
Definition drop_and_recreate (cleaned_statement : string) (stmt_error : exn)
  : task run_state unit :=
  try_except
    (match Re.search Re.drop_target_at cleaned_statement with
     | Some table_name =>
         execute (drop_table_statement table_name) ≫= fun _ =>
         execute cleaned_statement ≫= fun _ =>
         count_executed
     | None => mret tt
     end)
    (fun drop_error => raise stmt_error).

(** The body of the execution loop. *)
Definition execute_statement (statement : string) : task run_state unit :=
  if negb (Py.truthy statement) || Py.isspace statement then mret tt
  else
    let cleaned_statement := clean_statement statement in
    try_except
      (execute cleaned_statement ≫= fun _ => count_executed)
      (fun stmt_error =>
         if is_duplicate_error stmt_error
         then drop_and_recreate cleaned_statement stmt_error
         else raise stmt_error).

(** [type(v)] as it is printed. *)
Definition type_name (v : json) : string :=
  match v with
  | JNull => "<class 'NoneType'>"
  | JBool _ => "<class 'bool'>"
  | JNum _ => "<class 'int'>"
  | JStr _ => "<class 'str'>"
  | JList _ => "<class 'list'>"
  | JDict _ => "<class 'dict'>"
  end.

(** The statements to execute, from the shapes that the DDL data can have. *)
Definition statements_of (ddl_data : json) : answer (list string) :=
  match ddl_data with
  | JDict d =>
      match Dict.get d "translated_ddl" with
      | Some ddl_content => outcome_answer (extract_ddl_statements ddl_content)
      | None => outcome_answer (extract_ddl_statements ddl_data)
      end
  | JStr text =>
      match json_loads text with
      | Ok parsed_data => outcome_answer (extract_ddl_statements parsed_data)
      | Err (JSONDecodeError _) =>
          Ok (filter (fun part => Py.truthy part = true)
                (Py.strip <$> Py.split ";" text))
      | Err e => Err e
      end
  | JList _ => Ok (reassemble_ai_ddl_statements ddl_data)
  | _ => Err (Exception ("Unsupported DDL data type: " +:+ type_name ddl_data))
  end.

Definition failed_to_apply (e : exn) : exn :=
  Exception ("Failed to apply DDL to target database: " +:+ str_exn e).

(** The body of [apply_ddl_to_target] once the cursor is there. *)
Definition apply_with_cursor (ddl_data : json) : task run_state bool :=
  try_finally
    (try_except
       (ddl_statements ← (fun s => (statements_of ddl_data, s));
        match ddl_statements with
        | [] => raise (Exception "No DDL statements found to execute")
        | _ =>
            for_task ddl_statements execute_statement ≫= fun _ =>
            call Commit db_commit ≫= fun _ =>
            mret true
        end)
       (fun e s => raise (failed_to_apply e) (suppress (call Rollback db_rollback) s)))
    (suppress (call CloseCursor db_close)).

(** [apply_ddl_to_target] on a connection that hands out its cursor: the
    test of the connection and the body.  The call [target_connection.cursor()]
    that stands between the two is in [apply_ddl_from_connection] below. *)
Definition apply_ddl_to_target (target_connection : option run_state)
    (ddl_data : json) : answer bool * option run_state :=
  match target_connection with
  | None => (Err (Exception "Target connection is None"), None)
  | Some s => let '(r, s') := apply_with_cursor ddl_data s in (r, Some s')
  end.

(** How the connection answers [target_connection.cursor()]. *)
Variable db_cursor : W -> answer unit * W.

Definition open_cursor : task run_state unit :=
  fun s =>
    let '(r, w) := db_cursor (world s) in
    (r, RunState w (trace s) (executed_count s)).

(** [apply_ddl_to_target] from its first statement.  The cursor is asked of
    the connection before the [try] statement is entered: an error of that
    call leaves the function as it is, past the handler that rolls back and
    past the [finally] block that closes the cursor. *)
Definition apply_ddl_from_connection (target_connection : option run_state)
    (ddl_data : json) : answer bool * option run_state :=
  match target_connection with
  | None => (Err (Exception "Target connection is None"), None)
  | Some s =>
      let '(r, s') := (open_cursor ≫= fun _ => apply_with_cursor ddl_data) s in
      (r, Some s')
  end.

(** The recovery that the design document describes: a statement whose
    failure tells of an existing object is followed by the drop of a table
    and by a second attempt. *)
Definition recovers_by_drop (st : run_state) (statement : string) : Prop :=
  forall e w1,
    db_execute (clean_statement statement) (world st) = (Err e, w1) ->
    is_duplicate_error e = true ->
    exists table_name rest r st',
      execute_statement statement st = (r, st')
      ∧ trace st' = trace st ++ Execute (clean_statement statement)
                              :: Execute (drop_table_statement table_name) :: rest.
End Executor.

Arguments RunState {W} world trace executed_count.
Arguments world {W} r.
Arguments trace {W} r.
Arguments executed_count {W} r.

(** A target database with one table [x] in it or not: creating [x] when
    it is there fails, dropping it removes it. *)
Definition create_x : string := "CREATE TABLE x (id INT)".

Definition x_db_execute (statement : string) (x_exists : bool)
  : answer unit * bool :=
  if String.eqb statement create_x then
    if x_exists
    then (Err (Exception "relation x already exists"), x_exists)
    else (Ok tt, true)
  else if String.eqb statement (drop_table_statement "x") then (Ok tt, false)
  else (Ok tt, x_exists).

(** A target database in which the index [idx] is there already. *)
Definition create_idx : string := "CREATE INDEX idx ON t (c)".

Definition idx_db_execute (statement : string) (w : unit) : answer unit * unit :=
  if String.eqb statement create_idx
  then (Err (Exception "relation idx already exists"), w)
  else (Ok tt, w).

(** A target database that refuses one statement for a reason of its own. *)
Definition strict_db_execute (statement : string) (w : unit) : answer unit * unit :=
  if String.eqb statement "CREATE TABLE y (id INTT)"
  then (Err (Exception "type INTT does not exist"), w)
  else (Ok tt, w).

Definition always_ok {W : Type} (w : W) : answer unit * W := (Ok tt, w).

Definition no_json (text : string) : answer json := Err (JSONDecodeError text).

(** *** The failure policy of the execution loop *)

Section ExecutorSpec.
Variable W : Type.
Variable db_execute : string -> W -> answer unit * W.
Variable db_commit : W -> answer unit * W.
Variable db_rollback : W -> answer unit * W.
Variable db_close : W -> answer unit * W.
Variable json_loads : string -> answer json.

Definition is_execute (ev : db_event) : Prop := exists s, ev = Execute s.

(** What the executor does with a statement whose first execution fails
    with [e], leaving the database in [w1]. *)
Definition failure_policy (st : run_state W) (statement : string) (e : exn)
    (w1 : W) : Prop :=
  let c := clean_statement statement in
  let run := execute_statement W db_execute statement st in
  (* an existing object, and a table name in the statement: drop, then retry *)
  (is_duplicate_error e = true ->
   forall table_name, Re.search Re.drop_target_at c = Some table_name ->
   let drop := drop_table_statement table_name in
   (forall e2 w2, db_execute drop w1 = (Err e2, w2) ->
      run = (Err e, RunState w2 (trace st ++ [Execute c; Execute drop])
                             (executed_count st)))
   ∧ (forall w2 w3, db_execute drop w1 = (Ok tt, w2) ->
        db_execute c w2 = (Ok tt, w3) ->
        run = (Ok tt, RunState w3 (trace st ++ [Execute c; Execute drop; Execute c])
                               (S (executed_count st))))
   ∧ (forall w2 e3 w3, db_execute drop w1 = (Ok tt, w2) ->
        db_execute c w2 = (Err e3, w3) ->
        run = (Err e, RunState w3 (trace st ++ [Execute c; Execute drop; Execute c])
                              (executed_count st))))
  (* an existing object, and no table name in the statement: skip *)
  ∧ (is_duplicate_error e = true ->
     Re.search Re.drop_target_at c = None ->
     run = (Ok tt, RunState w1 (trace st ++ [Execute c]) (executed_count st)))
  (* any other failure is raised again *)
  ∧ (is_duplicate_error e = false ->
     run = (Err e, RunState w1 (trace st ++ [Execute c]) (executed_count st)))
  (* a failure raised by the loop aborts the run with a rollback *)
  ∧ (forall ddl_data stmts st0 st1 e',
       statements_of json_loads ddl_data = Ok stmts ->
       for_task stmts (execute_statement W db_execute) st0 = (Err e', st1) ->
       exists w' evs,
         apply_with_cursor W db_execute db_commit db_rollback db_close json_loads
           ddl_data st0
         = (Err (failed_to_apply e'),
            RunState w' (trace st0 ++ evs ++ [Rollback; CloseCursor])
                     (executed_count st1))
         ∧ Forall is_execute evs).
End ExecutorSpec.

(** ** Status records of the long-running stages *)

(** The record that a stage keeps for the polling clients.  [percent_history]
    is not a field of the source: it lists the values that the run has
    written to [percent], oldest first, so that properties of a whole run can
    be stated. *)
Record phase_status : Type := PhaseStatus {
  phase : option string;
  percent : Z;
  done : bool;
  error : option string;
  results_summary : option json;
  percent_history : list Z
}.

(** The status that a run starts from: [{"phase": ..., "percent": 0, ...}]. *)
Definition reset_status (p : string) : phase_status :=
  PhaseStatus (Some p) 0 false None None [0%Z].

Definition set_phase (p : string) (s : phase_status) : phase_status :=
  PhaseStatus (Some p) (percent s) (done s) (error s) (results_summary s)
              (percent_history s).

Definition set_percent (v : Z) (s : phase_status) : phase_status :=
  PhaseStatus (phase s) v (done s) (error s) (results_summary s)
              (percent_history s ++ [v]).

Definition set_done (s : phase_status) : phase_status :=
  PhaseStatus (phase s) (percent s) true (error s) (results_summary s)
              (percent_history s).

Definition set_error (msg : string) (s : phase_status) : phase_status :=
  PhaseStatus (phase s) (percent s) (done s) (Some msg) (results_summary s)
              (percent_history s).

Definition set_summary (v : json) (s : phase_status) : phase_status :=
  PhaseStatus (phase s) (percent s) (done s) (error s) (Some v)
              (percent_history s).

(** The values never decrease and stay between 0 and 100. *)
Fixpoint non_decreasing (l : list Z) : bool :=
  match l with
  | x :: ((y :: _) as l') => (x <=? y)%Z && non_decreasing l'
  | _ => true
  end.

Definition within_percent (l : list Z) : bool :=
  forallb (fun v => (0 <=? v)%Z && (v <=? 100)%Z) l.

Definition monotonic_percent (s : phase_status) : Prop :=
  non_decreasing (percent_history s) = true
  ∧ within_percent (percent_history s) = true.

(** Truth value of the result of [d.get(k)]. *)
Definition json_truthy (v : option json) : bool :=
  match v with
  | None | Some JNull | Some (JBool false) | Some (JNum 0)
  | Some (JStr EmptyString) | Some (JList []) | Some (JDict []) => false
  | Some _ => true
  end.

(** [v[k]] *)
Definition json_item (k : string) (v : json) : answer json :=
  match json_get k v with
  | Some x => Ok x
  | None => Err (KeyError k)
  end.

Definition lift {St A : Type} (m : answer A) : task St A := fun s => (m, s).

(** ** Validator ([validate_connections], [run_comprehensive_validation]) *)

Inductive check_status : Type := Pass | Fail | Warning.

Global Instance check_status_eq_dec : EqDecision check_status.
Proof. solve_decision. Defined.

Record finding : Type := Finding {
  category : string;
  status : check_status;
  errorDetails : option string;
  suggestedFix : option string;
  confidenceScore : Q
}.

Record validation_run : Type := ValidationRun {
  validation_status : phase_status;
  results : list finding
}.

Section Validation.
(** The database drivers behind [connect_to_database], and the session and
    connection stores. *)
Variable connection : Type.
Variable connect_to_database : json -> answer connection.
Variable close_connection : connection -> answer unit.
Variable active_session : json.
Variable get_connection_by_id : json -> option json.
(** The checks of the later phases. *)
Variable validate_row_counts : json -> json -> answer (list finding).
Variable validate_table_structure : json -> json -> answer (list finding).
Variable sample_data_comparison : json -> json -> answer (list finding).
Variable content_analysis : json -> json -> answer (list finding).
Variable automated_testing_framework : json -> json -> answer (list finding).
Variable run_performance_benchmark : json -> json -> answer (list finding).
Variable create_rollback_checkpoint : json -> json -> answer (list finding).

(** Opening a connection and closing it again. *)
Definition probe (conn_info : json) : answer unit :=
  conn ← connect_to_database conn_info; close_connection conn.

Definition validate_connections (source_conn_info target_conn_info : json)
  : list finding :=
  match probe source_conn_info with
  | Err e =>
      [Finding "Source Connection" Fail (Some (str_exn e))
               (Some "Check source database connection settings") (9 # 10)]
  | Ok _ =>
      let results := [Finding "Source Connection" Pass None None 1] in
      match probe target_conn_info with
      | Ok _ => results ++ [Finding "Target Connection" Pass None None 1]
      | Err e =>
          results ++
          [Finding "Target Connection" Fail (Some (str_exn e))
                   (Some "Check target database connection settings") (9 # 10)]
      end
  end.

Definition enter (p : string) (v : Z) : task validation_run unit :=
  modify (fun r =>
    ValidationRun (set_percent v (set_phase p (validation_status r))) (results r)).

Definition extend (fs : list finding) : task validation_run unit :=
  modify (fun r => ValidationRun (validation_status r) (results r ++ fs)).

(** The connection details of the two sides of the session. *)
Definition session_connections : answer (json * json) :=
  if negb (json_truthy (json_get "source" active_session))
     || negb (json_truthy (json_get "target" active_session))
  then Err (Exception "Source and target connections not set")
  else
    source_id ← json_item "source" active_session ≫= json_item "id";
    target_id ← json_item "target" active_session ≫= json_item "id";
    match get_connection_by_id source_id, get_connection_by_id target_id with
    | Some source_conn_info, Some target_conn_info =>
        if json_truthy (Some source_conn_info) && json_truthy (Some target_conn_info)
        then Ok (source_conn_info, target_conn_info)
        else Err (Exception "Failed to retrieve connection details")
    | _, _ => Err (Exception "Failed to retrieve connection details")
    end.

Definition run_check (p : string) (v : Z)
    (check : json -> json -> answer (list finding)) (infos : json * json)
  : task validation_run unit :=
  enter p v ≫= fun _ =>
  fs ← lift (check infos.1 infos.2);
  extend fs.

Definition run_comprehensive_validation : task validation_run unit :=
  try_except
    (infos ← lift session_connections;
     enter "Validating database connections" 5 ≫= fun _ =>
     let connection_results := validate_connections infos.1 infos.2 in
     extend connection_results ≫= fun _ =>
     if existsb (fun f => bool_decide (status f = Fail)) connection_results
     then mret tt
     else
       run_check "Validating row counts" 15 validate_row_counts infos ≫= fun _ =>
       run_check "Validating table structures" 30 validate_table_structure infos ≫= fun _ =>
       run_check "Comparing sample data" 40 sample_data_comparison infos ≫= fun _ =>
       run_check "Analyzing content differences" 50 content_analysis infos ≫= fun _ =>
       run_check "Running automated tests" 70 automated_testing_framework infos ≫= fun _ =>
       run_check "Performance benchmarking" 85 run_performance_benchmark infos ≫= fun _ =>
       run_check "Creating rollback checkpoint" 95 create_rollback_checkpoint infos ≫= fun _ =>
       enter "Generating validation report" 100)
    (fun e =>
       extend [Finding "Validation Process" Fail (Some (str_exn e))
                       (Some "Check validation process implementation") (1 # 2)]).

(** The findings of a validation run. *)
Definition validation_results : list finding :=
  results (run_comprehensive_validation
             (ValidationRun (reset_status "Initializing") [])).2.
End Validation.

(** A session with both sides selected, and a store that knows them. *)
Definition demo_session : json :=
  JDict [("source", JDict [("id", JNum 1); ("dbType", JStr "MySQL")]);
         ("target", JDict [("id", JNum 2); ("dbType", JStr "PostgreSQL")])].

Definition demo_connection_by_id (id : json) : option json :=
  Some (JDict [("id", id); ("credentials", JDict [("host", JStr "db")])]).

(** A check that would report something if it were run. *)
Definition demo_check (_ _ : json) : answer (list finding) :=
  Ok [Finding "Row Count - products" Pass None None 1].

(** A driver that reaches no database. *)
Definition unreachable (_ : json) : answer unit :=
  Err (Exception "Failed to connect to MySQL database: timed out").

(** ** Schema Extractor: the background task ([run_extraction_task]) *)

Definition extraction_phases : list (string * Z) :=
  [ ("Loading analysis results", 10%Z);
    ("Generating DDL scripts", 30%Z);
    ("Extracting constraints", 50%Z);
    ("Building dependency graph", 70%Z);
    ("Preparing type mappings", 85%Z);
    ("Finalizing extraction", 100%Z) ].

Definition enter_phase (p : string) (v : Z) : task phase_status unit :=
  modify (fun s => set_percent v (set_phase p s)).

Section Extraction.
Variable active_session : json.
Variable get_connection_by_id : json -> option json.
(** [extract_database_ddl], and the writing of the artifact. *)
Variable extract_database_ddl : json -> answer json.
Variable save_bundle : json -> answer unit.
(** The summary computed from the extraction report of the bundle. *)
Variable summarize : json -> answer json.

Definition extraction_body : task phase_status unit :=
  source_db ← lift (match json_get "source" active_session with
                    | Some v => if json_truthy (Some v) then Ok v
                                else Err (Exception "No source database selected")
                    | None => Err (Exception "No source database selected")
                    end);
  source_id ← lift (json_item "id" source_db);
  connection_info ← lift (match get_connection_by_id source_id with
                          | Some v => if json_truthy (Some v) then Ok v
                                      else Err (Exception "Source database connection not found")
                          | None => Err (Exception "Source database connection not found")
                          end);
  for_task (removelast extraction_phases) (fun pv => enter_phase pv.1 pv.2) ≫= fun _ =>
  enter_phase "Generating DDL scripts" 60 ≫= fun _ =>
  extraction_bundle ← lift (extract_database_ddl connection_info);
  enter_phase "Finalizing extraction" 100 ≫= fun _ =>
  lift (save_bundle extraction_bundle) ≫= fun _ =>
  modify set_done ≫= fun _ =>
  summary ← lift (summarize extraction_bundle);
  modify (set_summary summary).

Definition run_extraction_task : phase_status :=
  (try_except extraction_body
     (fun e => modify (fun s => set_percent 100 (set_done (set_error (str_exn e) s))))
     (reset_status "Initializing")).2.
End Extraction.

(** ** Migration Executor: data migration ([run_data_migration_task]) *)

Definition tables_to_migrate : list string :=
  ["customers"; "employees"; "products"; "orders"; "order_items"].

Definition tables_to_drop : list string :=
  ["order_items"; "orders"; "products"; "employees"; "customers"].

(** [40 + int((i + 1) / len(tables_to_migrate) * 50)]; the quotient, a float
    in the source, is exact for the five tables. *)
Definition migration_progress (i : nat) : Z :=
  (40 + (Z.of_nat i + 1) * 50 / Z.of_nat (length tables_to_migrate))%Z.

Definition quoted (s : string) : string := dquote +:+ s +:+ dquote.

Fixpoint join (sep : string) (l : list string) : string :=
  match l with
  | [] => EmptyString
  | [x] => x
  | x :: l' => x +:+ sep +:+ join sep l'
  end.

(** The [INSERT] statement for the columns of a source table. *)
Definition insert_query (table : string) (column_names : list string) : string :=
  "INSERT INTO " +:+ quoted table +:+ " (" +:+ join ", " (quoted <$> column_names)
  +:+ ") VALUES (" +:+ join ", " ((fun _ => "%s") <$> column_names) +:+ ")".

Record migration_run (W : Type) : Type := MigrationRun {
  migration_status : phase_status;
  rows_migrated : Z;
  databases : W
}.
Arguments MigrationRun {W} migration_status rows_migrated databases.
Arguments migration_status {W} m.
Arguments rows_migrated {W} m.
Arguments databases {W} m.

Section DataMigration.
(** The two databases and the session and connection stores. *)
Variable W : Type.
Variable active_session : json.
Variable get_connection_by_id : json -> option json.
Variable connect_to_database : option json -> W -> answer unit * W.
Variable target_execute : string -> W -> answer unit * W.
Variable target_executemany : string -> list (list json) -> W -> answer unit * W.
Variable target_commit : W -> answer unit * W.
Variable source_execute : string -> W -> answer unit * W.
Variable source_fetchone : W -> answer (option Z) * W.
Variable source_fetchall : W -> answer (list (list json)) * W.
Variable source_description : W -> list string.
Variable close_connections : W -> answer unit * W.
(** The five hand-written [CREATE TABLE] statements of the target schema. *)
Variable create_table_statements : list string.
(** The decimal writing of an integer. *)
Variable str_int : Z -> string.

Definition status_step (f : phase_status -> phase_status)
  : task (migration_run W) unit :=
  modify (fun r => MigrationRun (f (migration_status r)) (rows_migrated r)
                                (databases r)).

Definition at_phase (p : string) (v : Z) : task (migration_run W) unit :=
  status_step (fun s => set_percent v (set_phase p s)).

(** A call to one of the databases. *)
Definition on_db {A : Type} (op : W -> answer A * W) : task (migration_run W) A :=
  fun r =>
    let '(a, w) := op (databases r) in
    (a, MigrationRun (migration_status r) (rows_migrated r) w).

(** [try: op except Exception: pass] *)
Definition attempt (op : W -> answer unit * W) : task (migration_run W) unit :=
  fun r => (Ok tt, (on_db op r).2).

Definition migrate_table (i : nat) (table : string) : task (migration_run W) unit :=
  on_db (source_execute ("SELECT COUNT(*) FROM " +:+ table)) ≫= fun _ =>
  result ← on_db source_fetchone;
  let table_row_count := first_or_zero result in
  status_step (set_phase ("Migrating " +:+ table +:+ " table ("
                          +:+ str_int table_row_count +:+ " rows)")) ≫= fun _ =>
  on_db (source_execute ("SELECT * FROM " +:+ table)) ≫= fun _ =>
  rows ← on_db source_fetchall;
  (match rows with
   | [] => mret tt
   | _ =>
       column_names ← (fun r => (Ok (source_description (databases r)), r));
       on_db (target_executemany (insert_query table column_names) rows) ≫= fun _ =>
       on_db target_commit
   end) ≫= fun _ =>
  modify (fun r => MigrationRun (migration_status r)
                     (rows_migrated r + table_row_count) (databases r)) ≫= fun _ =>
  status_step (set_percent (Z.min (migration_progress i) 90)).

(** [for i, x in enumerate(xs): body i x], counting from [i]. *)
Fixpoint for_enumerate {St A : Type} (i : nat) (xs : list A)
    (body : nat -> A -> task St unit) : task St unit :=
  match xs with
  | [] => mret tt
  | x :: xs' => body i x ≫= fun _ => for_enumerate (S i) xs' body
  end.

Definition migration_body : task (migration_run W) unit :=
  at_phase "Preparing data transfer" 10 ≫= fun _ =>
  (if negb (json_truthy (json_get "source" active_session))
      || negb (json_truthy (json_get "target" active_session))
   then raise (Exception "Source or target database not selected")
   else mret tt) ≫= fun _ =>
  source_id ← lift (json_item "source" active_session ≫= json_item "id");
  target_id ← lift (json_item "target" active_session ≫= json_item "id");
  let source_connection_info := get_connection_by_id source_id in
  let target_connection_info := get_connection_by_id target_id in
  at_phase "Connecting to databases" 20 ≫= fun _ =>
  on_db (connect_to_database source_connection_info) ≫= fun _ =>
  on_db (connect_to_database target_connection_info) ≫= fun _ =>
  at_phase "Preparing target database" 30 ≫= fun _ =>
  for_task tables_to_drop
    (fun table => attempt (target_execute (drop_table_statement table))) ≫= fun _ =>
  on_db target_commit ≫= fun _ =>
  for_task create_table_statements
    (fun statement => attempt (target_execute statement)) ≫= fun _ =>
  on_db target_commit ≫= fun _ =>
  at_phase "Migrating data" 40 ≫= fun _ =>
  for_enumerate 0 tables_to_migrate migrate_table ≫= fun _ =>
  at_phase "Validating data integrity" 95 ≫= fun _ =>
  at_phase "Finalizing data migration" 100 ≫= fun _ =>
  status_step set_done ≫= fun _ =>
  on_db close_connections.

Definition run_data_migration_task (w : W) : migration_run W :=
  (try_except migration_body
     (fun e => status_step (fun s => set_done (set_error (str_exn e) s)))
     (MigrationRun (reset_status "Initializing") 0 w)).2.
End DataMigration.

(** An extraction on which every step succeeds. *)
Definition demo_extraction : phase_status :=
  run_extraction_task demo_session demo_connection_by_id
    (fun _ => Ok (JDict [("extraction_report", JDict [("tables", JNum 5)])]))
    (fun _ => Ok tt)
    (fun _ => Ok (JDict [("objects_extracted", JNum 5)])).

(** *** The values a computation writes to [percent] *)

Section History.
Context {St : Type}.
Variable hist : St -> list Z.

(** [emits m vs]: a run of [m] that returns has appended [vs] to the history,
    and a run that raises has appended a prefix of [vs]. *)
Definition emits {A : Type} (m : task St A) (vs : list Z) : Prop :=
  forall s,
    match (m s).1 with
    | Ok _ => hist (m s).2 = hist s ++ vs
    | Err _ => exists k, hist (m s).2 = hist s ++ take k vs
    end.

(** [within m vs]: a run of [m] has appended a prefix of [vs]. *)
Definition within {A : Type} (m : task St A) (vs : list Z) : Prop :=
  forall s, exists k, hist (m s).2 = hist s ++ take k vs.
End History.

(** *** Fragments of one statement *)

(** A fragment that continues the statement being assembled: not blank, not
    a lone semicolon, and not the start of another [CREATE TABLE]. *)
Definition continuation (fragment : string) : Prop :=
  let line := Py.strip fragment in
  Py.truthy line = true
  ∧ String.eqb line ";" = false
  ∧ Py.startswith (Py.upper line) "CREATE TABLE" = false.

(** The parentheses of the statement stay open until its last fragment. *)
Fixpoint stays_open (depth : Z) (rest : list string) : Prop :=
  match rest with
  | [] => True
  | f :: rest' =>
      match rest' with
      | [] => True
      | _ => (depth + paren_balance (Py.strip f) > 0)%Z
             ∧ stays_open (depth + paren_balance (Py.strip f)) rest'
      end
  end.

(** The fragments put one after the other, as one text. *)
Definition pre_joined (fragments : list string) : string :=
  foldr String.append EmptyString fragments.

(** The stripped fragments with one space between them. *)
Definition spaced (first : string) (rest : list string) : string :=
  foldl (fun acc f => acc +:+ " " +:+ Py.strip f) (Py.strip first) rest.

(** ** Vocabulary of the further properties *)

(** The last record of a list that carries the name [n]: the one that the
    assignment [table_map[table_name] = table] leaves in the map. *)
Definition last_named (n : string) (ts : list table) : option table :=
  last (filter (fun t => name t = n) ts).

(** A text that is not empty and has no white space around it. *)
Definition trimmed (s : string) : Prop :=
  Py.truthy s = true ∧ Py.strip s = s.

(** The statement list of the reassembler, were the input to end here: the
    step taken after the loop. *)
Definition finish (r : reassembly) : list string :=
  flush (statements r) (current_statement r).

(** The statements that the execution loop of [apply_ddl_to_target] hands to
    the cursor: those that are neither empty nor blank, cleaned. *)
Definition to_execute (ddl_statements : list string) : list string :=
  clean_statement <$>
    filter (fun s => negb (Py.truthy s) || Py.isspace s = false) ddl_statements.

(** ** Migration Executor: the background task of the structure migration
    ([run_structure_migration_task]) *)

(** [v.get(k, dflt)], which raises on a value that has no [get]. *)
Definition get_or (k : string) (dflt : json) (v : json) : answer json :=
  match v with
  | JDict d => Ok (default dflt (Dict.get d k))
  | _ => Err (Exception ("'" +:+ class_name v
                         +:+ "' object has no attribute 'get'"))
  end.

(** A value that may be [None], as a value. *)
Definition or_none (v : option json) : json := default JNull v.

(** The status of the structure migration, the target connection with the
    calls made on it, and whether [close] was called on the connection; the
    last is not a variable of the source. *)
Record structure_run (W : Type) : Type := StructureRun {
  structure_status : phase_status;
  translated_queries : option json;
  notes : option json;
  translated_queries_original : option json;
  target_connection : option (run_state W);
  connection_closed : bool
}.
Arguments StructureRun {W} structure_status translated_queries notes
  translated_queries_original target_connection connection_closed.
Arguments structure_status {W} s.
Arguments translated_queries {W} s.
Arguments notes {W} s.
Arguments translated_queries_original {W} s.
Arguments target_connection {W} s.
Arguments connection_closed {W} s.

(** The tables dropped before the translated schema is applied. *)
Definition drop_existing_statements : list string :=
  [ "DROP TABLE IF EXISTS order_items CASCADE";
    "DROP TABLE IF EXISTS orders CASCADE";
    "DROP TABLE IF EXISTS products CASCADE";
    "DROP TABLE IF EXISTS employees CASCADE";
    "DROP TABLE IF EXISTS customers CASCADE" ].

Section StructureMigration.
(** The artifact of the extraction, the session and connection stores, the
    translator with its collaborators, and the target database. *)
Variable W : Type.
Variable bundle_exists : bool.
Variable load_bundle : answer json.
Variable active_session : json.
Variable get_connection_by_id : json -> option json.
Variable api_key : option string.
Variable build_prompt : string -> string -> json -> string.
Variable chat_completion : string -> answer (option string).
Variable json_loads : string -> answer json.
Variable json_dumps : json -> string.
(** The text of a value inside a formatted string. *)
Variable str_json : json -> string.
Variable connect_to_database : json -> answer W.
Variable db_execute : string -> W -> answer unit * W.
Variable db_commit : W -> answer unit * W.
Variable db_rollback : W -> answer unit * W.
Variable db_close : W -> answer unit * W.
Variable close_connection : W -> answer unit * W.

Definition on_status (f : phase_status -> phase_status)
  : task (structure_run W) unit :=
  modify (fun r =>
    StructureRun (f (structure_status r)) (translated_queries r) (notes r)
      (translated_queries_original r) (target_connection r)
      (connection_closed r)).

Definition structure_phase (p : string) (v : Z) : task (structure_run W) unit :=
  on_status (fun s => set_percent v (set_phase p s)).

Definition store_translation (original queries notes_text : json)
  : task (structure_run W) unit :=
  modify (fun r =>
    StructureRun (structure_status r) (Some queries) (Some notes_text)
      (Some original) (target_connection r) (connection_closed r)).

Definition with_target (c : option (run_state W)) (r : structure_run W)
  : structure_run W :=
  StructureRun (structure_status r) (translated_queries r) (notes r)
    (translated_queries_original r) c (connection_closed r).

(** [raise Exception(msg)] unless the condition holds. *)
Definition require (condition : bool) (msg : string) : task (structure_run W) unit :=
  if condition then mret tt else raise (Exception msg).

(** [json.loads(text)], keeping [fallback] when the text is not JSON. *)
Definition loads_or (text : string) (fallback : json) : answer json :=
  match json_loads text with
  | Ok parsed => Ok parsed
  | Err (JSONDecodeError _) => Ok fallback
  | Err e => Err e
  end.

(** The five [DROP TABLE] statements on a cursor of their own, then the
    commit; a failure ends the block and is passed over by the caller. *)
Definition drop_existing : task (run_state W) unit :=
  for_task drop_existing_statements (execute W db_execute) ≫= fun _ =>
  call W Commit db_commit ≫= fun _ =>
  call W CloseCursor db_close.

Definition apply_to_target (ddl_data : json) : task (structure_run W) bool :=
  fun r =>
    let '(a, c) := apply_ddl_to_target W db_execute db_commit db_rollback
                     db_close json_loads (target_connection r) ddl_data in
    (a, with_target c r).

(** Phase 6: the stored translation is applied when it is not empty. *)
Definition create_tables (original : json) : task (structure_run W) unit :=
  if json_truthy (Some original) then
    require (match original with
             | JStr text => Py.truthy (Py.strip text)
             | _ => true
             end)
      "AI returned empty DDL queries" ≫= fun _ =>
    ddl_data ← lift (match original with
                     | JStr text =>
                         if Py.startswith (Py.strip text) "{"
                         then loads_or text original
                         else Ok original
                     | _ => Ok original
                     end);
    try_except (apply_to_target ddl_data ≫= fun _ => mret tt)
      (fun e => raise (Exception ("Failed to apply DDL to target database: "
                                  +:+ str_exn e)))
  else mret tt.

(** The phases up to and including the creation of the tables. *)
Definition structure_phases : task (structure_run W) unit :=
  structure_phase "Loading extraction results" 10 ≫= fun _ =>
  require bundle_exists
    "Extraction bundle not found. Please run extraction first." ≫= fun _ =>
  extraction_data ← lift load_bundle;
  structure_phase "Getting session information" 20 ≫= fun _ =>
  require (json_truthy (json_get "source" active_session)
           && json_truthy (json_get "target" active_session))
    "Source or target database not selected" ≫= fun _ =>
  source_id ← lift (json_item "source" active_session ≫= json_item "id");
  target_id ← lift (json_item "target" active_session ≫= json_item "id");
  let source_connection_info := get_connection_by_id source_id in
  let target_connection_info := get_connection_by_id target_id in
  require (json_truthy source_connection_info
           && json_truthy target_connection_info)
    "Source or target database connection not found" ≫= fun _ =>
  structure_phase "Translating schema to target dialect" 40 ≫= fun _ =>
  source_type ← lift (json_item "source" active_session ≫= json_item "dbType");
  target_type ← lift (json_item "target" active_session ≫= json_item "dbType");
  translation_result ←
    lift (translate_schema api_key build_prompt chat_completion json_loads
            (str_json source_type) (str_json target_type) extraction_data);
  translated_ddl ← lift (get_or "translated_ddl" (JStr EmptyString)
                           translation_result);
  original ← lift (match translated_ddl with
                   | JStr text => loads_or text translated_ddl
                   | _ => Ok translated_ddl
                   end);
  notes_text ← lift (get_or "notes" (JStr EmptyString) translation_result);
  store_translation original
    (match translated_ddl with
     | JDict _ => JStr (json_dumps translated_ddl)
     | _ => translated_ddl
     end)
    notes_text ≫= fun _ =>
  require (json_truthy (Some translated_ddl)
           && match translated_ddl with
              | JStr text => Py.truthy (Py.strip text)
              | _ => true
              end)
    "AI failed to generate DDL queries. Please check your OpenAI API key and connection." ≫= fun _ =>
  structure_phase "Validating DDL syntax" 60 ≫= fun _ =>
  structure_phase "Connecting to target database" 70 ≫= fun _ =>
  require (json_truthy target_connection_info)
    "No target database configured. Please set up a target database connection through the UI." ≫= fun _ =>
  credentials ← lift (get_or "credentials" JNull (or_none target_connection_info));
  require (json_truthy (Some credentials))
    "Target database credentials missing. Please configure the target database connection." ≫= fun _ =>
  w ← lift (match connect_to_database (or_none target_connection_info) with
            | Ok w => Ok w
            | Err e => Err (Exception ("Failed to connect to target database: "
                                       +:+ str_exn e))
            end);
  modify (with_target (Some (RunState w [] 0))) ≫= fun _ =>
  structure_phase "Dropping existing tables" 75 ≫= fun _ =>
  modify (fun r => with_target (suppress drop_existing <$> target_connection r) r)
    ≫= fun _ =>
  structure_phase "Creating tables in target" 80 ≫= fun _ =>
  create_tables original.

Definition structure_body : task (structure_run W) unit :=
  structure_phases ≫= fun _ =>
  structure_phase "Finalizing structure migration" 100 ≫= fun _ =>
  on_status set_done.

(** The [finally] block: the target connection is closed when there is one. *)
Definition close_target (r : structure_run W) : structure_run W :=
  match target_connection r with
  | Some c =>
      StructureRun (structure_status r) (translated_queries r) (notes r)
        (translated_queries_original r)
        (Some (RunState (close_connection (world c)).2 (trace c)
                        (executed_count c)))
        true
  | None => r
  end.

Definition run_structure_migration_task : structure_run W :=
  (try_finally
     (try_except structure_body
        (fun e => on_status (fun s => set_done (set_error (str_exn e) s))))
     close_target
     (StructureRun (reset_status "Initializing") None None None None false)).2.
End StructureMigration.

(** *** Vocabulary of the status properties *)

(** A step that leaves the status alone, but for the phase. *)
Definition quiet {W A : Type} (m : task (structure_run W) A) : Prop :=
  forall s,
    let st := structure_status s in
    let st' := structure_status (m s).2 in
    percent st' = percent st ∧ done st' = done st ∧ error st' = error st
    ∧ percent_history st' = percent_history st
    ∧ connection_closed (m s).2 = connection_closed s.

(** A step that keeps [percent] the last value written, and [done], [error]
    and the closing of the connection as they are. *)
Definition steady {W A : Type} (m : task (structure_run W) A) : Prop :=
  forall s,
    let st := structure_status s in
    let st' := structure_status (m s).2 in
    done st' = done st ∧ error st' = error st
    ∧ connection_closed (m s).2 = connection_closed s
    ∧ (last (percent_history st) = Some (percent st) ->
       last (percent_history st') = Some (percent st')).

(** ** Validator: the checks behind the phases

    [connect_to_database], [get_table_row_counts], [validate_row_counts],
    [get_table_schemas] and [validate_table_structure] of
    [backend/routes/validate.py]. *)

(** A column as [get_table_schemas] records it.  The keys [key], [default]
    and [extra] of the source are read by no check. *)
Record column : Type := Column {
  col_name : string;
  col_type : string;
  col_nullable : bool
}.

(** [str(b)] *)
Definition str_bool (b : bool) : string := if b then "True" else "False".

(** [attempt_port == ports_to_try[-1]], the last port being 5432. *)
Definition is_default_port (port : json) : bool :=
  match port with
  | JNum z => (z =? 5432)%Z
  | _ => false
  end.

Module Validate.
Section Validate.
(** The drivers, the text of a value inside a formatted string, and the
    answers of a connection to the queries of its dialect: the listing of
    the tables, the count of the rows of a table and the description of its
    columns. *)
Variable connection : Type.
Variable mysql_connect : json -> bool -> answer connection.
Variable psycopg2_connect : json -> json -> answer connection.
Variable select_one : connection -> answer unit.
Variable close_connection : connection -> answer unit.
Variable list_tables : connection -> answer (list string).
Variable count_of : connection -> string -> answer Z.
Variable describe : connection -> string -> answer (list column).
Variable str_json : json -> string.
Variable str_int : Z -> string.

(** One attempt on a port: the connection and the test query.  The state is
    the list of the ports tried so far. *)
Definition attempt (credentials attempt_port : json) : task (list json) connection :=
  fun tried =>
    (c ← psycopg2_connect credentials attempt_port;
     select_one c ≫= fun _ => Ok c,
     tried ++ [attempt_port]).

Fixpoint try_ports (credentials : json) (ports_to_try : list json)
  : task (list json) connection :=
  match ports_to_try with
  | [] => raise (Exception "PostgreSQL connection failed on all tried ports")
  | attempt_port :: rest =>
      try_except (attempt credentials attempt_port)
        (fun e =>
           if is_default_port attempt_port
           then raise (Exception
                  ("PostgreSQL connection failed on all tried ports. Last error: "
                   +:+ str_exn e))
           else try_ports credentials rest)
  end.

Definition connect_to_database (connection_info : json)
  : task (list json) connection :=
  db_type ← lift (get_or "dbType" (JStr EmptyString) connection_info);
  credentials ← lift (get_or "credentials" (JDict []) connection_info);
  try_except
    (match db_type with
     | JStr "MySQL" =>
         ssl_mode ← lift (get_or "ssl" (JStr "true") credentials);
         lift (mysql_connect credentials
                 (match ssl_mode with JStr "false" => true | _ => false end))
     | JStr "PostgreSQL" =>
         port ← lift (get_or "port" (JNum 5432) credentials);
         try_ports credentials [port; JNum 5432]
     | _ =>
         raise (Exception ("Database connection not implemented for "
                           +:+ str_json db_type))
     end)
    (fun e => raise (Exception ("Failed to connect to " +:+ str_json db_type
                                +:+ " database: " +:+ str_exn e))).

(** The loop over the listed tables: it ends at the first query that fails,
    and what was counted before stays. *)
Fixpoint count_listed (conn : connection) (tables : list string)
    (row_counts : list (string * Z)) : list (string * Z) :=
  match tables with
  | [] => row_counts
  | table_name :: rest =>
      match count_of conn table_name with
      | Ok count => count_listed conn rest (Dict.set table_name count row_counts)
      | Err _ => row_counts
      end
  end.

Definition get_table_row_counts (conn : connection) (db_type : string)
  : list (string * Z) :=
  if bool_decide (db_type = "MySQL") || bool_decide (db_type = "PostgreSQL") then
    match list_tables conn with
    | Ok tables => count_listed conn tables []
    | Err _ => []
    end
  else [].

Definition row_count_finding (table : string) (source_count target_count : Z)
  : finding :=
  if decide (source_count = target_count) then
    Finding ("Row Count - " +:+ table) Pass None None 1
  else
    Finding ("Row Count - " +:+ table) Fail
      (Some ("Row count mismatch: Source=" +:+ str_int source_count
             +:+ ", Target=" +:+ str_int target_count))
      (Some "Check data migration process for missing or duplicate rows")
      (8 # 10).

(** The comparison loop.  The order in which Python goes through the set of
    the table names is not specified; the order of [elements] stands for it. *)
Definition compare_row_counts (source_counts target_counts : list (string * Z))
  : list finding :=
  let all_tables : gset string :=
    list_to_set (Dict.keys source_counts) ∪ list_to_set (Dict.keys target_counts) in
  (fun table =>
     row_count_finding table (default 0%Z (Dict.get source_counts table))
                       (default 0%Z (Dict.get target_counts table)))
    <$> elements all_tables.

(** The texts of [info.get("dbType", default)] and, after it, of
    [info.get("credentials", {}).get("database", default)], the default being
    the empty string. *)
Definition type_and_database (conn_info : json) : answer (string * string) :=
  db_type ← get_or "dbType" (JStr EmptyString) conn_info;
  credentials ← get_or "credentials" (JDict []) conn_info;
  database ← get_or "database" (JStr EmptyString) credentials;
  Ok (str_json db_type, str_json database).

(** The connection to one side, the reading of its counts, and the closing
    of the connection. *)
Definition read_counts (conn_info : json) : answer (list (string * Z)) :=
  conn ← (connect_to_database conn_info []).1;
  names ← type_and_database conn_info;
  let counts := get_table_row_counts conn names.1 in
  close_connection conn ≫= fun _ => Ok counts.

Definition validate_row_counts (source_conn_info target_conn_info : json)
  : list finding :=
  match (source_counts ← read_counts source_conn_info;
         target_counts ← read_counts target_conn_info;
         Ok (compare_row_counts source_counts target_counts)) with
  | Ok results => results
  | Err e =>
      [Finding "Row Count Validation" Fail (Some (str_exn e))
               (Some "Check database connections and permissions") (7 # 10)]
  end.

(** The loop of [get_table_schemas], as that of the counts. *)
Fixpoint describe_listed (conn : connection) (tables : list string)
    (schemas : list (string * list column)) : list (string * list column) :=
  match tables with
  | [] => schemas
  | table_name :: rest =>
      match describe conn table_name with
      | Ok columns => describe_listed conn rest (Dict.set table_name columns schemas)
      | Err _ => schemas
      end
  end.

Definition get_table_schemas (conn : connection) (db_type : string)
  : list (string * list column) :=
  if bool_decide (db_type = "MySQL") || bool_decide (db_type = "PostgreSQL") then
    match list_tables conn with
    | Ok tables => describe_listed conn tables []
    | Err _ => []
    end
  else [].

(** The loop over the columns of a table: the first difference ends it, and
    its text is what [error_details] holds then. *)
Fixpoint compare_columns (source_schema target_schema : list column)
  : option string :=
  match source_schema with
  | [] => None
  | source_col :: source_rest =>
      match target_schema with
      | [] => Some ("Missing column in target: " +:+ col_name source_col)
      | target_col :: target_rest =>
          if negb (String.eqb (col_name source_col) (col_name target_col)) then
            Some ("Column name mismatch: " +:+ col_name source_col +:+ " vs "
                  +:+ col_name target_col)
          else if negb (Bool.eqb (col_nullable source_col)
                                 (col_nullable target_col)) then
            Some ("Column nullability mismatch: " +:+ col_name source_col
                  +:+ " (nullable=" +:+ str_bool (col_nullable source_col)
                  +:+ ") vs " +:+ col_name target_col
                  +:+ " (nullable=" +:+ str_bool (col_nullable target_col)
                  +:+ ")")
          else if negb (are_equivalent_types (col_type source_col)
                                             (col_type target_col)) then
            Some ("Column type mismatch: " +:+ col_name source_col
                  +:+ " (" +:+ col_type source_col +:+ ") vs "
                  +:+ col_name target_col +:+ " (" +:+ col_type target_col
                  +:+ ")")
          else compare_columns source_rest target_rest
      end
  end.

(** The findings of the comparison for one table. *)
Definition structure_finding (table : string)
    (source_schema target_schema : list column) : list finding :=
  match source_schema, target_schema with
  | [], [] => []
  | _, _ =>
      if negb (length source_schema =? length target_schema)%nat then
        [Finding ("Table Structure - " +:+ table) Fail
           (Some ("Column count mismatch: Source="
                  +:+ str_int (Z.of_nat (length source_schema))
                  +:+ ", Target="
                  +:+ str_int (Z.of_nat (length target_schema))))
           (Some "Check table schema migration") (8 # 10)]
      else
        match compare_columns source_schema target_schema with
        | None =>
            [Finding ("Table Structure - " +:+ table) Pass None None 1]
        | Some error_details =>
            if Py.contains "type mismatch" error_details then
              [Finding ("Table Structure - " +:+ table) Warning
                 (Some error_details)
                 (Some "Data types are equivalent but named differently across database systems")
                 (9 # 10)]
            else
              [Finding ("Table Structure - " +:+ table) Fail
                 (Some error_details)
                 (Some "Review schema translation and migration") (7 # 10)]
        end
  end.

Definition compare_schemas
    (source_schemas target_schemas : list (string * list column)) : list finding :=
  let all_tables : gset string :=
    list_to_set (Dict.keys source_schemas) ∪ list_to_set (Dict.keys target_schemas) in
  elements all_tables ≫= (fun table =>
    structure_finding table (default [] (Dict.get source_schemas table))
                      (default [] (Dict.get target_schemas table))).

Definition read_schemas (conn_info : json) : answer (list (string * list column)) :=
  conn ← (connect_to_database conn_info []).1;
  names ← type_and_database conn_info;
  let schemas := get_table_schemas conn names.1 in
  close_connection conn ≫= fun _ => Ok schemas.

Definition validate_table_structure (source_conn_info target_conn_info : json)
  : list finding :=
  match (source_schemas ← read_schemas source_conn_info;
         target_schemas ← read_schemas target_conn_info;
         Ok (compare_schemas source_schemas target_schemas)) with
  | Ok results => results
  | Err e =>
      [Finding "Table Structure Validation" Fail (Some (str_exn e))
               (Some "Check database connections and permissions") (6 # 10)]
  end.
End Validate.
End Validate.

(** Two schemas with the same columns, by name and nullability, in the same
    order. *)
Definition same_shape (source_schema target_schema : list column) : Prop :=
  Forall2 (fun a b => col_name a = col_name b ∧ col_nullable a = col_nullable b)
    source_schema target_schema.

(** Two schemas whose columns have, one by one, equivalent types. *)
Definition same_types (source_schema target_schema : list column) : Prop :=
  Forall2 (fun a b => are_equivalent_types (col_type a) (col_type b) = true)
    source_schema target_schema.

(** ** Fix suggestions ([suggest_fixes]) *)

Definition fix_entry (category issue solution precautions : string) : json :=
  JDict [("category", JStr category); ("issue", JStr issue);
         ("solution", JStr solution); ("precautions", JStr precautions)].

(** A result with one suggestion. *)
Definition one_fix (entry : json) : json := JDict [("fixes", JList [entry])].

Definition failed_suggestion (e : exn) : json :=
  one_fix (fix_entry "Error" "Failed to generate suggestions"
             ("AI suggestion generation failed: " +:+ str_exn e) "None").

Section Suggestions.
(** The key of the environment, the prompt around the dumped failures, the
    call to the oracle and [json.loads]. *)
Variable api_key : option string.
Variable build_prompt : json -> string.
Variable chat_completion : string -> answer (option string).
Variable json_loads : string -> answer json.

Definition suggest_fixes (validation_failures_json : json) : answer json :=
  if bool_decide (api_key = None ∨ api_key = Some EmptyString) then
    Ok (one_fix (fix_entry "Error" "OpenAI API key not configured"
                   "Please set OPENAI_API_KEY in your environment variables to enable AI features."
                   "None"))
  else
    match chat_completion (build_prompt validation_failures_json) with
    | Ok None =>
        Ok (one_fix (fix_entry "Error" "AI returned empty response"
                       "No suggestions available" "None"))
    | Ok (Some content) =>
        match json_loads content with
        | Ok result => Ok result
        | Err (JSONDecodeError _) =>
            Ok (one_fix (fix_entry "AI Response" content "See issue description"
                           "None"))
        | Err e => Ok (failed_suggestion e)
        end
    | Err e => Ok (failed_suggestion e)
    end.
End Suggestions.

(** ** Schema Extractor: grouping and dependency graph of [extract_mysql_ddl] *)

(** [f(d[k])] stored back under [k], for a key of the dictionary; the update
    in place of the value of a key, as [d[k]["columns"].append(x)] does. *)
Fixpoint adjust {V : Type} (f : V -> V) (k : string) (d : list (string * V))
  : list (string * V) :=
  match d with
  | [] => []
  | (k', v) :: d' =>
      if decide (k = k') then (k', f v) :: d' else (k', v) :: adjust f k d'
  end.

(** A row of the query for the primary keys: table, column, constraint name
    and constraint type. *)
Record key_row : Type := KeyRow {
  row_table : string;
  row_column : string;
  row_constraint : string;
  row_type : string
}.

(** The entry of [pk_dict] for a table. *)
Record pk_info : Type := PkInfo {
  pk_table : string;
  pk_columns : list string;
  pk_constraint_name : string;
  pk_constraint_type : string
}.

(** The body of the grouping loop. *)
Definition group_primary_key (pk_dict : list (string * pk_info)) (row : key_row)
  : list (string * pk_info) :=
  let table_name := row_table row in
  let pk_dict :=
    if Dict.mem table_name pk_dict then pk_dict
    else Dict.set table_name
           (PkInfo table_name [] (row_constraint row) (row_type row)) pk_dict in
  adjust (fun info =>
            PkInfo (pk_table info) (pk_columns info ++ [row_column row])
                   (pk_constraint_name info) (pk_constraint_type info))
    table_name pk_dict.

Definition group_primary_keys (pk_result : list key_row) : list (string * pk_info) :=
  foldl group_primary_key [] pk_result.

Definition backquoted (s : string) : string := "`" +:+ s +:+ "`".

(** The statement generated for a primary key. *)
Definition primary_key_ddl (table_name : string) (info : pk_info) : string :=
  "ALTER TABLE " +:+ backquoted table_name +:+ " ADD CONSTRAINT "
  +:+ backquoted (pk_constraint_name info) +:+ " PRIMARY KEY ("
  +:+ join ", " (backquoted <$> pk_columns info) +:+ ");".

(** A foreign key as the dependency graph reads it; the columns, the name
    and the rules of the source record are not read there. *)
Record relationship : Type := Relationship {
  source_table : string;
  target_table : string
}.

Global Instance relationship_eq_dec : EqDecision relationship.
Proof. solve_decision. Defined.

(** The entry of [dependency_graph["dependencies"]] for a table. *)
Record dependency : Type := Dependency {
  depends_on : list string;
  referenced_by : list string
}.

(** The body of the loop over the relationships. *)
Definition add_relationship (dependencies : list (string * dependency))
    (fk : relationship) : list (string * dependency) :=
  let dependencies :=
    adjust (fun dep => Dependency (depends_on dep ++ [target_table fk])
                                  (referenced_by dep))
      (source_table fk) dependencies in
  adjust (fun dep => Dependency (depends_on dep)
                                (referenced_by dep ++ [source_table fk]))
    (target_table fk) dependencies.

Definition dependency_graph (tables : list string)
    (relationships : list relationship) : list (string * dependency) :=
  foldl add_relationship
    (foldl (fun dependencies table => Dict.set table (Dependency [] []) dependencies)
       [] tables)
    relationships.

(** ** Schema Extractor: the dispatch on the database type
    ([extract_database_ddl]) and the summary of a run *)

Definition empty_lists (keys : list string) : list (string * json) :=
  (fun k => (k, JList [])) <$> keys.

Definition zeros (keys : list string) : list (string * json) :=
  (fun k => (k, JNum 0)) <$> keys.

(** The bundle returned for a database type that is not supported. *)
Definition unsupported_bundle (db_type : string) : json :=
  JDict [
    ("ddl_scripts",
     JDict (empty_lists
              ["tables"; "views"; "indexes"; "constraints"; "sequences";
               "triggers"; "procedures"; "functions"; "materialized_views";
               "types"; "domains"; "roles"; "grants"; "partition_schemes";
               "storage_configs"]));
    ("constraints", JList []);
    ("relationships", JList []);
    ("indexes", JList []);
    ("synonyms", JList []);
    ("jobs", JList []);
    ("data_profile", JDict []);
    ("dependency_graph",
     JDict [("creation_order", JList []); ("deletion_order", JList []);
            ("dependencies", JDict [])]);
    ("type_mappings", JDict []);
    ("security", JList []);
    ("performance", JDict [("table_stats", JList []); ("index_stats", JList [])]);
    ("extraction_report",
     JDict (zeros ["tables"; "views"; "procedures"; "functions"; "triggers";
                   "indexes"; "constraints"; "relationships"; "sequences";
                   "partition_schemes"; "grants"]));
    ("error", JStr ("Database type '" +:+ db_type
                    +:+ "' is not supported. Currently supported: MySQL, PostgreSQL."))
  ].

(** [sum(values)], which adds integers and truth values and raises on
    anything else. *)
Fixpoint sum_values (values : list json) (total : Z) : answer Z :=
  match values with
  | [] => Ok total
  | v :: rest =>
      match v with
      | JNum z => sum_values rest (total + z)
      | JBool b => sum_values rest (total + (if b then 1 else 0))
      | _ => Err (Exception ("unsupported operand type(s) for +: 'int' and '"
                             +:+ class_name v +:+ "'"))
      end
  end.

(** The summary that [run_extraction_task] computes from the report of the
    bundle. *)
Definition results_summary_of (extraction_bundle : json) : answer json :=
  report ← json_item "extraction_report" extraction_bundle;
  match report with
  | JDict d =>
      objects_extracted ← sum_values d.*2 0;
      Ok (JDict [("objects_extracted", JNum objects_extracted);
                 ("tables", default (JNum 0) (Dict.get d "tables"));
                 ("views", default (JNum 0) (Dict.get d "views"));
                 ("procedures", default (JNum 0) (Dict.get d "procedures"))])
  | _ => Err (Exception ("'" +:+ class_name report
                         +:+ "' object has no attribute 'values'"))
  end.

Section ExtractDatabase.
Variable extract_mysql_ddl : json -> answer json.
Variable extract_postgresql_ddl : json -> answer json.
Variable str_json : json -> string.

Definition extract_database_ddl (connection_info : json) : answer json :=
  db_type ← get_or "dbType" (JStr "Unknown") connection_info;
  match db_type with
  | JStr "MySQL" => extract_mysql_ddl connection_info
  | JStr "PostgreSQL" => extract_postgresql_ddl connection_info
  | _ => Ok (unsupported_bundle (str_json db_type))
  end.
End ExtractDatabase.

(** * Properties *)

(** ** Sanity checks of the primitives *)

Example re_findall_fk :
  Re.findall Re.foreign_key_at
    (Py.lower "CREATE TABLE o (a INT, FOREIGN KEY (a) REFERENCES customers(id), FOREIGN KEY (b) REFERENCES  products (id))")
  = ["customers"; "products"].
Proof. reflexivity. Qed.

Example re_search_drop_target :
  Re.search Re.drop_target_at "create table IF NOT EXISTS 'x' (id int)" = Some "x".
Proof. reflexivity. Qed.

Example py_split_example :
  Py.split ";" "a;b;" = ["a"; "b"; EmptyString].
Proof. reflexivity. Qed.

Example sort_tables_demo :
  sort_tables_by_dependencies [ITable orders_demo; ITable customers_demo]
  = Done [customers_demo; orders_demo].
Proof. vm_compute. reflexivity. Qed.

(** ** Dictionaries *)

Section DictFacts.
Context {V : Type}.
Implicit Types (d : list (string * V)) (k : string) (v : V).

Lemma dict_get_Some_keys d k v : Dict.get d k = Some v -> k ∈ Dict.keys d.
Proof.
  induction d as [|[k' v'] d IH]; simpl; [done|].
  case_decide; subst; [set_solver|].
  intros ?%IH. set_solver.
Qed.

Lemma dict_keys_get d k : k ∈ Dict.keys d -> is_Some (Dict.get d k).
Proof.
  induction d as [|[k' v'] d IH]; simpl.
  - by intros ?%elem_of_nil.
  - intros [->|?]%elem_of_cons; case_decide; eauto; done.
Qed.

Lemma dict_mem_keys d k : Dict.mem k d = true <-> k ∈ Dict.keys d.
Proof.
  unfold Dict.mem. rewrite bool_decide_eq_true. split.
  - intros [v ?]. by eapply dict_get_Some_keys.
  - apply dict_keys_get.
Qed.

Lemma dict_set_fresh d k v :
  k ∉ Dict.keys d -> Dict.set k v d = d ++ [(k, v)].
Proof.
  induction d as [|[k' v'] d IH]; simpl; [done|].
  intros Hk. case_decide; [set_solver|].
  rewrite IH; [done|set_solver].
Qed.

Lemma dict_get_elem_of d k v :
  NoDup (Dict.keys d) -> (k, v) ∈ d -> Dict.get d k = Some v.
Proof.
  induction d as [|[k' v'] d IH]; simpl.
  - by intros _ ?%elem_of_nil.
  - intros [Hk Hd]%NoDup_cons [Heq|Hin]%elem_of_cons.
    + simplify_eq. by rewrite decide_True.
    + rewrite decide_False; [by apply IH|].
      intros ->. apply Hk. apply list_elem_of_fmap. by exists (k', v).
Qed.

Lemma dict_get_Some_elem_of d k v : Dict.get d k = Some v -> (k, v) ∈ d.
Proof.
  induction d as [|[k' v'] d IH]; simpl; [done|].
  case_decide; intros; simplify_eq; set_solver.
Qed.
End DictFacts.

(** ** The depth-first visit of [sort_tables_by_dependencies] *)

Lemma size_names_le (l : list string) :
  size (list_to_set l : gset string) <= length l.
Proof.
  induction l as [|x l IH]; simpl.
  - change (size (∅ : gset string) <= 0). by rewrite size_empty.
  - change (size ({[x]} ∪ list_to_set l : gset string) <= S (length l)).
    rewrite size_union_alt, size_singleton.
    assert (size (list_to_set l ∖ {[x]} : gset string) <= size (list_to_set l : gset string)).
    { apply subseteq_size. set_solver. }
    lia.
Qed.

Section SortTablesFacts.
Variable table_map : list (string * table).
Variable table_deps : gmap string (list string).

Local Abbreviation K := (known table_map).
Local Abbreviation E := (edge table_map table_deps).
Local Abbreviation go := (visit table_map table_deps).

Hypothesis names_agree :
  forall k t, Dict.get table_map k = Some t -> name t = k.

Lemma mem_known k : Dict.mem k table_map = true <-> k ∈ K.
Proof. rewrite dict_mem_keys. unfold known. set_solver. Qed.

Lemma pending_enter n st :
  n ∈ K -> n ∉ visited st -> n ∉ temp_visited st ->
  pending table_map (DfsState (visited st) ({[n]} ∪ temp_visited st) (sorted_tables st))
  < pending table_map st.
Proof.
  intros. unfold pending. simpl. apply subset_size. set_solver.
Qed.

Lemma pending_mono st st' :
  visited st ⊆ visited st' -> temp_visited st' = temp_visited st ->
  pending table_map st' <= pending table_map st.
Proof.
  intros ? Ht. unfold pending. rewrite Ht. apply subseteq_size. set_solver.
Qed.

Lemma deps_first_snoc l t :
  deps_first table_map table_deps l ->
  (forall d, E (name t) d -> d ∈ name <$> l) ->
  deps_first table_map table_deps (l ++ [t]).
Proof.
  intros Hl Ht l1 t' l2 Heq d Hd.
  destruct l2 as [|x l2 _] using rev_ind.
  - apply app_inj_tail in Heq as [-> ->]. by apply Ht.
  - rewrite app_comm_cons, app_assoc in Heq.
    apply app_inj_tail in Heq as [-> _]. by eapply Hl.
Qed.

Lemma visit_deps_ok fuel :
  (forall n st, n ∈ K -> pending table_map st < fuel ->
     exists st', go fuel n st = Done st' ∧ visit_post table_map table_deps n st st') ->
  forall ds st, pending table_map st < fuel ->
  exists st',
    for_each ds
      (fun dep s => if Dict.mem dep table_map then go fuel dep s else Done s) st
    = Done st' ∧ loop_post table_map table_deps ds st st'.
Proof.
  intros IH ds. induction ds as [|d ds IHds]; intros st Hfuel; simpl.
  - exists st. split; [done|]. unfold loop_post. set_solver.
  - destruct (Dict.mem d table_map) eqn:Hmem.
    + apply mem_known in Hmem.
      destruct (IH d st Hmem Hfuel) as (st1 & -> & Ht1 & Hv1 & Hd1 & Hi1 & Hf1).
      simpl.
      destruct (IHds st1) as (st2 & -> & Ht2 & Hv2 & Hd2 & Hi2 & Hf2).
      { pose proof (pending_mono st st1 Hv1 Ht1). lia. }
      exists st2. split; [done|]. split_and!.
      * congruence.
      * set_solver.
      * intros d' [->|Hin]%elem_of_cons Hk.
        -- destruct Hd1; [by left|right; set_solver].
        -- rewrite <- Ht1. by apply Hd2.
      * auto.
      * intros Hac Hstack Hinv Hfirst.
        apply Hf2; auto.
        -- intros d' a Hd' Hk Ha. rewrite Ht1 in Ha.
           apply Hstack; auto. set_solver.
        -- apply Hf1; auto. intros a Ha. apply Hstack; auto. set_solver.
    + simpl.
      destruct (IHds st Hfuel) as (st2 & -> & Ht2 & Hv2 & Hd2 & Hi2 & Hf2).
      exists st2. split; [done|]. split_and!; auto.
      * intros d' [->|Hin]%elem_of_cons Hk; [|by apply Hd2].
        apply mem_known in Hk. congruence.
      * intros Hac Hstack Hinv Hfirst. apply Hf2; auto.
        intros d' a Hd' Hk Ha. apply Hstack; auto. set_solver.
Qed.

Lemma visit_ok fuel :
  forall n st, n ∈ K -> pending table_map st < fuel ->
  exists st', go fuel n st = Done st' ∧ visit_post table_map table_deps n st st'.
Proof.
  induction fuel as [|fuel IH]; intros n st Hn Hfuel; [lia|].
  simpl. destruct (decide (n ∈ temp_visited st)) as [Htemp|Htemp].
  { exists st. split; [done|]. unfold visit_post. split_and!; auto. }
  destruct (decide (n ∈ visited st)) as [Hvis|Hvis].
  { exists st. split; [done|]. unfold visit_post. split_and!; auto. }
  set (st1 := DfsState (visited st) ({[n]} ∪ temp_visited st) (sorted_tables st)).
  destruct (visit_deps_ok fuel IH (default [] (table_deps !! n)) st1)
    as (st2 & -> & Ht2 & Hv2 & Hd2 & Hi2 & Hf2).
  { pose proof (pending_enter n st Hn Hvis Htemp). fold st1 in H. lia. }
  simpl in *. unfold set_remove.
  rewrite decide_True by (rewrite Ht2; set_solver). simpl.
  assert (is_Some (Dict.get table_map n)) as [t Ht].
  { apply dict_keys_get. apply mem_known in Hn. by apply dict_mem_keys. }
  unfold Dict.item. rewrite Ht. simpl.
  pose proof (names_agree _ _ Ht) as Hname.
  assert (Hinv1 : dfs_inv table_map st -> dfs_inv table_map st1).
  { intros (? & ? & ? & ?). split_and!; auto. simpl. set_solver. }
  eexists. split; [done|]. unfold visit_post. simpl. split_and!.
  - rewrite Ht2. set_solver.
  - set_solver.
  - right. set_solver.
  - intros Hinv. destruct (Hi2 (Hinv1 Hinv)) as (Hnd & Hiff & Hall & Hdisj).
    assert (n ∉ visited st2) by (rewrite Ht2 in Hdisj; set_solver).
    split_and!; simpl.
    + rewrite fmap_app. simpl. apply NoDup_app. split_and!; [done| |apply NoDup_singleton].
      intros k Hk ->%list_elem_of_singleton. rewrite Hname in Hk.
      by apply Hiff in Hk.
    + intros k. rewrite fmap_app, elem_of_app. simpl.
      rewrite list_elem_of_singleton, Hiff, Hname. set_solver.
    + apply Forall_app. split; [done|]. apply Forall_singleton. by rewrite Hname.
    + rewrite Ht2 in Hdisj |- *. set_solver.
  - intros Hac Hstack Hinv Hfirst.
    destruct (Hi2 (Hinv1 Hinv)) as (Hnd & Hiff & Hall & Hdisj).
    apply deps_first_snoc.
    + apply Hf2; auto.
      intros d a Hd Hk [->%elem_of_singleton|Ha]%elem_of_union.
      * apply tc_once. by split.
      * eapply tc_r; [by apply Hstack|]. by split.
    + rewrite Hname. intros d [Hd Hk].
      apply Hiff. destruct (Hd2 d Hd Hk) as [[->%elem_of_singleton|Ha]%elem_of_union|Hv]; [| |done].
      * exfalso. apply (Hac n). apply tc_once. by split.
      * exfalso. apply (Hac d). eapply tc_r; [by apply Hstack|]. by split.
Qed.

Lemma dfs_inv_visited_known st k :
  dfs_inv table_map st -> k ∈ visited st -> k ∈ K.
Proof.
  intros (_ & Hiff & Hall & _) Hk. apply Hiff in Hk.
  apply list_elem_of_fmap in Hk as (t & -> & Ht).
  rewrite Forall_forall in Hall. apply mem_known, dict_mem_keys.
  eapply dict_get_Some_keys. by apply Hall.
Qed.

Lemma pending_bound st : pending table_map st <= length table_map.
Proof.
  unfold pending, known. etrans; [apply subseteq_size|].
  { apply subseteq_difference_l. reflexivity. }
  etrans; [apply size_names_le|]. unfold Dict.keys. by rewrite length_fmap.
Qed.

Lemma visit_each_ok fuel ks st :
  length table_map < fuel ->
  (forall k, k ∈ ks -> k ∈ K) ->
  temp_visited st = ∅ -> dfs_inv table_map st ->
  exists st',
    for_each ks
      (fun table_name s =>
         if decide (table_name ∈ visited s) then Done s else go fuel table_name s)
      st = Done st'
    ∧ temp_visited st' = ∅
    ∧ dfs_inv table_map st'
    ∧ (forall k, k ∈ visited st ∨ k ∈ ks -> k ∈ visited st')
    ∧ (acyclic table_map table_deps ->
       deps_first table_map table_deps (sorted_tables st) ->
       deps_first table_map table_deps (sorted_tables st')).
Proof.
  intros Hfuel. revert st.
  induction ks as [|k ks IH]; intros st Hks Htemp Hinv; simpl.
  - exists st. split_and!; auto. intros k [?|?%elem_of_nil]; done.
  - destruct (decide (k ∈ visited st)) as [Hk|Hk]; simpl.
    + destruct (IH st) as (st' & -> & ? & ? & Hv & ?); auto.
      { intros. apply Hks. set_solver. }
      exists st'. split_and!; auto.
      intros k' [?|[->|?]%elem_of_cons]; apply Hv; auto.
    + destruct (visit_ok fuel k st) as (st1 & -> & Ht1 & Hv1 & Hd1 & Hi1 & Hf1).
      { apply Hks. set_solver. }
      { pose proof (pending_bound st). lia. }
      simpl.
      destruct (IH st1) as (st' & -> & ? & ? & Hv & Hf); auto.
      { intros. apply Hks. set_solver. }
      { congruence. }
      exists st'. split_and!; auto.
      * intros k' [?|[->|?]%elem_of_cons]; apply Hv; auto.
        left. destruct Hd1 as [Hd1|Hd1]; [|done]. rewrite Htemp in Hd1. set_solver.
      * intros Hac Hfirst. apply Hf; auto. apply Hf1; auto.
        intros a Ha. rewrite Htemp in Ha. set_solver.
Qed.

(** The whole traversal returns, has every name of [table_map] exactly once
    in its result, and respects the references when these have no cycle. *)
Lemma visit_all_ok :
  exists st,
    visit_all table_map table_deps (S (length table_map)) = Done st
    ∧ NoDup (name <$> sorted_tables st)
    ∧ (forall k, k ∈ name <$> sorted_tables st <-> k ∈ Dict.keys table_map)
    ∧ Forall (fun t => Dict.get table_map (name t) = Some t) (sorted_tables st)
    ∧ (acyclic table_map table_deps ->
       deps_first table_map table_deps (sorted_tables st)).
Proof.
  unfold visit_all.
  destruct (visit_each_ok (S (length table_map)) (Dict.keys table_map)
              (DfsState ∅ ∅ [])) as (st & Hrun & _ & Hinv & Hv & Hf).
  - lia.
  - intros k ?. unfold known. set_solver.
  - done.
  - split_and!; simpl; [constructor|set_solver|constructor|set_solver].
  - exists st. split; [done|].
    pose proof Hinv as (Hnd & Hiff & Hall & _). split_and!; auto.
    + intros k. rewrite Hiff. split.
      * intros Hk. pose proof (dfs_inv_visited_known st k Hinv Hk) as HK.
        unfold known in HK. set_solver.
      * intros Hk. apply Hv. by right.
    + intros Hac. apply Hf; auto. intros l1 t l2 Heq. by destruct l1.
Qed.
End SortTablesFacts.

(** ** The index built by the first loop *)

Lemma records_app l1 l2 : records (l1 ++ l2) = records l1 ++ records l2.
Proof. unfold records. apply omap_app. Qed.

Lemma index_tables_snoc l x :
  index_tables (l ++ [x]) = index_table (index_tables l) x.
Proof. unfold index_tables. by rewrite foldl_app. Qed.

Lemma index_tables_distinct tables :
  NoDup (name <$> records tables) ->
  (index_tables tables).1 = (fun t => (name t, t)) <$> records tables
  ∧ (forall t, t ∈ records tables ->
       (index_tables tables).2 !! name t = Some (fk_matches (ddl t)))
  ∧ (forall n ds, (index_tables tables).2 !! n = Some ds ->
       exists t, t ∈ records tables ∧ name t = n ∧ ds = fk_matches (ddl t)).
Proof.
  induction tables as [|x l IH] using rev_ind.
  - intros _. split_and!; [done| |].
    + intros t ?%elem_of_nil. done.
    + intros n ds. unfold index_tables. simpl. by rewrite lookup_empty.
  - rewrite records_app, index_tables_snoc. destruct x as [t|]; simpl.
    + rewrite fmap_app. simpl. intros [Hnd [Hfresh _]]%NoDup_app.
      destruct (IH Hnd) as (Hmap & Hdeps & Hdom).
      assert (Hnew : name t ∉ name <$> records l).
      { intros Hin. eapply Hfresh; [done|]. by apply list_elem_of_singleton. }
      split_and!.
      * rewrite Hmap, dict_set_fresh, fmap_app; [done|].
        unfold Dict.keys. by rewrite <- list_fmap_compose.
      * intros t' [Hin| ->%list_elem_of_singleton]%elem_of_app.
        -- rewrite lookup_insert_ne; [by apply Hdeps|].
           intros Heq. apply Hnew. rewrite Heq. by apply list_elem_of_fmap_2.
        -- by rewrite lookup_insert_eq.
      * intros n ds. destruct (decide (name t = n)) as [<-|Hne].
        -- rewrite lookup_insert_eq. intros [= <-]. exists t. set_solver.
        -- rewrite lookup_insert_ne by done. intros (t' & ? & ? & ?)%Hdom.
           exists t'. set_solver.
    + rewrite app_nil_r. intros Hnd. apply IH, Hnd.
Qed.

Lemma name_inj_on (ts : list table) t1 t2 :
  NoDup (name <$> ts) -> t1 ∈ ts -> t2 ∈ ts -> name t1 = name t2 -> t1 = t2.
Proof.
  induction ts as [|t ts IH]; simpl.
  - by intros _ ?%elem_of_nil.
  - intros [Hnew Hnd]%NoDup_cons [->|H1]%elem_of_cons [->|H2]%elem_of_cons Heq;
      auto.
    + exfalso. apply Hnew. rewrite Heq. by apply list_elem_of_fmap_2.
    + exfalso. apply Hnew. rewrite <- Heq. by apply list_elem_of_fmap_2.
Qed.

(** The sequencer on an input set with distinct names: it returns, its result
    is a rearrangement of the table records, and the result respects the
    references when these have no cycle. *)
Lemma sort_tables_distinct tables :
  NoDup (name <$> records tables) ->
  exists out,
    sort_tables_by_dependencies tables = Done out
    ∧ out ≡ₚ records tables
    ∧ (acyclic_refs (records tables) -> referenced_first (records tables) out).
Proof.
  intros Hnd. unfold sort_tables_by_dependencies.
  destruct (index_tables_distinct tables Hnd) as (Hmap & Hdeps & Hdom).
  destruct (index_tables tables) as [table_map table_deps]. simpl in *.
  assert (Hkeys : Dict.keys table_map = name <$> records tables).
  { rewrite Hmap. unfold Dict.keys. by rewrite <- list_fmap_compose. }
  assert (Hget : forall k t, Dict.get table_map k = Some t ->
                 t ∈ records tables ∧ name t = k).
  { intros k t Hk%dict_get_Some_elem_of. rewrite Hmap in Hk.
    apply list_elem_of_fmap in Hk as (t' & [= -> ->] & ?). done. }
  destruct (visit_all_ok table_map table_deps) as (st & -> & Hnd' & Hiff & Hall & Hf).
  { intros k t Hk. by apply Hget in Hk as [_ ?]. }
  simpl. exists (sorted_tables st). split; [done|].
  rewrite Forall_forall in Hall.
  assert (Hsub : forall t, t ∈ sorted_tables st -> t ∈ records tables).
  { intros t Ht. by apply Hall, Hget in Ht as [? _]. }
  split.
  - apply NoDup_Permutation.
    + by eapply NoDup_fmap_1.
    + by eapply NoDup_fmap_1.
    + intros t. split; [apply Hsub|]. intros Ht.
      assert (name t ∈ name <$> sorted_tables st) as (t' & Heq & Ht')%list_elem_of_fmap.
      { apply Hiff. rewrite Hkeys. by apply list_elem_of_fmap_2. }
      by rewrite (name_inj_on (records tables) t t' Hnd Ht (Hsub _ Ht') Heq).
  - intros Hac. 
    assert (Hedge : forall n d, edge table_map table_deps n d ->
                    refers (records tables) n d).
    { intros n d [Hd Hk]. unfold deps_of in Hd.
      destruct (table_deps !! n) as [ds|] eqn:Hn; simpl in Hd; [|by apply elem_of_nil in Hd].
      apply Hdom in Hn as (t & ? & ? & ->). exists t. split_and!; auto.
      unfold known in Hk. rewrite Hkeys in Hk. set_solver. }
    assert (Hacyc : acyclic table_map table_deps).
    { intros n Hn. apply (Hac n). eapply tc_congruence with (f := id); [|exact Hn].
      intros ???. by apply Hedge. }
    intros l1 t l2 Heq d Hd Hin.
    eapply (Hf Hacyc); [done|]. split.
    + unfold deps_of. rewrite Hdeps; [done|]. apply Hsub. rewrite Heq. set_solver.
    + unfold known. rewrite Hkeys. set_solver.
Qed.

Example sort_ddl_demo :
  sort_ddl_statements_by_dependencies
    ["CREATE INDEX i ON orders(customer_id)"; orders_stmt; customers_stmt]
  = Done [customers_stmt; orders_stmt; "CREATE INDEX i ON orders(customer_id)"].
Proof. vm_compute. reflexivity. Qed.

(** ** The depth-first visit of [sort_ddl_statements_by_dependencies] *)

Section SortStatementsFacts.
Variable table_statements : list Info.table_info.

Local Abbreviation Kd := (known_tables table_statements).
Local Abbreviation D := (depends table_statements).
Local Abbreviation R := (reaches table_statements).
Local Abbreviation left_over := (ddl_pending table_statements).
Local Abbreviation go_table := (visit_table table_statements).

Lemma known_tables_elem d :
  d ∈ Kd <-> exists o, o ∈ table_statements ∧ Info.name o = d.
Proof.
  unfold known_tables. rewrite elem_of_list_to_set, list_elem_of_fmap.
  naive_solver.
Qed.

Lemma reaches_pending P st st' : R P st st' -> left_over st' <= left_over st.
Proof.
  intros (Ht & Hv & _). unfold ddl_pending. rewrite Ht.
  apply subseteq_size. set_solver.
Qed.

Lemma reaches_refl (P : string -> Prop) st :
  (forall d, P d -> d ∈ ddl_temp_visited st ∨ d ∈ ddl_visited st) -> R P st st.
Proof.
  intros HP. split_and!; auto.
  intros infos Hem. exists []. rewrite app_nil_r. auto.
Qed.

Lemma reaches_trans (P1 P2 P : string -> Prop) st st1 st2 :
  (forall d, P d -> P1 d ∨ P2 d) ->
  (forall d, P1 d -> P d) -> (forall d, P2 d -> P d) ->
  R P1 st st1 -> R P2 st1 st2 -> R P st st2.
Proof.
  intros Hsplit H1 H2 (Ht1 & Hv1 & Hd1 & He1) (Ht2 & Hv2 & Hd2 & He2).
  split_and!.
  - congruence.
  - set_solver.
  - intros d [Hd|Hd]%Hsplit.
    + destruct (Hd1 d Hd); [by left|right; set_solver].
    + rewrite <- Ht1. by apply Hd2.
  - intros infos Hem.
    destruct (He1 infos Hem) as (ext1 & Hem1 & Hc1).
    destruct (He2 _ Hem1) as (ext2 & Hem2 & Hc2).
    exists (ext1 ++ ext2). rewrite app_assoc. split; [done|].
    intros Hac Hstack Hfirst. apply Hc2; auto.
    intros d a Hd Ha. rewrite Ht1 in Ha. auto.
Qed.

Lemma for_each_reaches {A : Type} fuel (xs : list A)
    (body : A -> ddl_state -> outcome ddl_state) (Q : A -> string -> Prop) :
  (forall x s, x ∈ xs -> left_over s < fuel ->
     exists s', body x s = Done s' ∧ R (Q x) s s') ->
  forall s, left_over s < fuel ->
  exists s', for_each xs body s = Done s'
             ∧ R (fun d => exists x, x ∈ xs ∧ Q x d) s s'.
Proof.
  induction xs as [|x xs IH]; intros Hbody s Hfuel; simpl.
  - exists s. split; [done|]. apply reaches_refl.
    intros d (x & ?%elem_of_nil & _). done.
  - destruct (Hbody x s) as (s1 & -> & Hr1); [set_solver|done|]. simpl.
    destruct (IH (fun y t Hy => Hbody y t (list_elem_of_further _ _ _ Hy)) s1)
      as (s2 & -> & Hr2).
    { pose proof (reaches_pending _ _ _ Hr1). lia. }
    exists s2. split; [done|].
    eapply reaches_trans; [| | |exact Hr1|exact Hr2]; simpl.
    + intros d (y & [->|Hy]%elem_of_cons & HQ); [by left|right; eauto].
    + intros d HQ. exists x. set_solver.
    + intros d (y & Hy & HQ). exists y. set_solver.
Qed.

Lemma created_first_snoc infos ti :
  created_first table_statements infos ->
  (forall d, d ∈ Info.deps ti -> d ∈ Kd -> d ∈ Info.name <$> infos) ->
  created_first table_statements (infos ++ [ti]).
Proof.
  intros Hl Ht l1 t' l2 Heq d Hd Hk.
  destruct l2 as [|x l2 _] using rev_ind.
  - apply app_inj_tail in Heq as [-> ->]. by apply Ht.
  - rewrite app_comm_cons, app_assoc in Heq.
    apply app_inj_tail in Heq as [-> _]. by eapply Hl.
Qed.

Lemma visit_table_ok fuel :
  forall ti st, ti ∈ table_statements -> left_over st < fuel ->
  exists st', go_table fuel ti st = Done st'
              ∧ R (fun d => d = Info.name ti) st st'.
Proof.
  induction fuel as [|fuel IH]; intros ti st Hti Hfuel; [lia|].
  simpl. set (n := Info.name ti).
  destruct (decide (n ∈ ddl_temp_visited st)) as [Htemp|Htemp].
  { exists st. split; [done|]. apply reaches_refl. intros d ->. by left. }
  destruct (decide (n ∈ ddl_visited st)) as [Hvis|Hvis].
  { exists st. split; [done|]. apply reaches_refl. intros d ->. by right. }
  set (st1 := DdlState (ddl_visited st) ({[n]} ∪ ddl_temp_visited st)
                       (sorted_table_statements st)).
  assert (Hn : n ∈ Kd) by (apply known_tables_elem; eauto).
  assert (Hfuel1 : left_over st1 < fuel).
  { assert (left_over st1 < left_over st); [|lia].
    unfold ddl_pending. simpl. apply subset_size. set_solver. }
  destruct (for_each_reaches fuel (Info.deps ti)
              (fun dep s =>
                 for_each table_statements
                   (fun other_table s' =>
                      if decide (Info.name other_table = dep)
                      then go_table fuel other_table s' else Done s') s)
              (fun dep d => d = dep ∧ d ∈ Kd)) with (s := st1)
    as (st2 & -> & Ht2 & Hv2 & Hd2 & He2); [|done|].
  { intros dep s _ Hs.
    destruct (for_each_reaches fuel table_statements
                (fun other_table s' =>
                   if decide (Info.name other_table = dep)
                   then go_table fuel other_table s' else Done s')
                (fun other d => Info.name other = dep ∧ d = dep)) with (s := s)
      as (s' & -> & Hr); [|done|].
    - intros o s0 Ho Hs0. destruct (decide (Info.name o = dep)) as [Heq|Hne].
      + destruct (IH o s0 Ho Hs0) as (s1 & -> & Hr). exists s1. split; [done|].
        eapply reaches_trans with (P1 := fun d => d = Info.name o)
                                  (P2 := fun _ => False);
          [| | |exact Hr|apply reaches_refl]; naive_solver.
      + exists s0. split; [done|]. apply reaches_refl. naive_solver.
    - exists s'. split; [done|].
      eapply reaches_trans with (P2 := fun _ => False);
        [| | |exact Hr|apply reaches_refl]; simpl.
      + intros d [-> Hk]. apply known_tables_elem in Hk as (o & ? & ?).
        left. eauto.
      + intros d (o & ? & ? & ->). split; [done|]. apply known_tables_elem. eauto.
      + done.
      + done. }
  simpl in *. unfold set_remove.
  rewrite decide_True by (rewrite Ht2; set_solver). simpl.
  eexists. split; [done|]. split_and!; simpl.
  - rewrite Ht2. set_solver.
  - set_solver.
  - intros d ->. right. set_solver.
  - intros infos (Hs & Hnd & Hiff & Hall & Hdisj).
    destruct (He2 infos) as (ext & (Hs2 & Hnd2 & Hiff2 & Hall2 & Hdisj2) & Hc).
    { split_and!; auto. simpl. set_solver. }
    assert (n ∉ ddl_visited st2) by (rewrite Ht2 in Hdisj2; set_solver).
    exists (ext ++ [ti]). rewrite app_assoc. split.
    + split_and!; simpl.
      * rewrite Hs2. by rewrite (fmap_app _ (infos ++ ext) [ti]).
      * rewrite (fmap_app _ (infos ++ ext) [ti]). simpl. apply NoDup_app.
        split_and!; [done| |apply NoDup_singleton].
        intros k Hk ->%list_elem_of_singleton. by apply Hiff2 in Hk.
      * intros k. rewrite (fmap_app _ (infos ++ ext) [ti]), elem_of_app. simpl.
        rewrite list_elem_of_singleton, Hiff2. fold n. set_solver.
      * apply Forall_app. split; [done|]. by apply Forall_singleton.
      * rewrite Ht2 in Hdisj2 |- *. set_solver.
    + intros Hac Hstack Hfirst.
      assert (Hdep : forall d, d ∈ Info.deps ti -> d ∈ Kd -> D n d).
      { intros d ??. exists ti. by split_and!. }
      apply created_first_snoc.
      * apply Hc; auto.
        intros d a (dep & Hdep' & -> & Hk) [->%elem_of_singleton|Ha]%elem_of_union.
        -- apply tc_once. by apply Hdep.
        -- eapply tc_r; [by apply Hstack|]. by apply Hdep.
      * intros d Hd Hk. apply Hiff2.
        destruct (Hd2 d) as [[->%elem_of_singleton|Ha]%elem_of_union|Hv]; [by eauto| | |done].
        -- exfalso. apply (Hac n). apply tc_once. by apply Hdep.
        -- exfalso. apply (Hac d). eapply tc_r; [by apply Hstack|]. by apply Hdep.
Qed.

Lemma ddl_pending_bound st : left_over st <= length table_statements.
Proof.
  unfold ddl_pending, known_tables. etrans; [apply subseteq_size|].
  { apply subseteq_difference_l. reflexivity. }
  etrans; [apply size_names_le|]. by rewrite length_fmap.
Qed.

(** The whole traversal returns; the statements it emits belong to table
    statements of the input, one for each table name, and respect the
    references when these have no cycle. *)
Lemma visit_tables_ok :
  exists st infos,
    visit_tables table_statements (S (length table_statements)) = Done st
    ∧ sorted_table_statements st = Info.ddl <$> infos
    ∧ NoDup (Info.name <$> infos)
    ∧ (forall k, k ∈ Info.name <$> infos <-> k ∈ Info.name <$> table_statements)
    ∧ Forall (fun ti => ti ∈ table_statements) infos
    ∧ (acyclic_deps table_statements -> created_first table_statements infos).
Proof.
  unfold visit_tables.
  destruct (for_each_reaches (S (length table_statements)) table_statements
              (fun table_info s =>
                 if decide (Info.name table_info ∈ ddl_visited s) then Done s
                 else go_table (S (length table_statements)) table_info s)
              (fun ti d => d = Info.name ti)) with (s := DdlState ∅ ∅ [])
    as (st & Hrun & Ht & Hv & Hd & He).
  - intros ti s Hti Hs. case_decide.
    + exists s. split; [done|]. apply reaches_refl. intros d ->. by right.
    + by apply visit_table_ok.
  - pose proof (ddl_pending_bound (DdlState ∅ ∅ [])). lia.
  - destruct (He []) as (infos & (Hs & Hnd & Hiff & Hall & _) & Hc).
    { split_and!; simpl; [done|constructor|set_solver|constructor|set_solver]. }
    simpl in *. exists st, infos. split_and!; auto.
    + intros k. rewrite Hiff. split.
      * intros Hk%Hiff. apply list_elem_of_fmap in Hk as (ti & -> & Hti).
        rewrite Forall_forall in Hall. apply list_elem_of_fmap_2. by apply Hall.
      * intros (ti & -> & Hti)%list_elem_of_fmap.
        destruct (Hd (Info.name ti)) as [?|?]; [by eauto|set_solver|done].
    + intros Hac. apply Hc; auto.
      * intros d a _ Ha. set_solver.
      * intros l1 ti l2 Heq. by destruct l1.
Qed.
End SortStatementsFacts.

(** ** The classification of the statements *)

Lemma parse_statement_ddl s ti : parse_statement s = Some ti -> Info.ddl ti = s.
Proof.
  unfold parse_statement. intros H.
  destruct (Py.startswith _ _); [|done].
  destruct (Re.search _ _); by simplify_eq.
Qed.

Lemma classify_statements_spec (stmts : list string) :
  classify_statements stmts = (omap parse_statement stmts, other_stmts stmts).
Proof.
  unfold classify_statements, other_stmts.
  induction stmts as [|s l IH] using rev_ind; [done|].
  rewrite foldl_app, IH, omap_app, filter_app. csimpl.
  unfold classify_statement. csimpl.
  destruct (parse_statement s) as [ti|] eqn:Hs; csimpl.
  - rewrite filter_cons_False by (rewrite Hs; done). by rewrite filter_nil, app_nil_r.
  - rewrite filter_cons_True by done. by rewrite filter_nil, app_nil_r.
Qed.

Lemma table_stmts_spec (stmts : list string) :
  table_stmts stmts = Info.ddl <$> omap parse_statement stmts.
Proof.
  unfold table_stmts. induction stmts as [|s l IH]; [done|]. csimpl.
  destruct (parse_statement s) as [ti|] eqn:Hs; csimpl.
  - rewrite filter_cons_True by (rewrite Hs; eauto).
    by rewrite IH, (parse_statement_ddl _ _ Hs).
  - rewrite filter_cons_False; [done|]. rewrite Hs. by intros [? ?].
Qed.

Lemma omap_creates (stmts : list string) :
  omap creates stmts = Info.name <$> omap parse_statement stmts.
Proof.
  unfold creates. symmetry. apply list_fmap_omap.
Qed.

Lemma parsed_elem_of (stmts : list string) ti :
  ti ∈ omap parse_statement stmts ->
  Info.ddl ti ∈ stmts ∧ parse_statement (Info.ddl ti) = Some ti.
Proof.
  intros (s & Hs & Hp)%list_elem_of_omap.
  by rewrite (parse_statement_ddl _ _ Hp).
Qed.

Lemma created_in_known (stmts : list string) d :
  created_in stmts d <-> d ∈ known_tables (omap parse_statement stmts).
Proof.
  rewrite known_tables_elem. unfold created_in, creates. split.
  - intros (s & Hs & Hc). destruct (parse_statement s) as [ti|] eqn:Hp; [|done].
    exists ti. split; [|by simplify_eq/=]. apply list_elem_of_omap. eauto.
  - intros (ti & (? & Hp)%parsed_elem_of & <-). exists (Info.ddl ti).
    by rewrite Hp.
Qed.

Lemma info_name_inj_on (ts : list Info.table_info) t1 t2 :
  NoDup (Info.name <$> ts) -> t1 ∈ ts -> t2 ∈ ts ->
  Info.name t1 = Info.name t2 -> t1 = t2.
Proof.
  induction ts as [|t ts IH]; simpl.
  - by intros _ ?%elem_of_nil.
  - intros [Hnew Hnd]%NoDup_cons [->|H1]%elem_of_cons [->|H2]%elem_of_cons Heq;
      auto.
    + exfalso. apply Hnew. rewrite Heq. by apply list_elem_of_fmap_2.
    + exfalso. apply Hnew. rewrite <- Heq. by apply list_elem_of_fmap_2.
Qed.

(** The statement sequencer: it returns the table statements it emits
    followed by the other statements in their order; one statement is
    emitted for each table name; the references are respected when they have
    no cycle; and when no table is created twice the emitted statements are a
    rearrangement of the table statements. *)
Lemma sort_statements_ok (stmts : list string) :
  exists tables_out,
    sort_ddl_statements_by_dependencies stmts
    = Done (tables_out ++ other_stmts stmts)
    ∧ Forall (fun s => s ∈ table_stmts stmts) tables_out
    ∧ NoDup (omap creates tables_out)
    ∧ (forall d, created_in tables_out d <-> created_in stmts d)
    ∧ (acyclic_stmts stmts ->
       created_before stmts (tables_out ++ other_stmts stmts))
    ∧ (NoDup (omap creates stmts) -> tables_out ≡ₚ table_stmts stmts).
Proof.
  unfold sort_ddl_statements_by_dependencies.
  rewrite classify_statements_spec.
  set (ts := omap parse_statement stmts).
  destruct (visit_tables_ok ts) as (st & infos & -> & Hs & Hnd & Hiff & Hall & Hf).
  simpl. rewrite Hs. rewrite Forall_forall in Hall.
  assert (Hparse : forall ti, ti ∈ infos ->
            Info.ddl ti ∈ stmts ∧ parse_statement (Info.ddl ti) = Some ti).
  { intros ti Hti. by apply parsed_elem_of, Hall. }
  assert (Hnames : forall l : list Info.table_info,
            (forall ti, ti ∈ l -> ti ∈ infos) ->
            omap creates (Info.ddl <$> l) = Info.name <$> l).
  { induction l as [|ti l IH]; intros Hl; [done|]. csimpl. unfold creates at 1.
    destruct (Hparse ti) as [_ ->]; [set_solver|]. csimpl.
    rewrite IH; [done|]. set_solver. }
  assert (Hcr : forall (l : list Info.table_info) d,
            (forall ti, ti ∈ l -> ti ∈ infos) ->
            created_in (Info.ddl <$> l) d <-> d ∈ Info.name <$> l).
  { intros l d Hl. unfold created_in. rewrite list_elem_of_fmap. split.
    - intros (s & (ti & -> & Hti)%list_elem_of_fmap & Hc). exists ti.
      unfold creates in Hc. destruct (Hparse ti) as [_ Hp]; [by apply Hl|].
      rewrite Hp in Hc. by simplify_eq/=.
    - intros (ti & -> & Hti). exists (Info.ddl ti). split.
      + by apply list_elem_of_fmap_2.
      + unfold creates. destruct (Hparse ti) as [_ ->]; [by apply Hl|]. done. }
  exists (Info.ddl <$> infos). split_and!.
  - done.
  - apply Forall_forall. intros s (ti & -> & Hti)%list_elem_of_fmap.
    rewrite table_stmts_spec. apply list_elem_of_fmap_2. by apply Hall.
  - by rewrite Hnames.
  - intros d. rewrite Hcr by done. rewrite Hiff, created_in_known.
    unfold known_tables. by rewrite elem_of_list_to_set.
  - intros Hac.
    assert (Hacyc : acyclic_deps ts).
    { intros n Hn. apply (Hac n). eapply tc_congruence with (f := id); [|exact Hn].
      intros a b (ti & (? & Hp)%parsed_elem_of & <- & Hd & Hk). simpl.
      exists (Info.ddl ti). unfold creates, references_of. rewrite Hp.
      split_and!; auto. by apply created_in_known. }
    specialize (Hf Hacyc).
    intros l1 s l2 Heq d Hd Hin.
    assert (Hs' : is_Some (parse_statement s)).
    { unfold references_of in Hd. destruct (parse_statement s); [eauto|].
      by apply elem_of_nil in Hd. }
    assert (Hother : s ∉ other_stmts stmts).
    { intros [Ho _]%list_elem_of_filter. rewrite Ho in Hs'. by destruct Hs'. }
    apply app_eq_app in Heq as [l [[Hl1 Hl2]|[Hl1 Hl2]]].
    + destruct l as [|x l]; simpl in *.
      * exfalso. apply Hother. rewrite <- Hl2. set_solver.
      * simplify_eq.
        apply fmap_app_inv in Hl1 as (i1 & i2 & -> & Hi2 & ->).
        symmetry in Hi2. apply fmap_cons_inv in Hi2 as (ti & i3 & -> & -> & ->).
        apply Hcr; [set_solver|].
        eapply Hf; [done| |by apply created_in_known].
        unfold references_of in Hd.
        destruct (Hparse ti) as [_ Hp]; [set_solver|]. by rewrite Hp in Hd.
    + (* the statement is among the other statements: it references nothing *)
      exfalso. apply Hother. rewrite Hl2. set_solver.
  - intros Hdistinct. rewrite table_stmts_spec. apply fmap_Permutation.
    rewrite omap_creates in Hdistinct. fold ts in Hdistinct.
    apply NoDup_Permutation.
    + by eapply NoDup_fmap_1.
    + by eapply NoDup_fmap_1.
    + intros ti. split; [apply Hall|]. intros Hti.
      assert (Info.name ti ∈ Info.name <$> infos) as (t' & Heq & Ht')%list_elem_of_fmap.
      { apply Hiff. by apply list_elem_of_fmap_2. }
      by rewrite (info_name_inj_on ts ti t' Hdistinct Hti (Hall _ Ht') Heq).
Qed.

(** ** Occurrences and ranked graphs *)

Lemma occurrences_not_elem {A : Type} `{EqDecision A} (x : A) (l : list A) :
  x ∉ l -> occurrences x l = 0.
Proof.
  unfold occurrences. induction l as [|y l IH]; intros Hx; [done|].
  rewrite filter_cons_False by set_solver. apply IH. set_solver.
Qed.

Lemma occurrences_NoDup {A : Type} `{EqDecision A} (x : A) (l : list A) :
  NoDup l -> x ∈ l -> occurrences x l = 1.
Proof.
  induction l as [|y l IH]; intros Hnd Hx.
  - by apply elem_of_nil in Hx.
  - apply NoDup_cons in Hnd as [Hy Hnd]. unfold occurrences.
    destruct (decide (y = x)) as [->|Hne].
    + rewrite filter_cons_True by done. simpl. f_equal.
      by apply occurrences_not_elem.
    + rewrite filter_cons_False by done. apply IH; [done|]. set_solver.
Qed.

Lemma occurrences_app {A : Type} `{EqDecision A} (x : A) (l1 l2 : list A) :
  occurrences x (l1 ++ l2) = occurrences x l1 + occurrences x l2.
Proof. unfold occurrences. by rewrite filter_app, length_app. Qed.

Lemma occurrences_perm {A : Type} `{EqDecision A} (x : A) (l1 l2 : list A) :
  l1 ≡ₚ l2 -> occurrences x l1 = occurrences x l2.
Proof. intros Hp. unfold occurrences. by rewrite Hp. Qed.

(** A relation that strictly lowers a rank has no cycle. *)
Lemma ranked_acyclic {A : Type} (R : relation A) (rank : A -> nat) :
  (forall a b, R a b -> rank b < rank a) -> forall a, ¬ tc R a a.
Proof.
  intros Hrank a Ha.
  assert (Hlt : forall x y, tc R x y -> rank y < rank x).
  { induction 1 as [x y H|x y z H _ IH]; [by apply Hrank|].
    apply Hrank in H. lia. }
  apply Hlt in Ha. lia.
Qed.

Lemma records_ITable (ts : list table) : records (ITable <$> ts) = ts.
Proof.
  unfold records. induction ts as [|t ts IH]; [done|]. csimpl. by rewrite IH.
Qed.

Lemma table_stmts_NoDup (stmts : list string) :
  NoDup (omap creates stmts) -> NoDup (table_stmts stmts).
Proof.
  rewrite omap_creates, table_stmts_spec. intros Hnd%NoDup_fmap_1.
  apply NoDup_fmap_2_strong; [|done].
  intros t1 t2 (_ & H1)%parsed_elem_of (_ & H2)%parsed_elem_of Heq.
  rewrite Heq in H1. congruence.
Qed.

Lemma demo_refs_acyclic : acyclic_refs [orders_demo; customers_demo].
Proof.
  intros n. revert n. apply ranked_acyclic
    with (rank := fun n => if decide (n = "orders") then 1 else 0).
  intros a b (t & Ht & <- & Hb & _).
  apply elem_of_cons in Ht as [->|Ht]; [|apply list_elem_of_singleton in Ht as ->].
  - assert (fk_matches (ddl orders_demo) = ["customers"]) as Heq
      by (vm_compute; reflexivity).
    rewrite Heq in Hb. apply list_elem_of_singleton in Hb as ->.
    vm_compute. lia.
  - assert (fk_matches (ddl customers_demo) = []) as Heq
      by (vm_compute; reflexivity).
    rewrite Heq in Hb. by apply elem_of_nil in Hb.
Qed.

Lemma demo_stmts_acyclic : acyclic_stmts [orders_stmt; customers_stmt].
Proof.
  intros n. revert n. apply ranked_acyclic
    with (rank := fun n => if decide (n = "orders") then 1 else 0).
  intros a b (s & Hs & Ha & Hb & _).
  apply elem_of_cons in Hs as [->|Hs]; [|apply list_elem_of_singleton in Hs as ->].
  - assert (references_of orders_stmt = ["customers"]) as Heq
      by (vm_compute; reflexivity).
    assert (creates orders_stmt = Some "orders") as Hcr
      by (vm_compute; reflexivity).
    rewrite Heq in Hb. apply list_elem_of_singleton in Hb as ->.
    rewrite Hcr in Ha. simplify_eq. vm_compute. lia.
  - assert (references_of customers_stmt = []) as Heq
      by (vm_compute; reflexivity).
    rewrite Heq in Hb. by apply elem_of_nil in Hb.
Qed.

(** ** Properties of the Dependency Sequencer *)

(** C1. The acyclic ordering does not hold of the two sequencers.

    - [Orders] has a foreign key to [Customers], which has none, and both are
      in the input; [sort_tables_by_dependencies] reads the target from the
      lower-cased DDL as [customers], looks it up among the table names as
      they are written, does not find it and returns [Orders] first.  The
      statement sequencer, which lower-cases the name it reads as well as the
      targets, returns the same two DDL texts with [Customers] first.
    - A reference written at the column, without the words [FOREIGN KEY], is
      read by the statement sequencer and not by the table sequencer, which
      returns [orders] before [customers].
    - Of two [CREATE TABLE IF NOT EXISTS] statements the statement sequencer
      reads [IF] as the name of both and returns the first only: the
      statement that creates [customers], which [orders] references, is not
      in the result at all.  The pattern of the drop-and-recreate recovery
      reads [customers] from that statement. *)
Theorem acyclic_ordering_broken :
  (fk_matches (ddl orders_cap) = ["customers"]
   ∧ fk_matches (ddl customers_cap) = []
   ∧ Dict.keys (index_tables [ITable orders_cap; ITable customers_cap]).1
     = ["Orders"; "Customers"]
   ∧ sort_tables_by_dependencies [ITable orders_cap; ITable customers_cap]
     = Done [orders_cap; customers_cap]
   ∧ sort_ddl_statements_by_dependencies [ddl orders_cap; ddl customers_cap]
     = Done [ddl customers_cap; ddl orders_cap])
  ∧ (fk_matches (ddl orders_inline) = []
     ∧ references_of (ddl orders_inline) = ["customers"]
     ∧ sort_tables_by_dependencies [ITable orders_inline; ITable customers_inline]
       = Done [orders_inline; customers_inline]
     ∧ sort_ddl_statements_by_dependencies
         [ddl orders_inline; ddl customers_inline]
       = Done [ddl customers_inline; ddl orders_inline])
  ∧ (creates orders_new = Some "if"
     ∧ creates customers_new = Some "if"
     ∧ references_of orders_new = ["customers"]
     ∧ Re.search Re.drop_target_at customers_new = Some "customers"
     ∧ sort_ddl_statements_by_dependencies [orders_new; customers_new]
       = Done [orders_new]).
Proof. vm_compute. repeat split. Qed.

(** What does hold of the two sequencers: the result is in order with
    respect to the references that the sequencer itself finds.  When the
    references that [fk_matches] reads, compared letter for letter with the
    names of an input with distinct table names, have no cycle,
    [sort_tables_by_dependencies] returns every table record after the
    records of the tables so referenced, and
    [sort_ddl_statements_by_dependencies] returns every statement after the
    statements from which it reads the referenced names. *)
Lemma acyclic_ordering (tables : list item) (stmts : list string) :
  NoDup (name <$> records tables) ->
  acyclic_refs (records tables) ->
  acyclic_stmts stmts ->
  (exists out,
     sort_tables_by_dependencies tables = Done out
     ∧ out ≡ₚ records tables
     ∧ referenced_first (records tables) out)
  ∧ (exists out,
       sort_ddl_statements_by_dependencies stmts = Done out
       ∧ (forall d, created_in stmts d -> created_in out d)
       ∧ created_before stmts out)
  ∧ sort_tables_by_dependencies [ITable orders_demo; ITable customers_demo]
    = Done [customers_demo; orders_demo]
  ∧ sort_ddl_statements_by_dependencies [orders_stmt; customers_stmt]
    = Done [customers_stmt; orders_stmt].
Proof.
  intros Hnd Hrefs Hstmts. split_and!.
  - destruct (sort_tables_distinct tables Hnd) as (out & Hrun & Hperm & Hord).
    exists out. auto.
  - destruct (sort_statements_ok stmts)
      as (tout & Hrun & _ & _ & Hcr & Hord & _).
    exists (tout ++ other_stmts stmts). split_and!; auto.
    intros d (s & Hs & Hc)%Hcr. exists s. set_solver.
  - vm_compute. reflexivity.
  - vm_compute. reflexivity.
Qed.

Lemma acyclic_ordering_witness :
  (exists out,
     sort_tables_by_dependencies [ITable orders_demo; ITable customers_demo]
     = Done out
     ∧ out ≡ₚ [orders_demo; customers_demo]
     ∧ referenced_first [orders_demo; customers_demo] out)
  ∧ (exists out,
       sort_ddl_statements_by_dependencies [orders_stmt; customers_stmt]
       = Done out
       ∧ (forall d, created_in [orders_stmt; customers_stmt] d -> created_in out d)
       ∧ created_before [orders_stmt; customers_stmt] out).
Proof.
  destruct (acyclic_ordering [ITable orders_demo; ITable customers_demo]
              [orders_stmt; customers_stmt]) as (H1 & H2 & _).
  - vm_compute. repeat constructor; set_solver.
  - apply demo_refs_acyclic.
  - apply demo_stmts_acyclic.
  - split; [exact H1|exact H2].
Defined.

(** C7. Cycle tolerance: on an input with distinct table names in which two
    tables reference each other, both traversals return without raising, and
    each of the two tables is emitted exactly once. *)
Theorem cycle_tolerance (tables : list item) (stmts : list string)
    (a b : table) (sa sb : string) (na nb : string) :
  NoDup (name <$> records tables) ->
  a ∈ records tables -> b ∈ records tables ->
  name b ∈ fk_matches (ddl a) -> name a ∈ fk_matches (ddl b) ->
  NoDup (omap creates stmts) ->
  sa ∈ stmts -> sb ∈ stmts ->
  creates sa = Some na -> creates sb = Some nb ->
  nb ∈ references_of sa -> na ∈ references_of sb ->
  (exists out,
     sort_tables_by_dependencies tables = Done out
     ∧ occurrences a out = 1 ∧ occurrences b out = 1)
  ∧ (exists out,
       sort_ddl_statements_by_dependencies stmts = Done out
       ∧ occurrences sa out = 1 ∧ occurrences sb out = 1).
Proof.
  intros Hnd Ha Hb _ _ Hnd' Hsa Hsb Hca Hcb _ _. split.
  - destruct (sort_tables_distinct tables Hnd) as (out & Hrun & Hperm & _).
    exists out. split; [done|].
    rewrite !(occurrences_perm _ _ _ Hperm).
    apply NoDup_fmap_1 in Hnd. split; by apply occurrences_NoDup.
  - destruct (sort_statements_ok stmts) as (tout & Hrun & _ & _ & _ & _ & Hperm).
    specialize (Hperm Hnd'). exists (tout ++ other_stmts stmts). split; [done|].
    assert (Hone : forall s n, s ∈ stmts -> creates s = Some n ->
                   occurrences s (tout ++ other_stmts stmts) = 1).
    { intros s n Hs Hc. rewrite occurrences_app, (occurrences_perm _ _ _ Hperm).
      assert (Hp : is_Some (parse_statement s)).
      { unfold creates in Hc. destruct (parse_statement s); [eauto|done]. }
      rewrite occurrences_NoDup, occurrences_not_elem; [done| | |].
      - intros [Ho _]%list_elem_of_filter. rewrite Ho in Hp. by destruct Hp.
      - by apply table_stmts_NoDup.
      - by apply list_elem_of_filter. }
    split; eauto.
Qed.

Lemma cycle_tolerance_witness :
  (exists out,
     sort_tables_by_dependencies [ITable cyc_a; ITable cyc_b] = Done out
     ∧ occurrences cyc_a out = 1 ∧ occurrences cyc_b out = 1)
  ∧ (exists out,
       sort_ddl_statements_by_dependencies [cyc_a_stmt; cyc_b_stmt] = Done out
       ∧ occurrences cyc_a_stmt out = 1 ∧ occurrences cyc_b_stmt out = 1).
Proof.
  apply (cycle_tolerance [ITable cyc_a; ITable cyc_b] [cyc_a_stmt; cyc_b_stmt]
           cyc_a cyc_b cyc_a_stmt cyc_b_stmt "a" "b").
  - vm_compute. repeat constructor; set_solver.
  - vm_compute. set_solver.
  - vm_compute. set_solver.
  - vm_compute. set_solver.
  - vm_compute. set_solver.
  - vm_compute. repeat constructor; set_solver.
  - set_solver.
  - set_solver.
  - vm_compute. reflexivity.
  - vm_compute. reflexivity.
  - vm_compute. set_solver.
  - vm_compute. set_solver.
Defined.

(** C10. For table records with distinct names, the result of
    [sort_tables_by_dependencies] is a permutation of the input, whatever the
    references between the tables are. *)
Theorem sort_tables_permutation (ts : list table) :
  NoDup (name <$> ts) ->
  exists out,
    sort_tables_by_dependencies (ITable <$> ts) = Done out ∧ out ≡ₚ ts.
Proof.
  intros Hnd.
  destruct (sort_tables_distinct (ITable <$> ts)) as (out & Hrun & Hperm & _).
  - by rewrite records_ITable.
  - exists out. by rewrite records_ITable in Hperm.
Qed.

Lemma sort_tables_permutation_witness :
  exists out,
    sort_tables_by_dependencies (ITable <$> [cyc_a; cyc_b]) = Done out
    ∧ out ≡ₚ [cyc_a; cyc_b].
Proof.
  apply (sort_tables_permutation [cyc_a; cyc_b]).
  vm_compute. repeat constructor; set_solver.
Defined.

(** ** Type equivalence *)

Lemma maps_to_spec d k v : maps_to d k v = true <-> d !! k = Some v.
Proof.
  unfold maps_to. destruct (d !! k) as [v'|]; [|done].
  rewrite bool_decide_eq_true. naive_solver.
Qed.

(** C5. The equivalence of types is symmetric, and it holds of two type names
    that are the same once stripped and lower-cased. *)
Theorem are_equivalent_types_symmetric (x y : string) :
  are_equivalent_types x y = are_equivalent_types y x
  ∧ (normalize_type x = normalize_type y -> are_equivalent_types x y = true).
Proof.
  unfold are_equivalent_types. split.
  - destruct (decide (normalize_type x = normalize_type y)) as [Heq|Hne].
    + by rewrite decide_True.
    + rewrite (decide_False (P := normalize_type y = normalize_type x))
        by congruence.
      destruct (maps_to _ (normalize_type x) _), (maps_to _ (normalize_type y) _);
        done.
  - intros Heq. by rewrite decide_True.
Qed.

Lemma are_equivalent_types_symmetric_witness :
  are_equivalent_types "  INT " "int" = are_equivalent_types "int" "  INT "
  ∧ are_equivalent_types "  INT " "int" = true.
Proof.
  destruct (are_equivalent_types_symmetric "  INT " "int") as [H1 H2].
  split; [exact H1|]. apply H2. vm_compute. reflexivity.
Defined.

Example are_equivalent_types_examples :
  are_equivalent_types "VARCHAR" "character varying" = true
  ∧ are_equivalent_types "timestamp without time zone" " DateTime" = true
  ∧ are_equivalent_types "int" "bigint" = false.
Proof. vm_compute. done. Qed.

(** ** Null ratio of the data profile *)

Lemma null_ratio_of_done n r : exists q, null_ratio_of n r = Done q.
Proof.
  unfold null_ratio_of, truediv. destruct (decide (r > 0)%Z); [|eauto].
  rewrite decide_False by lia. eauto.
Qed.

Section DataProfileFacts.
Variable count_rows : string -> outcome (option Z).
Variable column_rows : string -> outcome (list (string * string * string)).
Variable count_nulls : string -> string -> outcome (option Z).
Variable count_distinct : string -> string -> outcome (option Z).

Lemma profile_column_zero table col_row :
  null_ratio (profile_column count_nulls count_distinct table 0 col_row) = 0%Q.
Proof.
  unfold profile_column. destruct col_row as [[c d] n].
  destruct (count_nulls table c) as [r1| |]; simpl; [|done..].
  destruct (count_distinct table c) as [r2| |]; simpl; done.
Qed.

Lemma profile_table_zero table :
  row_count (profile_table count_rows column_rows count_nulls count_distinct table)
  = 0%Z ->
  Forall (fun c => null_ratio c = 0%Q)
    (columns (profile_table count_rows column_rows count_nulls count_distinct
                table)).
Proof.
  unfold profile_table. destruct (count_rows table) as [r| |]; simpl; [|done..].
  destruct (column_rows table) as [cols| |]; simpl; [|done..].
  intros ->. apply Forall_fmap, Forall_forall. intros col _. simpl.
  apply profile_column_zero.
Qed.

Lemma data_profile_get tables table p :
  Dict.get (data_profile count_rows column_rows count_nulls count_distinct tables)
    table = Some p ->
  p = profile_table count_rows column_rows count_nulls count_distinct table.
Proof.
  unfold data_profile.
  induction tables as [|t l IH] using rev_ind; [done|].
  rewrite foldl_app. simpl.
  generalize dependent (foldl
    (fun profile table0 =>
       Dict.set table0
         (profile_table count_rows column_rows count_nulls count_distinct table0)
         profile) [] l).
  intros d IH. induction d as [|[k v] d IHd]; simpl.
  - case_decide; [|done]. by intros [= <-]; subst.
  - destruct (decide (t = k)) as [->|Hne]; simpl.
    + case_decide; [by intros [= <-]; subst|]. intros H'. apply IH. simpl.
      by rewrite decide_False.
    + case_decide.
      * intros [= <-]. subst. apply IH. simpl. by rewrite decide_True.
      * intros H'. apply IHd; [|done]. intros H''. apply IH. simpl.
        by rewrite decide_False.
Qed.
End DataProfileFacts.

(** C6. Null-ratio safety: in the data profile, every column of a table whose
    row count is 0 has [null_ratio] 0, and the ratio is never computed by a
    division by zero. *)
Theorem null_ratio_safety
    (count_rows : string -> outcome (option Z))
    (column_rows : string -> outcome (list (string * string * string)))
    (count_nulls count_distinct : string -> string -> outcome (option Z))
    (tables : list string) (table : string) (p : table_profile) :
  Dict.get (data_profile count_rows column_rows count_nulls count_distinct tables)
    table = Some p ->
  row_count p = 0%Z ->
  Forall (fun c => null_ratio c = 0%Q) (columns p)
  ∧ (forall n r, null_ratio_of n r ≠ Raise ZeroDivisionError)
  ∧ (forall n, null_ratio_of n 0 = Done 0%Q).
Proof.
  intros Hget Hrow. apply data_profile_get in Hget. subst p. split_and!.
  - by apply profile_table_zero.
  - intros n r. destruct (null_ratio_of_done n r) as [q ->]. done.
  - done.
Qed.

Lemma null_ratio_safety_witness :
  Forall (fun c => null_ratio c = 0%Q)
    [ColumnStat "id" "int" false 0 0 0%Q; ColumnStat "note" "text" true 0 0 0%Q]
  ∧ (forall n r, null_ratio_of n r ≠ Raise ZeroDivisionError)
  ∧ (forall n, null_ratio_of n 0 = Done 0%Q).
Proof.
  apply (null_ratio_safety
           (fun _ => Done (Some 0%Z))
           (fun _ => Done [("id", "int", "NO"); ("note", "text", "YES")])
           (fun _ _ => Done (Some 0%Z))
           (fun _ _ => Done None)
           ["empty_table"] "empty_table"
           (TableProfile 0
              [ColumnStat "id" "int" false 0 0 0%Q;
               ColumnStat "note" "text" true 0 0 0%Q])).
  - vm_compute. reflexivity.
  - reflexivity.
Defined.

(** ** Schema Translator *)

Example strip_code_fence_example :
  strip_code_fence "  ```json {} ```  " = "{}".
Proof. vm_compute. reflexivity. Qed.



(** ** Statement reassembly *)

Example reassemble_fragments_t :
  reassemble_ai_ddl_statements fragments_t = ["CREATE TABLE t ( id INT );"].
Proof. vm_compute. reflexivity. Qed.

Example extract_joined_t :
  extract_ddl_statements joined_t = Done ["CREATE TABLE t (id INT)"].
Proof. vm_compute. reflexivity. Qed.

(** A second [CREATE TABLE] item replaces the statement being assembled,
    which is then not emitted. *)
Example reassemble_two_tables :
  reassemble_ai_ddl_statements
    (JList [JStr "CREATE TABLE a (id INT);"; JStr "CREATE TABLE b (id INT);"])
  = ["CREATE TABLE b (id INT);"]
  ∧ extract_ddl_statements (JStr "CREATE TABLE a (id INT);CREATE TABLE b (id INT);")
    = Done ["CREATE TABLE a (id INT)"; "CREATE TABLE b (id INT)"].
Proof. vm_compute. done. Qed.

(** ** Structure migration *)

Example apply_recreates_x :
  apply_ddl_to_target bool x_db_execute always_ok always_ok always_ok no_json
    (Some (RunState true [] 0)) (JList [JStr "CREATE TABLE x (id INT);"])
  = (Ok true,
     Some (RunState true
             [Execute create_x; Execute (drop_table_statement "x");
              Execute create_x; Commit; CloseCursor] 1)).
Proof. vm_compute. reflexivity. Qed.

Example apply_skips_idx :
  apply_ddl_to_target unit idx_db_execute always_ok always_ok always_ok no_json
    (Some (RunState tt [] 0))
    (JStr "CREATE TABLE t (c INT); CREATE INDEX idx ON t (c);")
  = (Ok true,
     Some (RunState tt
             [Execute "CREATE TABLE t (c INT)"; Execute create_idx;
              Commit; CloseCursor] 1)).
Proof. vm_compute. reflexivity. Qed.

Example apply_aborts :
  apply_ddl_to_target unit strict_db_execute always_ok always_ok always_ok no_json
    (Some (RunState tt [] 0))
    (JStr "CREATE TABLE t (c INT); CREATE TABLE y (id INTT); CREATE TABLE z (c INT)")
  = (Err (failed_to_apply (Exception "type INTT does not exist")),
     Some (RunState tt
             [Execute "CREATE TABLE t (c INT)"; Execute "CREATE TABLE y (id INTT)";
              Rollback; CloseCursor] 1)).
Proof. vm_compute. reflexivity. Qed.

Section ExecutorFacts.
Variable W : Type.
Variable db_execute : string -> W -> answer unit * W.
Variable db_commit : W -> answer unit * W.
Variable db_rollback : W -> answer unit * W.
Variable db_close : W -> answer unit * W.
Variable json_loads : string -> answer json.

Local Abbreviation exec_stmt := (execute_statement W db_execute).

Lemma execute_run statement (st : run_state W) :
  execute W db_execute statement st
  = ((db_execute statement (world st)).1,
     RunState (db_execute statement (world st)).2
              (trace st ++ [Execute statement]) (executed_count st)).
Proof.
  unfold execute, call. by destruct (db_execute statement (world st)).
Qed.

(** The execution loop only executes statements. *)
Lemma execute_statement_trace statement (st : run_state W) :
  exists evs,
    trace (exec_stmt statement st).2 = trace st ++ evs ∧ Forall (is_execute) evs.
Proof.
  unfold execute_statement.
  destruct (negb (Py.truthy statement) || Py.isspace statement).
  { exists []. by rewrite app_nil_r. }
  unfold try_except, mbind, task_bind. rewrite execute_run.
  destruct (db_execute (clean_statement statement) (world st)) as [[[]|e] w1]; simpl.
  { exists [Execute (clean_statement statement)]. split; [done|].
    repeat constructor. by eexists. }
  destruct (is_duplicate_error e); simpl.
  2:{ exists [Execute (clean_statement statement)]. split; [done|].
      repeat constructor. by eexists. }
  unfold drop_and_recreate, try_except.
  destruct (Re.search _ _) as [n|]; simpl.
  2:{ exists [Execute (clean_statement statement)]. split; [done|].
      repeat constructor. by eexists. }
  unfold mbind, task_bind. rewrite execute_run. simpl.
  destruct (db_execute (drop_table_statement n) w1) as [[[]|e2] w2]; simpl.
  2:{ eexists [_; _]. rewrite <- app_assoc. split; [done|].
      repeat constructor; by eexists. }
  rewrite execute_run. simpl.
  destruct (db_execute (clean_statement statement) w2) as [[[]|e3] w3]; simpl.
  - eexists [_; _; _]. rewrite <- !app_assoc. split; [done|].
    repeat constructor; by eexists.
  - eexists [_; _; _]. rewrite <- !app_assoc. split; [done|].
    repeat constructor; by eexists.
Qed.

Lemma for_task_trace stmts (st : run_state W) :
  exists evs,
    trace (for_task stmts exec_stmt st).2 = trace st ++ evs
    ∧ Forall (is_execute) evs.
Proof.
  revert st. induction stmts as [|s l IH]; intros st; simpl.
  { exists []. by rewrite app_nil_r. }
  unfold mbind, task_bind.
  destruct (execute_statement_trace s st) as (evs1 & Ht1 & Hf1).
  destruct (exec_stmt s st) as [[[]|e] st1]; simpl in *.
  - destruct (IH st1) as (evs2 & Ht2 & Hf2). exists (evs1 ++ evs2).
    rewrite Ht2, Ht1, app_assoc. split; [done|]. by apply Forall_app.
  - eauto.
Qed.
End ExecutorFacts.

(** C8, as the code has it.  When the execution of a statement fails with a
    message telling of an existing object and a table name is found in the
    statement, the executor issues [DROP TABLE IF EXISTS] for that name with
    [CASCADE] and then executes the statement again, raising the first error
    again if either fails; when no table name is found the statement is
    passed over and the run goes on; any other failure is raised again; and
    a failure raised by the loop makes the whole application fail after a
    rollback, without a commit. *)
Theorem structure_failure_policy (W : Type)
    (db_execute : string -> W -> answer unit * W)
    (db_commit db_rollback db_close : W -> answer unit * W)
    (json_loads : string -> answer json)
    (st : run_state W) (statement : string) (e : exn) (w1 : W) :
  Py.truthy statement = true ->
  Py.isspace statement = false ->
  db_execute (clean_statement statement) (world st) = (Err e, w1) ->
  failure_policy W db_execute db_commit db_rollback db_close json_loads
    st statement e w1.
Proof.
  intros Htruthy Hspace Hexec. unfold failure_policy.
  assert (Hrun :
    execute_statement W db_execute statement st
    = (if is_duplicate_error e
       then drop_and_recreate W db_execute (clean_statement statement) e
       else raise e)
        (RunState w1 (trace st ++ [Execute (clean_statement statement)])
                  (executed_count st))).
  { unfold execute_statement. rewrite Htruthy, Hspace. simpl.
    unfold try_except, mbind, task_bind. rewrite execute_run, Hexec. done. }
  split_and!.
  - intros Hdup n Hn. rewrite Hrun, Hdup.
    unfold drop_and_recreate, try_except, mbind, task_bind. rewrite Hn.
    rewrite execute_run. simpl. split_and!.
    + intros e2 w2 ->. simpl. by rewrite <- app_assoc.
    + intros w2 w3 -> H3. simpl. rewrite execute_run. simpl. rewrite H3. simpl.
      by rewrite <- !app_assoc.
    + intros w2 e3 w3 -> H3. simpl. rewrite execute_run. simpl. rewrite H3. simpl.
      by rewrite <- !app_assoc.
  - intros Hdup Hn. rewrite Hrun, Hdup.
    unfold drop_and_recreate, try_except. by rewrite Hn.
  - intros Hdup. by rewrite Hrun, Hdup.
  - intros ddl_data stmts st0 st1 e' Hstmts Hloop.
    destruct (for_task_trace W db_execute stmts st0) as (evs & Htr & Hev).
    rewrite Hloop in Htr. simpl in Htr.
    unfold apply_with_cursor, try_finally, try_except, mbind, task_bind.
    rewrite Hstmts. destruct stmts as [|s l]; [done|].
    rewrite Hloop. unfold raise, suppress, call. simpl.
    destruct (db_rollback (world st1)) as [r2 w2]. simpl.
    destruct (db_close w2) as [r3 w3]. simpl.
    exists w3, evs. split; [|done]. rewrite Htr, <- !app_assoc. done.
Qed.

Lemma structure_failure_policy_witness :
  failure_policy bool x_db_execute always_ok always_ok always_ok no_json
    (RunState true [] 0) "CREATE TABLE x (id INT);"
    (Exception "relation x already exists") true.
Proof.
  apply (structure_failure_policy bool x_db_execute always_ok always_ok
           always_ok no_json (RunState true [] 0) "CREATE TABLE x (id INT);"
           (Exception "relation x already exists") true).
  - reflexivity.
  - reflexivity.
  - vm_compute. reflexivity.
Defined.

(** A statement that creates no table and fails because its object exists
    is neither followed by a drop nor executed again. *)
Lemma recovers_by_drop_counterexample :
  ¬ recovers_by_drop unit idx_db_execute (RunState tt [] 0)
      "CREATE INDEX idx ON t (c);".
Proof.
  intros H.
  destruct (H (Exception "relation idx already exists") tt)
    as (n & rest & r & st' & Hrun & Htrace).
  - vm_compute. reflexivity.
  - vm_compute. reflexivity.
  - vm_compute in Hrun. injection Hrun as <- <-.
    simpl in Htrace. discriminate Htrace.
Qed.

(** ** Validator *)

(** C4. Validation short-circuit: when the check of the source connection
    fails, the findings of the run are exactly one finding, of category
    [Source Connection] and status [Fail]; no later check contributes. *)
Theorem validation_short_circuit (connection : Type)
    (connect_to_database : json -> answer connection)
    (close_connection : connection -> answer unit)
    (active_session : json) (get_connection_by_id : json -> option json)
    (validate_row_counts validate_table_structure sample_data_comparison
       content_analysis automated_testing_framework run_performance_benchmark
       create_rollback_checkpoint : json -> json -> answer (list finding))
    (source_conn_info target_conn_info : json) (e : exn) :
  session_connections active_session get_connection_by_id
  = Ok (source_conn_info, target_conn_info) ->
  probe connection connect_to_database close_connection source_conn_info = Err e ->
  validate_connections connection connect_to_database close_connection
    source_conn_info target_conn_info
  = [Finding "Source Connection" Fail (Some (str_exn e))
             (Some "Check source database connection settings") (9 # 10)]
  ∧ validation_results connection connect_to_database close_connection
      active_session get_connection_by_id validate_row_counts
      validate_table_structure sample_data_comparison content_analysis
      automated_testing_framework run_performance_benchmark
      create_rollback_checkpoint
    = [Finding "Source Connection" Fail (Some (str_exn e))
               (Some "Check source database connection settings") (9 # 10)].
Proof.
  intros Hsession Hprobe.
  assert (Hconn : validate_connections connection connect_to_database
                    close_connection source_conn_info target_conn_info
                  = [Finding "Source Connection" Fail (Some (str_exn e))
                       (Some "Check source database connection settings") (9 # 10)]).
  { unfold validate_connections. by rewrite Hprobe. }
  split; [done|].
  unfold validation_results, run_comprehensive_validation, try_except, lift,
    mbind, task_bind.
  rewrite Hsession. simpl. rewrite Hconn. done.
Qed.

Lemma validation_short_circuit_witness :
  validation_results unit unreachable (fun _ => Ok tt) demo_session
    demo_connection_by_id demo_check demo_check demo_check demo_check
    demo_check demo_check demo_check
  = [Finding "Source Connection" Fail
       (Some "Failed to connect to MySQL database: timed out")
       (Some "Check source database connection settings") (9 # 10)].
Proof.
  apply (validation_short_circuit unit unreachable (fun _ => Ok tt) demo_session
           demo_connection_by_id demo_check demo_check demo_check demo_check
           demo_check demo_check demo_check
           (JDict [("id", JNum 1); ("credentials", JDict [("host", JStr "db")])])
           (JDict [("id", JNum 2); ("credentials", JDict [("host", JStr "db")])])
           (Exception "Failed to connect to MySQL database: timed out")).
  - vm_compute. reflexivity.
  - reflexivity.
Defined.

(** ** Progress of the stages *)

Example demo_extraction_history :
  percent_history demo_extraction = [0; 10; 30; 50; 70; 85; 60; 100]%Z.
Proof. vm_compute. reflexivity. Qed.

Section HistoryFacts.
Context {St : Type}.
Variable hist : St -> list Z.

Lemma emits_within {A} (m : task St A) vs : emits hist m vs -> within hist m vs.
Proof.
  intros H s. specialize (H s). destruct ((m s).1); [|done].
  exists (length vs). by rewrite firstn_all.
Qed.

Lemma emits_quiet {A} (m : task St A) :
  (forall s, hist (m s).2 = hist s) -> emits hist m [].
Proof.
  intros H s. rewrite H, app_nil_r. destruct ((m s).1); [done|]. exists 0.
  by rewrite app_nil_r.
Qed.

Lemma emits_ret {A} (a : A) : emits hist (mret a : task St A) [].
Proof. by apply emits_quiet. Qed.

Lemma emits_raise {A} e : emits hist (raise e : task St A) [].
Proof. by apply emits_quiet. Qed.

Lemma emits_lift {A} (m : answer A) : emits hist (lift m : task St A) [].
Proof. by apply emits_quiet. Qed.

Lemma emits_bind {A B} (m : task St A) (f : A -> task St B) vs1 vs2 :
  emits hist m vs1 -> (forall a, emits hist (f a) vs2) ->
  emits hist (m ≫= f) (vs1 ++ vs2).
Proof.
  intros Hm Hf s. specialize (Hm s). unfold mbind, task_bind.
  destruct (m s) as [[a|e] s1]; simpl in *.
  - specialize (Hf a s1). destruct ((f a s1).1).
    + by rewrite Hf, Hm, app_assoc.
    + destruct Hf as [k Hk]. exists (length vs1 + k).
      by rewrite Hk, Hm, take_app_add, app_assoc.
  - destruct Hm as [k Hk]. exists (k `min` length vs1).
    rewrite Hk. f_equal. rewrite take_app_le by lia.
    destruct (decide (k <= length vs1)).
    + by rewrite Nat.min_l.
    + rewrite Nat.min_r by lia. by rewrite !take_ge by lia.
Qed.

Lemma within_bind {A B} (m : task St A) (f : A -> task St B) vs1 vs2 :
  emits hist m vs1 -> (forall a, within hist (f a) vs2) ->
  within hist (m ≫= f) (vs1 ++ vs2).
Proof.
  intros Hm Hf s. specialize (Hm s). unfold mbind, task_bind.
  destruct (m s) as [[a|e] s1]; simpl in *.
  - destruct (Hf a s1) as [k Hk]. exists (length vs1 + k).
    by rewrite Hk, Hm, take_app_add, app_assoc.
  - destruct Hm as [k Hk]. exists (k `min` length vs1).
    rewrite Hk. f_equal. rewrite take_app_le by lia.
    destruct (decide (k <= length vs1)).
    + by rewrite Nat.min_l.
    + rewrite Nat.min_r by lia. by rewrite !take_ge by lia.
Qed.

Lemma within_quiet {A} (m : task St A) vs :
  (forall s, hist (m s).2 = hist s) -> within hist m vs.
Proof. intros H s. exists 0. by rewrite H, app_nil_r. Qed.

Lemma emits_for_task {A} (xs : list A) (body : A -> task St unit) :
  (forall x, emits hist (body x) []) -> emits hist (for_task xs body) [].
Proof.
  intros H. induction xs as [|x xs IH]; simpl.
  - apply emits_ret.
  - change (@nil Z) with (@nil Z ++ []). by apply emits_bind.
Qed.

(** A handler that writes nothing keeps what the body has written. *)
Lemma within_try_except {A} (m : task St A) (h : exn -> task St A) vs :
  within hist m vs -> (forall e s, hist (h e s).2 = hist s) ->
  within hist (try_except m h) vs.
Proof.
  intros Hm Hh s. destruct (Hm s) as [k Hk]. exists k. unfold try_except.
  destruct (m s) as [[a|e] s1]; simpl in *; [done|]. by rewrite Hh.
Qed.
End HistoryFacts.

Lemma non_decreasing_take k l :
  non_decreasing l = true -> non_decreasing (take k l) = true.
Proof.
  revert k. induction l as [|x l IH]; intros k Hl; [by destruct k|].
  destruct k as [|k]; [done|]. destruct l as [|y l]; [by destruct k|].
  simpl in Hl. apply andb_true_iff in Hl as [Hxy Hl].
  destruct k as [|k]; [done|]. specialize (IH (S k) Hl).
  change (take (S (S k)) (x :: y :: l)) with (x :: y :: take k l).
  change (take (S k) (y :: l)) with (y :: take k l) in IH.
  simpl. by rewrite Hxy.
Qed.

Lemma within_percent_take k l :
  within_percent l = true -> within_percent (take k l) = true.
Proof.
  unfold within_percent. rewrite !forallb_forall. intros H x Hx. apply H.
  apply list_elem_of_In. apply list_elem_of_In in Hx.
  by apply (subseteq_take k l).
Qed.

Lemma emits_eq {St A} (hist : St -> list Z) (m : task St A) vs vs' :
  emits hist m vs -> vs = vs' -> emits hist m vs'.
Proof. by intros ? <-. Qed.

Lemma within_eq {St A} (hist : St -> list Z) (m : task St A) vs vs' :
  within hist m vs -> vs = vs' -> within hist m vs'.
Proof. by intros ? <-. Qed.

(** *** Data migration *)

Section DataMigrationFacts.
Variable W : Type.
Variable active_session : json.
Variable get_connection_by_id : json -> option json.
Variable connect_to_database : option json -> W -> answer unit * W.
Variable target_execute : string -> W -> answer unit * W.
Variable target_executemany : string -> list (list json) -> W -> answer unit * W.
Variable target_commit : W -> answer unit * W.
Variable source_execute : string -> W -> answer unit * W.
Variable source_fetchone : W -> answer (option Z) * W.
Variable source_fetchall : W -> answer (list (list json)) * W.
Variable source_description : W -> list string.
Variable close_connections : W -> answer unit * W.
Variable create_table_statements : list string.
Variable str_int : Z -> string.

Local Abbreviation H := (fun r : migration_run W => percent_history (migration_status r)).

Lemma emits_at_phase p v : emits H (at_phase W p v) [v].
Proof. intros s. done. Qed.

Lemma emits_on_db {A} (op : W -> answer A * W) : emits H (on_db W op) [].
Proof.
  apply emits_quiet. intros s. unfold on_db. by destruct (op (databases s)).
Qed.

Lemma emits_attempt (op : W -> answer unit * W) : emits H (attempt W op) [].
Proof.
  apply emits_quiet. intros s. unfold attempt, on_db. simpl.
  by destruct (op (databases s)).
Qed.

Lemma emits_migrate_table i table :
  emits H (migrate_table W target_executemany target_commit source_execute
             source_fetchone source_fetchall source_description str_int i table)
    [Z.min (migration_progress i) 90].
Proof.
  unfold migrate_table.
  eapply emits_eq.
  { eapply emits_bind; [apply emits_on_db|intros _].
    eapply emits_bind; [apply emits_on_db|intros result].
    eapply emits_bind; [by apply emits_quiet|intros _].
    eapply emits_bind; [apply emits_on_db|intros _].
    eapply emits_bind; [apply emits_on_db|intros rows].
    eapply emits_bind.
    { destruct rows; [apply emits_ret|].
      eapply emits_eq.
      - eapply emits_bind; [by apply emits_quiet|intros cols].
        eapply emits_bind; [apply emits_on_db|intros _]. apply emits_on_db.
      - reflexivity. }
    intros _.
    eapply emits_bind; [by apply emits_quiet|intros _].
    intros s. simpl. reflexivity. }
  reflexivity.
Qed.

Lemma within_migration_body :
  within H
    (migration_body W active_session get_connection_by_id connect_to_database
       target_execute target_executemany target_commit source_execute
       source_fetchone source_fetchall source_description close_connections
       create_table_statements str_int)
    [10; 20; 30; 40; 50; 60; 70; 80; 90; 95; 100]%Z.
Proof.
  apply emits_within. unfold migration_body. eapply emits_eq.
  { eapply emits_bind; [apply emits_at_phase|intros _].
    eapply emits_bind.
    { destruct (_ || _); [apply emits_raise|apply emits_ret]. }
    intros _.
    eapply emits_bind; [apply emits_lift|intros source_id].
    eapply emits_bind; [apply emits_lift|intros target_id].
    eapply emits_bind; [apply emits_at_phase|intros _].
    eapply emits_bind; [apply emits_on_db|intros _].
    eapply emits_bind; [apply emits_on_db|intros _].
    eapply emits_bind; [apply emits_at_phase|intros _].
    eapply emits_bind; [apply emits_for_task; intros; apply emits_attempt|intros _].
    eapply emits_bind; [apply emits_on_db|intros _].
    eapply emits_bind; [apply emits_for_task; intros; apply emits_attempt|intros _].
    eapply emits_bind; [apply emits_on_db|intros _].
    eapply emits_bind; [apply emits_at_phase|intros _].
    eapply emits_bind.
    { unfold tables_to_migrate. simpl.
      eapply emits_bind; [apply emits_migrate_table|intros _].
      eapply emits_bind; [apply emits_migrate_table|intros _].
      eapply emits_bind; [apply emits_migrate_table|intros _].
      eapply emits_bind; [apply emits_migrate_table|intros _].
      eapply emits_bind; [apply emits_migrate_table|intros _].
      apply emits_ret. }
    intros _.
    eapply emits_bind; [apply emits_at_phase|intros _].
    eapply emits_bind; [apply emits_at_phase|intros _].
    eapply emits_bind; [by apply emits_quiet|intros _].
    apply emits_on_db. }
  vm_compute. reflexivity.
Qed.

(** The percent of a data migration never decreases and stays within 0 and
    100, whatever the databases answer. *)
Lemma data_migration_monotonic w :
  monotonic_percent
    (migration_status
       (run_data_migration_task W active_session get_connection_by_id
          connect_to_database target_execute target_executemany target_commit
          source_execute source_fetchone source_fetchall source_description
          close_connections create_table_statements str_int w)).
Proof.
  unfold run_data_migration_task.
  destruct (within_try_except H _
              (fun e => status_step W (fun s => set_done (set_error (str_exn e) s)))
              _ within_migration_body (fun _ _ => eq_refl)
              (MigrationRun (reset_status "Initializing") 0 w)) as [k Hk].
  simpl in Hk. unfold monotonic_percent. rewrite Hk. split.
  - by apply (non_decreasing_take (S k)
                [0; 10; 20; 30; 40; 50; 60; 70; 80; 90; 95; 100]%Z).
  - by apply (within_percent_take (S k)
                [0; 10; 20; 30; 40; 50; 60; 70; 80; 90; 95; 100]%Z).
Qed.
End DataMigrationFacts.

(** *** Validation *)

Section ValidationFacts.
Variable connection : Type.
Variable connect_to_database : json -> answer connection.
Variable close_connection : connection -> answer unit.
Variable active_session : json.
Variable get_connection_by_id : json -> option json.
Variable validate_row_counts : json -> json -> answer (list finding).
Variable validate_table_structure : json -> json -> answer (list finding).
Variable sample_data_comparison : json -> json -> answer (list finding).
Variable content_analysis : json -> json -> answer (list finding).
Variable automated_testing_framework : json -> json -> answer (list finding).
Variable run_performance_benchmark : json -> json -> answer (list finding).
Variable create_rollback_checkpoint : json -> json -> answer (list finding).

Local Abbreviation Hv :=
  (fun r : validation_run => percent_history (validation_status r)).

Lemma emits_enter p v : emits Hv (enter p v) [v].
Proof. intros s. done. Qed.

Lemma emits_extend fs : emits Hv (extend fs) [].
Proof. by apply emits_quiet. Qed.

Lemma emits_run_check p v check infos : emits Hv (run_check p v check infos) [v].
Proof.
  unfold run_check. eapply emits_eq.
  { eapply emits_bind; [apply emits_enter|intros _].
    eapply emits_bind; [apply emits_lift|intros fs]. apply emits_extend. }
  reflexivity.
Qed.

(** The percent of a validation run never decreases and stays within 0 and
    100, whatever the checks answer. *)
Lemma validation_monotonic :
  monotonic_percent
    (validation_status
       (run_comprehensive_validation connection connect_to_database
          close_connection active_session get_connection_by_id
          validate_row_counts validate_table_structure sample_data_comparison
          content_analysis automated_testing_framework
          run_performance_benchmark create_rollback_checkpoint
          (ValidationRun (reset_status "Initializing") [])).2).
Proof.
  unfold run_comprehensive_validation.
  match goal with
  | |- context [try_except ?m ?h] =>
      assert (Hw : within Hv (try_except m h) [5; 15; 30; 40; 50; 70; 85; 95; 100]%Z)
  end.
  { apply within_try_except; [|done].
    eapply within_eq.
    { eapply within_bind; [apply emits_lift|intros infos].
      eapply within_bind; [apply emits_enter|intros _].
      eapply within_bind; [apply emits_extend|intros _].
      destruct (existsb _ _); [by apply within_quiet|].
      apply emits_within.
      eapply emits_bind; [apply emits_run_check|intros _].
      eapply emits_bind; [apply emits_run_check|intros _].
      eapply emits_bind; [apply emits_run_check|intros _].
      eapply emits_bind; [apply emits_run_check|intros _].
      eapply emits_bind; [apply emits_run_check|intros _].
      eapply emits_bind; [apply emits_run_check|intros _].
      eapply emits_bind; [apply emits_run_check|intros _].
      apply emits_enter. }
    reflexivity. }
  destruct (Hw (ValidationRun (reset_status "Initializing") [])) as [k Hk].
  simpl in Hk. unfold monotonic_percent. rewrite Hk. split.
  - by apply (non_decreasing_take (S k) [0; 5; 15; 30; 40; 50; 70; 85; 95; 100]%Z).
  - by apply (within_percent_take (S k) [0; 5; 15; 30; 40; 50; 70; 85; 95; 100]%Z).
Qed.
End ValidationFacts.

(** *** Extraction *)

(** Every extraction that finds its source connection writes 85 and then 60
    to [percent]. *)
Lemma extraction_history (active_session : json)
    (get_connection_by_id : json -> option json)
    (extract_database_ddl : json -> answer json)
    (save_bundle : json -> answer unit) (summarize : json -> answer json)
    (source_db source_id connection_info : json) :
  json_get "source" active_session = Some source_db ->
  json_truthy (Some source_db) = true ->
  json_item "id" source_db = Ok source_id ->
  get_connection_by_id source_id = Some connection_info ->
  json_truthy (Some connection_info) = true ->
  (exists rest,
     percent_history
       (run_extraction_task active_session get_connection_by_id
          extract_database_ddl save_bundle summarize)
     = [0; 10; 30; 50; 70; 85; 60]%Z ++ rest)
  ∧ ¬ monotonic_percent
        (run_extraction_task active_session get_connection_by_id
           extract_database_ddl save_bundle summarize).
Proof.
  intros Hs Hst Hid Hc Hct.
  assert (Hh : exists rest,
             percent_history
               (run_extraction_task active_session get_connection_by_id
                  extract_database_ddl save_bundle summarize)
             = [0; 10; 30; 50; 70; 85; 60]%Z ++ rest).
  { unfold run_extraction_task, extraction_body, try_except, mbind, task_bind, lift.
    rewrite Hs, Hst, Hid, Hc, Hct. simpl.
    destruct (extract_database_ddl connection_info) as [b|e]; simpl;
      [|by eexists [_]].
    destruct (save_bundle b) as [[]|e]; simpl; [|by eexists [_; _]].
    destruct (summarize b) as [v|e]; simpl; [by eexists [_]|by eexists [_; _]]. }
  split; [done|]. destruct Hh as [rest Hh].
  unfold monotonic_percent. rewrite Hh. intros [Hm _].
  simpl in Hm. destruct rest; discriminate.
Qed.

(** C3. The percent of a stage never decreases during a run.  This does not
    hold of the extraction stage: a run on which every step succeeds writes
    0, 10, 30, 50, 70, 85, 60, 100, where 60 follows 85. *)
Theorem extraction_percent_decreases :
  percent_history demo_extraction = [0; 10; 30; 50; 70; 85; 60; 100]%Z
  ∧ ¬ monotonic_percent demo_extraction.
Proof.
  split; [vm_compute; reflexivity|].
  intros [Hm _]. vm_compute in Hm. discriminate.
Qed.

(** ** Strings up to white space *)

Lemma squeeze_app a b : squeeze (a +:+ b) = squeeze a +:+ squeeze b.
Proof.
  induction a as [|c a IH]; simpl; [done|].
  destruct (Py.is_space c); simpl; by rewrite IH.
Qed.

Lemma squeeze_lstrip s : squeeze (Py.lstrip s) = squeeze s.
Proof.
  induction s as [|c s IH]; simpl; [done|].
  destruct (Py.is_space c) eqn:Hc; simpl; [done|]. by rewrite Hc.
Qed.

Lemma squeeze_rstrip s : squeeze (Py.rstrip s) = squeeze s.
Proof.
  induction s as [|c s IH]; simpl; [done|].
  destruct (Py.rstrip s) as [|c' r] eqn:Hr.
  - destruct (Py.is_space c) eqn:Hc; simpl; rewrite ?Hc, <- IH; done.
  - simpl in *. destruct (Py.is_space c); by rewrite <- IH.
Qed.

Lemma squeeze_strip s : squeeze (Py.strip s) = squeeze s.
Proof. unfold Py.strip. by rewrite squeeze_lstrip, squeeze_rstrip. Qed.

Lemma lstrip_truthy s : Py.truthy (Py.lstrip s) = Py.truthy (squeeze s).
Proof.
  induction s as [|c s IH]; simpl; [done|].
  destruct (Py.is_space c); simpl; done.
Qed.

Lemma strip_truthy s : Py.truthy (Py.strip s) = Py.truthy (squeeze s).
Proof. unfold Py.strip. by rewrite lstrip_truthy, squeeze_rstrip. Qed.

Lemma split_no_sep x s : Py.count x s = 0%Z -> Py.split x s = [s].
Proof.
  assert (Hnn : forall t, (0 <= Py.count x t)%Z).
  { induction t as [|c t IH]; simpl; [lia|]. destruct (Ascii.eqb c x); lia. }
  induction s as [|c s IH]; simpl; [done|].
  pose proof (Hnn s). destruct (Ascii.eqb c x); [lia|].
  intros Hc. by rewrite IH by lia.
Qed.

Lemma split_last_sep x s :
  Py.count x s = 0%Z ->
  Py.split x (s +:+ String x EmptyString) = [s; EmptyString].
Proof.
  assert (Hnn : forall t, (0 <= Py.count x t)%Z).
  { induction t as [|c t IH]; simpl; [lia|]. destruct (Ascii.eqb c x); lia. }
  induction s as [|c s IH]; simpl.
  - by rewrite Ascii.eqb_refl.
  - pose proof (Hnn s). destruct (Ascii.eqb c x); [lia|].
    intros Hc. by rewrite IH by lia.
Qed.

Lemma rstrip_char_snoc x s :
  Py.rstrip_char x (s +:+ String x EmptyString) = Py.rstrip_char x s.
Proof.
  induction s as [|c s IH]; simpl.
  - by rewrite Ascii.eqb_refl.
  - by rewrite IH.
Qed.

Lemma space_not_C c : Py.is_space c = true -> Py.upper_char c ≠ "C"%char.
Proof. destruct c as [[] [] [] [] [] [] [] []]; vm_compute; congruence. Qed.

Lemma create_table_line line :
  Py.startswith (Py.upper line) "CREATE TABLE" = true ->
  exists c l, line = String c l ∧ Py.is_space c = false
              ∧ String.eqb line ";" = false.
Proof.
  destruct line as [|c l]; [done|]. intros H. exists c, l.
  unfold Py.startswith, Py.upper in H.
  change (match ascii_dec "C" (Py.upper_char c) with
          | left _ => String.prefix "REATE TABLE" (Py.map_chars Py.upper_char l)
          | right _ => false
          end = true) in H.
  destruct (ascii_dec "C" (Py.upper_char c)) as [Hc|]; [|done].
  split_and!; [done| |].
  - destruct (Py.is_space c) eqn:Hs; [|done].
    by apply space_not_C in Hs.
  - simpl. destruct (Ascii.eqb c ";") eqn:Hsemi; [|done].
    apply Ascii.eqb_eq in Hsemi. subst c. done.
Qed.

(** ** The two shapes of one statement *)

Lemma reassemble_continue rest :
  forall cur depth,
    Forall continuation rest -> stays_open depth rest ->
    exists b d,
      foldl reassemble_item (Reassembly [] cur true depth) (JStr <$> rest)
      = Reassembly [] (foldl (fun acc f => acc +:+ " " +:+ Py.strip f) cur rest) b d.
Proof.
  induction rest as [|f rest IH]; intros cur depth Hall Hopen.
  { by exists true, depth. }
  apply Forall_cons in Hall as [(Ht & Hsemi & Hct) Hall].
  assert (Hstep : reassemble_item (Reassembly [] cur true depth) (JStr f)
                  = Reassembly [] (cur +:+ " " +:+ Py.strip f)
                      (if decide (depth + paren_balance (Py.strip f) <= 0)%Z
                       then false else true)
                      (depth + paren_balance (Py.strip f))).
  { unfold reassemble_item. rewrite Ht, Hsemi, Hct. done. }
  rewrite fmap_cons. cbn [foldl]. rewrite Hstep.
  destruct rest as [|f' rest'].
  { simpl. eauto. }
  destruct Hopen as [Hpos Hopen].
  rewrite decide_False by lia. by apply IH.
Qed.

Lemma append_cons x a b : String x a +:+ b = String x (a +:+ b).
Proof. reflexivity. Qed.

Lemma append_nil_r s : s +:+ EmptyString = s.
Proof. induction s as [|c s IH]; [done|]. by rewrite append_cons, IH. Qed.

Lemma append_assoc a b c : (a +:+ b) +:+ c = a +:+ (b +:+ c).
Proof. induction a as [|x a IH]; [done|]. by rewrite !append_cons, IH. Qed.

Lemma squeeze_spaced cur rest :
  squeeze (foldl (fun acc f => acc +:+ " " +:+ Py.strip f) cur rest)
  = squeeze cur +:+ squeeze (pre_joined rest).
Proof.
  revert cur. induction rest as [|f rest IH]; intros cur; simpl.
  - by rewrite append_nil_r.
  - rewrite IH, !squeeze_app, squeeze_strip. simpl.
    by rewrite append_assoc.
Qed.

(** The flat-list reassembler and the split of the pre-joined text do not
    give the same statement on the three fragments of the design document. *)
Lemma shape_equivalence_counterexample :
  Done (reassemble_ai_ddl_statements fragments_t)
  ≠ extract_ddl_statements joined_t.
Proof. vm_compute. discriminate. Qed.

(** C2, as the code has it.  The fragments of one [CREATE TABLE] statement
    (the first starts the statement, the others continue it, the parentheses
    stay open until the last one, and the only semicolon ends the text) are
    reassembled into one statement, and the split of the text made of the
    same fragments gives one statement; the two are the same up to white
    space and the terminating semicolon.  On the three fragments of the
    design document the reassembler gives [CREATE TABLE t ( id INT );] and
    the split gives [CREATE TABLE t (id INT)]. *)
Theorem shape_equivalence_up_to_space (first : string) (rest : list string)
    (body : string) :
  Py.startswith (Py.upper (Py.strip first)) "CREATE TABLE" = true ->
  Forall continuation rest ->
  stays_open (paren_balance (Py.strip first)) rest ->
  pre_joined (first :: rest) = body +:+ ";" ->
  Py.count ";" body = 0%Z ->
  (exists s1 s2,
     reassemble_ai_ddl_statements (JList (JStr <$> first :: rest)) = [s1]
     ∧ extract_ddl_statements (JStr (pre_joined (first :: rest))) = Done [s2]
     ∧ statement_core s1 = statement_core s2)
  ∧ reassemble_ai_ddl_statements fragments_t = ["CREATE TABLE t ( id INT );"]
  ∧ extract_ddl_statements joined_t = Done ["CREATE TABLE t (id INT)"].
Proof.
  intros Hfirst Hrest Hopen Hjoin Hsemi.
  split; [|split; vm_compute; reflexivity].
  destruct (create_table_line _ Hfirst) as (c & l & Hline & Hc & Hns).
  (* the reassembler *)
  assert (Hstart : reassemble_item (Reassembly [] EmptyString false 0) (JStr first)
                   = Reassembly [] (Py.strip first) true
                       (paren_balance (Py.strip first))).
  { unfold reassemble_item. rewrite Hns, Hfirst, Hline. done. }
  destruct (reassemble_continue rest (Py.strip first)
              (paren_balance (Py.strip first)) Hrest Hopen) as (b & d & Hloop).
  assert (Hsq : squeeze (spaced first rest)
                = squeeze (pre_joined (first :: rest))).
  { unfold spaced. rewrite squeeze_spaced. simpl.
    by rewrite squeeze_app, squeeze_strip. }
  assert (Hhead : exists t, squeeze (pre_joined (first :: rest)) = String c t).
  { simpl. rewrite squeeze_app, <- (squeeze_strip first), Hline. simpl.
    rewrite Hc. rewrite append_cons. eauto. }
  destruct Hhead as [t Hhead].
  exists (Py.strip (spaced first rest)), (Py.strip body). split_and!.
  - unfold reassemble_ai_ddl_statements. rewrite fmap_cons. cbn [foldl].
    rewrite Hstart, Hloop. cbn [statements current_statement].
    unfold flush. fold (spaced first rest).
    by rewrite strip_truthy, Hsq, Hhead.
  - unfold extract_ddl_statements. rewrite Hjoin.
    rewrite (split_last_sep ";" body Hsemi). simpl.
    assert (Htb : Py.truthy (Py.strip body) = true).
    { rewrite strip_truthy. rewrite Hjoin, squeeze_app in Hhead. simpl in Hhead.
      destruct (squeeze body); [|done]. simpl in Hhead.
      injection Hhead as <- _. exfalso.
      rewrite Hline in Hfirst. unfold Py.startswith, Py.upper in Hfirst.
      by vm_compute in Hfirst. }
    rewrite filter_cons_True by done. by rewrite filter_cons_False.
  - unfold statement_core. rewrite !squeeze_strip, Hsq, Hjoin, squeeze_app.
    simpl. apply rstrip_char_snoc.
Qed.

Lemma shape_equivalence_up_to_space_witness :
  (exists s1 s2,
     reassemble_ai_ddl_statements
       (JList (JStr <$> ["CREATE TABLE t ("; "id INT"; ");"])) = [s1]
     ∧ extract_ddl_statements
         (JStr (pre_joined ["CREATE TABLE t ("; "id INT"; ");"])) = Done [s2]
     ∧ statement_core s1 = statement_core s2)
  ∧ reassemble_ai_ddl_statements fragments_t = ["CREATE TABLE t ( id INT );"]
  ∧ extract_ddl_statements joined_t = Done ["CREATE TABLE t (id INT)"].
Proof.
  apply (shape_equivalence_up_to_space "CREATE TABLE t (" ["id INT"; ");"]
           "CREATE TABLE t (id INT)").
  - vm_compute. reflexivity.
  - repeat constructor.
  - vm_compute. split; [reflexivity|exact I].
  - vm_compute. reflexivity.
  - vm_compute. reflexivity.
Defined.

(** * Further properties of the pipeline *)

(** ** Dependency Sequencer *)

Lemma dict_get_set {V : Type} (d : list (string * V)) k v n :
  Dict.get (Dict.set k v d) n = if decide (n = k) then Some v else Dict.get d n.
Proof.
  induction d as [|[k' v'] d IH]; simpl.
  - done.
  - destruct (decide (k = k')) as [<-|Hne]; simpl.
    + by destruct (decide (n = k)).
    + rewrite IH. destruct (decide (n = k')) as [->|]; [|done].
      by rewrite decide_False by done.
Qed.

Lemma last_named_snoc n ts t :
  last_named n (ts ++ [t])
  = if decide (n = name t) then Some t else last_named n ts.
Proof.
  unfold last_named. rewrite filter_app, filter_cons, filter_nil.
  destruct (decide (n = name t)) as [->|Hne].
  - rewrite decide_True by done. by rewrite last_snoc.
  - rewrite decide_False by done. by rewrite app_nil_r.
Qed.

Lemma last_named_Some n ts t :
  last_named n ts = Some t -> t ∈ ts ∧ name t = n.
Proof.
  unfold last_named. intros H%last_Some_elem_of.
  by apply list_elem_of_filter in H as [? ?].
Qed.

Lemma last_named_is_Some n ts :
  is_Some (last_named n ts) <-> n ∈ name <$> ts.
Proof.
  induction ts as [|t ts IH] using rev_ind.
  - split; [by intros [? ?]|by intros ?%elem_of_nil].
  - rewrite last_named_snoc, fmap_app. simpl.
    destruct (decide (n = name t)) as [->|Hne].
    + split; [set_solver|by eexists].
    + rewrite IH. set_solver.
Qed.

Lemma index_tables_get tables n :
  Dict.get (index_tables tables).1 n = last_named n (records tables).
Proof.
  induction tables as [|x l IH] using rev_ind; [done|].
  rewrite records_app, index_tables_snoc. destruct x as [t|]; simpl.
  - by rewrite dict_get_set, last_named_snoc, IH.
  - by rewrite app_nil_r.
Qed.

(** On table records, with or without cycles, repeated names and entries that
    are passed over, the sequencer returns.  The names of its result are
    pairwise distinct and are the names of the records of the input, and of
    the records that share a name the result holds the last one. *)
Lemma sort_records_last_wins (tables : list item) :
  exists out,
    sort_tables_by_dependencies tables = Done out
    ∧ NoDup (name <$> out)
    ∧ (forall n, n ∈ name <$> out <-> n ∈ name <$> records tables)
    ∧ Forall (fun t => last_named (name t) (records tables) = Some t) out.
Proof.
  unfold sort_tables_by_dependencies.
  pose proof (index_tables_get tables) as Hget.
  destruct (index_tables tables) as [table_map table_deps]. simpl in *.
  destruct (visit_all_ok table_map table_deps) as (st & -> & Hnd & Hiff & Hall & _).
  { intros k t Hk. rewrite Hget in Hk. by apply last_named_Some in Hk as [_ ?]. }
  simpl. exists (sorted_tables st). split_and!; [done|done| |].
  - intros n. rewrite Hiff, <- last_named_is_Some, <- Hget. split.
    + apply dict_keys_get.
    + intros [t Ht]. by eapply dict_get_Some_keys.
  - eapply Forall_impl; [exact Hall|]. intros t Ht. simpl in Ht. by rewrite <- Hget.
Qed.

(** ** The table sequencer on the entries of a bundle *)

Section KeyedFacts.
Context {V : Type}.
Implicit Types (d : list (Entries.key * V)) (k : Entries.key) (v : V).

Lemma keyed_get_keys d k : is_Some (Entries.get d k) <-> k ∈ d.*1.
Proof.
  induction d as [|[k' v'] d IH]; simpl.
  - split; [by intros [? ?]|by intros ?%elem_of_nil].
  - case_decide; subst; [split; [set_solver|eauto]|].
    rewrite IH. set_solver.
Qed.

Lemma keyed_mem_keys d k : Entries.mem k d = true <-> k ∈ d.*1.
Proof. unfold Entries.mem. by rewrite bool_decide_eq_true, keyed_get_keys. Qed.

Lemma keyed_get_set d k v n :
  Entries.get (Entries.set k v d) n
  = if decide (n = k) then Some v else Entries.get d n.
Proof.
  induction d as [|[k' v'] d IH]; simpl.
  - done.
  - destruct (decide (k = k')) as [<-|Hne]; simpl.
    + by destruct (decide (n = k)).
    + rewrite IH. destruct (decide (n = k')) as [->|]; [|done].
      by rewrite decide_False by done.
Qed.
End KeyedFacts.

Lemma size_keys_le (l : list Entries.key) :
  size (list_to_set l : gset Entries.key) <= length l.
Proof.
  induction l as [|x l IH]; simpl.
  - change (size (∅ : gset Entries.key) <= 0). by rewrite size_empty.
  - change (size ({[x]} ∪ list_to_set l : gset Entries.key) <= S (length l)).
    rewrite size_union_alt, size_singleton.
    assert (size (list_to_set l ∖ {[x]} : gset Entries.key)
            <= size (list_to_set l : gset Entries.key)).
    { apply subseteq_size. set_solver. }
    lia.
Qed.

Section EntriesFacts.
Variable table_map : list (Entries.key * json).
Variable table_deps : gmap Entries.key (list string).

Local Abbreviation K := (list_to_set table_map.*1 : gset Entries.key).
Local Abbreviation go := (Entries.visit table_map table_deps).




Lemma left_enter n st :
  n ∈ K -> n ∉ Entries.visited st -> n ∉ Entries.temp_visited st ->
  left_to_visit table_map (Entries.DfsState (Entries.visited st)
                   ({[n]} ∪ Entries.temp_visited st) (Entries.sorted_tables st))
  < left_to_visit table_map st.
Proof. intros. unfold left_to_visit. simpl. apply subset_size. set_solver. Qed.

Lemma left_mono st st' :
  Entries.visited st ⊆ Entries.visited st' ->
  Entries.temp_visited st' = Entries.temp_visited st ->
  left_to_visit table_map st' <= left_to_visit table_map st.
Proof.
  intros ? Ht. unfold left_to_visit. rewrite Ht. apply subseteq_size. set_solver.
Qed.

Lemma entries_deps_ok fuel :
  (forall n st, n ∈ K -> left_to_visit table_map st < fuel ->
     exists st', go fuel n st = Done st' ∧ step_post table_map (fun k => k = n) st st') ->
  forall ds st, left_to_visit table_map st < fuel ->
  exists st',
    for_each ds
      (fun dep s =>
         if Entries.mem (Entries.KStr dep) table_map
         then go fuel (Entries.KStr dep) s else Done s) st
    = Done st' ∧ step_post table_map (fun _ => False) st st'.
Proof.
  intros IH ds. induction ds as [|d ds IHds]; intros st Hfuel; simpl.
  - exists st. split; [done|]. split_and!; [done|done|done|].
    intros ks ?. exists []. by rewrite app_nil_r.
  - destruct (Entries.mem (Entries.KStr d) table_map) eqn:Hmem.
    + apply keyed_mem_keys in Hmem.
      destruct (IH (Entries.KStr d) st) as (st1 & -> & Ht1 & Hv1 & _ & Hi1);
        [set_solver|done|].
      simpl.
      destruct (IHds st1) as (st2 & -> & Ht2 & Hv2 & _ & Hi2).
      { pose proof (left_mono st st1 Hv1 Ht1). lia. }
      exists st2. split; [done|]. split_and!; [congruence|set_solver|done|].
      intros ks (e1 & He1)%Hi1. apply Hi2 in He1 as (e2 & He2).
      exists (e1 ++ e2). by rewrite app_assoc.
    + simpl. by apply IHds.
Qed.

Lemma entries_visit_ok fuel :
  forall n st, n ∈ K -> left_to_visit table_map st < fuel ->
  exists st', go fuel n st = Done st' ∧ step_post table_map (fun k => k = n) st st'.
Proof.
  induction fuel as [|fuel IH]; intros n st Hn Hfuel; [lia|].
  simpl. destruct (decide (n ∈ Entries.temp_visited st)) as [Htemp|Htemp].
  { exists st. split; [done|]. split_and!; [done|done|by intros ? ->; left|].
    intros ks ?. exists []. by rewrite app_nil_r. }
  destruct (decide (n ∈ Entries.visited st)) as [Hvis|Hvis].
  { exists st. split; [done|]. split_and!; [done|done|by intros ? ->; right|].
    intros ks ?. exists []. by rewrite app_nil_r. }
  set (st1 := Entries.DfsState (Entries.visited st)
                ({[n]} ∪ Entries.temp_visited st) (Entries.sorted_tables st)).
  destruct (entries_deps_ok fuel IH (default [] (table_deps !! n)) st1)
    as (st2 & -> & Ht2 & Hv2 & _ & Hi2).
  { pose proof (left_enter n st Hn Hvis Htemp). fold st1 in H. lia. }
  simpl in *. unfold Entries.set_remove.
  rewrite decide_True by (rewrite Ht2; set_solver). simpl.
  assert (is_Some (Entries.get table_map n)) as [t Ht].
  { apply keyed_get_keys. set_solver. }
  unfold Entries.item. rewrite Ht. simpl.
  eexists. split; [done|]. split_and!; simpl.
  - rewrite Ht2. set_solver.
  - set_solver.
  - intros ? ->. right. set_solver.
  - intros ks (Hnd & Hiff & Hall & Hdisj).
    destruct (Hi2 ks) as (ext & Hnd2 & Hiff2 & Hall2 & Hdisj2).
    { split_and!; auto. simpl. set_solver. }
    assert (n ∉ Entries.visited st2) by (rewrite Ht2 in Hdisj2; set_solver).
    exists (ext ++ [n]). rewrite app_assoc. split_and!; simpl.
    + apply NoDup_app. split_and!; [done| |apply NoDup_singleton].
      intros k Hk ->%list_elem_of_singleton. by apply Hiff2 in Hk.
    + intros k. rewrite elem_of_app, list_elem_of_singleton, Hiff2. set_solver.
    + apply Forall2_app; [done|]. by constructor.
    + rewrite Ht2 in Hdisj2 |- *. set_solver.
Qed.

Lemma left_bound st : left_to_visit table_map st <= length table_map.
Proof.
  unfold left_to_visit. etrans; [apply subseteq_size|].
  { apply subseteq_difference_l. reflexivity. }
  etrans; [apply size_keys_le|]. by rewrite length_fmap.
Qed.

Lemma entries_each_ok fuel ks0 st emitted :
  length table_map < fuel ->
  (forall k, k ∈ ks0 -> k ∈ K) ->
  Entries.temp_visited st = ∅ -> emitted_keys table_map st emitted ->
  exists st' ext,
    for_each ks0
      (fun table_name s =>
         if decide (table_name ∈ Entries.visited s) then Done s
         else go fuel table_name s)
      st = Done st'
    ∧ Entries.temp_visited st' = ∅
    ∧ emitted_keys table_map st' (emitted ++ ext)
    ∧ (forall k, k ∈ Entries.visited st ∨ k ∈ ks0 -> k ∈ Entries.visited st').
Proof.
  intros Hfuel. revert st emitted.
  induction ks0 as [|k ks0 IH]; intros st emitted Hks Htemp Hinv; simpl.
  - exists st, []. rewrite app_nil_r. split_and!; auto.
    intros k [?|?%elem_of_nil]; done.
  - destruct (decide (k ∈ Entries.visited st)) as [Hk|Hk]; simpl.
    + destruct (IH st emitted) as (st' & ext & -> & ? & ? & Hv); auto.
      { intros. apply Hks. set_solver. }
      exists st', ext. split_and!; auto.
      intros k' [?|[->|?]%elem_of_cons]; apply Hv; auto.
    + destruct (entries_visit_ok fuel k st) as (st1 & -> & Ht1 & Hv1 & Hd1 & Hi1).
      { apply Hks. set_solver. }
      { pose proof (left_bound st). lia. }
      simpl. destruct (Hi1 _ Hinv) as (e1 & He1).
      destruct (IH st1 (emitted ++ e1)) as (st' & ext & -> & ? & ? & Hv); auto.
      { intros. apply Hks. set_solver. }
      { congruence. }
      exists st', (e1 ++ ext). rewrite app_assoc. split_and!; auto.
      intros k' [?|[->|?]%elem_of_cons]; apply Hv; auto.
      left. destruct (Hd1 _ eq_refl) as [Hd|Hd]; [|done].
      rewrite Htemp in Hd. set_solver.
Qed.

(** The traversal returns, and its result holds the table of every key of
    [table_map] exactly once. *)
Lemma entries_visit_all_ok :
  exists st ks,
    Entries.visit_all table_map table_deps (S (length table_map)) = Done st
    ∧ NoDup ks
    ∧ (forall k, k ∈ ks <-> k ∈ table_map.*1)
    ∧ Forall2 (fun k t => Entries.get table_map k = Some t) ks
              (Entries.sorted_tables st).
Proof.
  unfold Entries.visit_all.
  destruct (entries_each_ok (S (length table_map)) table_map.*1
              (Entries.DfsState ∅ ∅ []) [])
    as (st & ks & Hrun & _ & (Hnd & Hiff & Hall & _) & Hv).
  - lia.
  - intros k ?. set_solver.
  - done.
  - split_and!; simpl; [constructor|set_solver|constructor|set_solver].
  - exists st, ks. simpl in *. split_and!; auto.
    intros k. split.
    + intros Hk. 
      apply list_elem_of_lookup in Hk as [i Hi].
      destruct (Forall2_lookup_l _ _ _ _ _ Hall Hi) as (t & _ & Ht).
      apply keyed_get_keys. by eexists.
    + intros Hk. apply Hiff, Hv. by right.
Qed.
End EntriesFacts.



Lemma last_filed_cons k t tables :
  last_filed k (t :: tables)
  = match last_filed k tables with
    | Some x => Some x
    | None => if decide (filed t = Done (Some k)) then Some t else None
    end.
Proof.
  unfold last_filed. rewrite filter_cons.
  destruct (decide (filed t = Done (Some k))); [|by destruct (last _)].
  destruct (filter _ tables) as [|y l] eqn:Hf; [done|].
  rewrite last_cons. by destruct (last (y :: l)) eqn:Hl.
Qed.

Lemma index_tables_from tables :
  forall acc,
  match first_error tables with
  | Some e => for_each tables Entries.index_table acc = Raise e
  | None =>
      exists table_map table_deps,
        for_each tables Entries.index_table acc = Done (table_map, table_deps)
        ∧ forall k, Entries.get table_map k
                    = match last_filed k tables with
                      | Some t => Some t
                      | None => Entries.get acc.1 k
                      end
  end.
Proof.
  induction tables as [|t tables IH]; intros acc.
  - simpl. exists acc.1, acc.2. by destruct acc.
  - simpl. 
    assert (Hstep :
      match filed t with
      | Done (Some k) =>
          exists td, Entries.index_table t acc = Done (Entries.set k t acc.1, td)
      | Done None => Entries.index_table t acc = Done acc
      | Raise e => Entries.index_table t acc = Raise e
      | OutOfFuel => False
      end).
    { unfold filed, Entries.index_table. destruct t as [| | | | |d]; try done.
      destruct (Dict.get d "name") as [n|]; [|done].
      destruct (Dict.get d "ddl") as [v|]; [|done].
      destruct (Entries.key_of n) as [k| |] eqn:Hk; simpl; [|done|by destruct n].
      destruct (Entries.lower_of v) as [l| |] eqn:Hl; simpl; [|done|by destruct v].
      by eexists. }
    destruct (filed t) as [[k|]|e|] eqn:Hf; [| |by rewrite Hstep|done].
    + destruct Hstep as [td ->]. simpl. specialize (IH (Entries.set k t acc.1, td)).
      destruct (first_error tables) as [e|]; [done|].
      destruct IH as (tm & td' & -> & Hget). exists tm, td'. split; [done|].
      intros k'. rewrite Hget, last_filed_cons. simpl.
      destruct (last_filed k' tables); [done|].
      rewrite keyed_get_set.
      destruct (decide (k' = k)) as [->|Hne].
      * by rewrite decide_True by done.
      * rewrite decide_False; [done|]. congruence.
    + rewrite Hstep. simpl. specialize (IH acc).
      destruct (first_error tables) as [e|]; [done|].
      destruct IH as (tm & td' & -> & Hget). exists tm, td'. split; [done|].
      intros k'. rewrite Hget, last_filed_cons.
      destruct (last_filed k' tables); [done|].
      rewrite decide_False; [done|]. congruence.
Qed.

(** X1. [sort_tables_by_dependencies], on the entries of a [tables] list as
    JSON gives them, returns unless an entry that carries both keys has a
    name that cannot be a key (a list or a dict) or a DDL that is no string,
    which has no [lower]: it then raises the error of the first such entry.
    When it returns, whatever the cycles, the repeated names and the entries
    that are no table records, its result holds one entry for each key under
    which an entry was filed, and of the entries filed under one key the
    last. *)
Theorem sort_tables_last_wins (tables : list json) :
  match first_error tables with
  | Some e => Entries.sort_tables_by_dependencies tables = Raise e
  | None =>
      exists out ks,
        Entries.sort_tables_by_dependencies tables = Done out
        ∧ NoDup ks
        ∧ (forall k, k ∈ ks <-> is_Some (last_filed k tables))
        ∧ Forall2 (fun k table => last_filed k tables = Some table) ks out
  end
  ∧ Entries.sort_tables_by_dependencies
      [JDict [("name", JStr "t"); ("ddl", JNull)]]
    = Raise (Exception "'NoneType' object has no attribute 'lower'")
  ∧ Entries.sort_tables_by_dependencies
      [JDict [("name", JList []); ("ddl", JStr "CREATE TABLE t (id INT)")]]
    = Raise (Exception "unhashable type: 'list'").
Proof.
  split; [|by vm_compute].
  unfold Entries.sort_tables_by_dependencies, Entries.index_tables.
  pose proof (index_tables_from tables ([], ∅)) as Hidx.
  destruct (first_error tables) as [e|]; [by rewrite Hidx|].
  destruct Hidx as (table_map & table_deps & -> & Hget). simpl.
  destruct (entries_visit_all_ok table_map table_deps)
    as (st & ks & -> & Hnd & Hiff & Hall).
  simpl. exists (Entries.sorted_tables st), ks.
  assert (Hlast : forall k, Entries.get table_map k = last_filed k tables).
  { intros k. rewrite Hget. by destruct (last_filed k tables). }
  split_and!; [done|done| |].
  - intros k. by rewrite Hiff, <- keyed_get_keys, Hlast.
  - eapply Forall2_impl; [exact Hall|]. intros k t. simpl. by rewrite Hlast.
Qed.

Section Ordered.
Variable table_map : list (string * table).
Variable table_deps : gmap string (list string).

Lemma visit_unfold fuel n st :
  visit table_map table_deps (S fuel) n st
  = if decide (n ∈ temp_visited st) then Done st
    else if decide (n ∈ visited st) then Done st
    else
      let st1 := DfsState (visited st) ({[n]} ∪ temp_visited st)
                          (sorted_tables st) in
      st2 ← for_each (default [] (table_deps !! n))
              (fun dep s =>
                 if Dict.mem dep table_map
                 then visit table_map table_deps fuel dep s else Done s)
              st1;
      temp ← set_remove n (temp_visited st2);
      t ← Dict.item table_map n;
      Done (DfsState ({[n]} ∪ visited st2) temp (sorted_tables st2 ++ [t])).
Proof. reflexivity. Qed.

Lemma visit_seen fuel n st :
  n ∈ visited st ->
  visit table_map table_deps (S fuel) n st = Done st.
Proof.
  intros Hn. simpl. destruct (decide (n ∈ temp_visited st)); [done|].
  by rewrite decide_True.
Qed.

Lemma visit_deps_seen fuel ds st :
  (forall d, d ∈ ds -> Dict.mem d table_map = true -> d ∈ visited st) ->
  for_each ds
    (fun dep s =>
       if Dict.mem dep table_map then visit table_map table_deps (S fuel) dep s
       else Done s) st
  = Done st.
Proof.
  induction ds as [|d ds IH]; intros Hds; [done|]. cbn -[visit].
  destruct (Dict.mem d table_map) eqn:Hd.
  - rewrite visit_seen by (apply Hds; [left|done]). cbn -[visit].
    apply IH. intros d' ? ?. apply Hds; [by right|done].
  - cbn -[visit]. apply IH. intros d' ? ?. apply Hds; [by right|done].
Qed.
End Ordered.

(** On an input that is in order already, every visit finds the referenced
    tables visited and appends the table at once. *)
Lemma sort_tables_ordered_fixed (ts : list table) :
  NoDup (name <$> ts) ->
  referenced_first ts ts ->
  sort_tables_by_dependencies (ITable <$> ts) = Done ts.
Proof.
  intros Hnd Hord. unfold sort_tables_by_dependencies.
  pose proof (index_tables_distinct (ITable <$> ts)) as Hidx.
  rewrite records_ITable in Hidx. destruct (Hidx Hnd) as (Hmap & Hdeps & _).
  destruct (index_tables (ITable <$> ts)) as [table_map table_deps]. simpl in *.
  assert (Hkeys : Dict.keys table_map = name <$> ts).
  { rewrite Hmap. unfold Dict.keys. by rewrite <- list_fmap_compose. }
  assert (Hget : forall t, t ∈ ts -> Dict.get table_map (name t) = Some t).
  { intros t Ht. apply dict_get_elem_of; [by rewrite Hkeys|].
    rewrite Hmap. by apply (list_elem_of_fmap_2 (fun t => (name t, t))). }
  assert (Hlen : length table_map = length ts).
  { by rewrite Hmap, length_fmap. }
  unfold visit_all. rewrite Hkeys, Hlen.
  assert (Hgo : forall l2 l1 st, ts = l1 ++ l2 ->
            visited st = list_to_set (name <$> l1) ->
            temp_visited st = ∅ -> sorted_tables st = l1 ->
            exists st',
              for_each (name <$> l2)
                (fun table_name s =>
                   if decide (table_name ∈ visited s) then Done s
                   else visit table_map table_deps (S (length ts)) table_name s) st
              = Done st' ∧ sorted_tables st' = ts).
  { induction l2 as [|t l2 IH]; intros l1 st Hts Hv Htmp Hs.
    - exists st. rewrite app_nil_r in Hts. by subst.
    - cbn -[visit]. assert (Ht : t ∈ ts) by (rewrite Hts; set_solver).
      assert (Hfresh : name t ∉ visited st).
      { rewrite Hv, elem_of_list_to_set. intros Hin.
        rewrite Hts, fmap_app in Hnd. apply NoDup_app in Hnd as (_ & Hdis & _).
        apply (Hdis _ Hin). simpl. left. }
      rewrite decide_False by done.
      destruct (length ts) as [|k] eqn:Hk.
      { destruct ts; [by apply elem_of_nil in Ht|done]. }
      rewrite visit_unfold.
      rewrite decide_False by (rewrite Htmp; set_solver).
      rewrite decide_False by done.
      rewrite (Hdeps t Ht). cbn -[visit].
      rewrite visit_deps_seen; cycle 1.
      { cbn. intros d Hd Hmem. rewrite Hv, elem_of_list_to_set.
        apply (Hord l1 t l2 Hts d Hd).
        apply dict_mem_keys in Hmem. by rewrite Hkeys in Hmem. }
      cbn -[visit]. unfold set_remove. rewrite decide_True by set_solver.
      cbn -[visit]. unfold Dict.item. rewrite (Hget t Ht). cbn -[visit].
      apply (IH (l1 ++ [t])); cbn.
      + by rewrite <- app_assoc.
      + rewrite Hv, fmap_app. simpl. set_solver.
      + rewrite Htmp. set_solver.
      + by rewrite Hs. }
  destruct (Hgo ts [] (DfsState ∅ ∅ [])) as (st' & -> & Hs); try done.
  simpl. by rewrite Hs.
Qed.

(** X2. An input with distinct names in which every record comes after the
    records it references is returned as it is. *)
Theorem sort_tables_keeps_ordered (ts : list table) :
  NoDup (name <$> ts) ->
  referenced_first ts ts ->
  sort_tables_by_dependencies (ITable <$> ts) = Done ts.
Proof. apply sort_tables_ordered_fixed. Qed.

Lemma sort_tables_keeps_ordered_witness :
  sort_tables_by_dependencies (ITable <$> [customers_demo; orders_demo])
  = Done [customers_demo; orders_demo].
Proof.
  apply sort_tables_keeps_ordered.
  - repeat constructor; set_solver.
  - intros l1 t l2 Heq d Hd Hin.
    assert (Hc : fk_matches (ddl customers_demo) = []) by (by vm_compute).
    assert (Ho : fk_matches (ddl orders_demo) = ["customers"]) by (by vm_compute).
    destruct l1 as [|t1 [|t2 l1]]; cbn [app] in Heq.
    + injection Heq as <- _. rewrite Hc in Hd. by apply elem_of_nil in Hd.
    + injection Heq as <- <- _. rewrite Ho in Hd.
      apply list_elem_of_singleton in Hd as ->.
      apply list_elem_of_singleton. reflexivity.
    + injection Heq as _ _ Heq. by destruct l1.
Defined.

(** X3. Sorting is idempotent: on an input with distinct names and no cycle,
    sorting the result again gives the same list. *)
Theorem sort_tables_idempotent (tables : list item) (out : list table) :
  NoDup (name <$> records tables) ->
  acyclic_refs (records tables) ->
  sort_tables_by_dependencies tables = Done out ->
  sort_tables_by_dependencies (ITable <$> out) = Done out.
Proof.
  intros Hnd Hac Hrun.
  destruct (sort_tables_distinct tables Hnd) as (out' & Hrun' & Hperm & Hord).
  rewrite Hrun in Hrun'. injection Hrun' as <-.
  apply sort_tables_ordered_fixed.
  - by rewrite Hperm.
  - intros l1 t l2 Heq d Hd Hin. eapply (Hord Hac); [done|done|].
    by rewrite <- Hperm.
Qed.

Lemma sort_tables_idempotent_witness :
  sort_tables_by_dependencies (ITable <$> [customers_demo; orders_demo])
  = Done [customers_demo; orders_demo].
Proof.
  apply (sort_tables_idempotent [ITable orders_demo; ITable customers_demo]).
  - repeat constructor; set_solver.
  - exact demo_refs_acyclic.
  - by vm_compute.
Defined.

Lemma table_other_partition (stmts : list string) :
  table_stmts stmts ++ other_stmts stmts ≡ₚ stmts.
Proof.
  unfold table_stmts, other_stmts. induction stmts as [|s l IH]; [done|].
  rewrite !filter_cons. destruct (parse_statement s) as [ti|] eqn:Hs.
  - rewrite decide_True by (by eexists). rewrite decide_False by done.
    simpl. by rewrite IH.
  - rewrite decide_False by (by intros [? ?]). rewrite decide_True by done.
    rewrite <- Permutation_middle. by rewrite IH.
Qed.

(** X4. [sort_ddl_statements_by_dependencies] returns on every input.  Its
    result ends with the statements that are no table statements, in the
    order of the input; before them come table statements of the input,
    exactly one for each word that the sequencer reads as a table name, which
    is the word after [CREATE TABLE], lower-cased ([creates]).  Statements
    that share this word are reduced to one of them, also when they create
    different tables: of two statements for tables of the schema [public]
    the word is [public] for both, and the second one is not returned. *)
Theorem sort_ddl_tables_then_others (stmts : list string) :
  (exists tables_out,
     sort_ddl_statements_by_dependencies stmts
     = Done (tables_out ++ other_stmts stmts)
     ∧ Forall (fun s => s ∈ table_stmts stmts) tables_out
     ∧ NoDup (omap creates tables_out)
     ∧ (forall d, created_in tables_out d <-> created_in stmts d))
  ∧ creates "CREATE TABLE public.a (id INT)" = Some "public"
  ∧ creates "CREATE TABLE public.b (id INT)" = Some "public"
  ∧ sort_ddl_statements_by_dependencies
      ["CREATE TABLE public.a (id INT)"; "CREATE TABLE public.b (id INT)"]
    = Done ["CREATE TABLE public.a (id INT)"].
Proof.
  split; [|by vm_compute].
  destruct (sort_statements_ok stmts) as (out & Hrun & Hall & Hnd & Hiff & _).
  by exists out.
Qed.

(** X5. When no two statements of the input carry the same word after
    [CREATE TABLE], as the sequencer reads it ([creates]: the word that
    follows, lower-cased, so [if] for [CREATE TABLE IF NOT EXISTS] and the
    schema for a qualified name), the result of
    [sort_ddl_statements_by_dependencies] is a rearrangement of the input: no
    statement is lost and none is repeated. *)
Theorem sort_ddl_permutation (stmts : list string) :
  NoDup (omap creates stmts) ->
  exists out,
    sort_ddl_statements_by_dependencies stmts = Done out ∧ out ≡ₚ stmts.
Proof.
  intros Hnd.
  destruct (sort_statements_ok stmts) as (out & Hrun & _ & _ & _ & _ & Hperm).
  exists (out ++ other_stmts stmts). split; [done|].
  rewrite (Hperm Hnd). apply table_other_partition.
Qed.

Lemma sort_ddl_permutation_witness :
  exists out,
    sort_ddl_statements_by_dependencies
      ["CREATE INDEX i ON orders(customer_id)"; orders_stmt; customers_stmt]
    = Done out
    ∧ out ≡ₚ ["CREATE INDEX i ON orders(customer_id)"; orders_stmt; customers_stmt].
Proof.
  apply sort_ddl_permutation.
  assert (H : omap creates
                ["CREATE INDEX i ON orders(customer_id)"; orders_stmt; customers_stmt]
              = ["orders"; "customers"]) by (by vm_compute).
  rewrite H. repeat constructor; set_solver.
Defined.

(** ** Statement reassembly and extraction *)

Lemma rstrip_space_head c s :
  Py.is_space c = true -> Py.rstrip (String c s) =
    match Py.rstrip s with EmptyString => EmptyString | r => String c r end.
Proof. intros Hc. simpl. rewrite Hc. by destruct (Py.rstrip s). Qed.

Lemma rstrip_nonspace_head c s :
  Py.is_space c = false -> Py.rstrip (String c s) = String c (Py.rstrip s).
Proof. intros Hc. simpl. rewrite Hc. by destruct (Py.rstrip s). Qed.

Lemma rstrip_rstrip s : Py.rstrip (Py.rstrip s) = Py.rstrip s.
Proof.
  induction s as [|c s IH]; [done|].
  destruct (Py.is_space c) eqn:Hc.
  - rewrite rstrip_space_head by done.
    destruct (Py.rstrip s) as [|c' r] eqn:Hr; [done|].
    rewrite rstrip_space_head by done. by rewrite IH.
  - rewrite !rstrip_nonspace_head by done. by rewrite IH.
Qed.

Lemma lstrip_lstrip s : Py.lstrip (Py.lstrip s) = Py.lstrip s.
Proof.
  induction s as [|c s IH]; [done|]. simpl.
  destruct (Py.is_space c) eqn:Hc; [done|]. simpl. by rewrite Hc.
Qed.

Lemma rstrip_lstrip s : Py.rstrip (Py.lstrip s) = Py.lstrip (Py.rstrip s).
Proof.
  induction s as [|c s IH]; [done|].
  destruct (Py.is_space c) eqn:Hc.
  - rewrite rstrip_space_head by done. cbn [Py.lstrip]. rewrite Hc, IH.
    destruct (Py.rstrip s) as [|c' r]; [done|]. cbn [Py.lstrip]. by rewrite Hc.
  - rewrite rstrip_nonspace_head by done. cbn [Py.lstrip]. rewrite Hc.
    by rewrite rstrip_nonspace_head.
Qed.

Lemma strip_strip s : Py.strip (Py.strip s) = Py.strip s.
Proof.
  unfold Py.strip. by rewrite rstrip_lstrip, rstrip_rstrip, lstrip_lstrip.
Qed.

Lemma flush_trimmed st cur :
  Forall trimmed st -> Forall trimmed (flush st cur).
Proof.
  intros Hst. unfold flush. destruct (Py.truthy (Py.strip cur)) eqn:Hc; [|done].
  apply Forall_app. split; [done|]. constructor; [|done].
  split; [done|apply strip_strip].
Qed.

Lemma reassemble_item_trimmed r it :
  Forall trimmed (statements r) -> Forall trimmed (statements (reassemble_item r it)).
Proof.
  intros Hr. destruct it as [| | |text| |]; try done. simpl.
  repeat case_match; simpl; auto using flush_trimmed.
Qed.

(** X6. Every statement that [reassemble_ai_ddl_statements] returns is not
    empty and has no white space around it, whatever the input. *)
Theorem reassemble_statements_trimmed (ddl_list : json) :
  Forall trimmed (reassemble_ai_ddl_statements ddl_list).
Proof.
  destruct ddl_list as [| | | |items|]; try by constructor.
  unfold reassemble_ai_ddl_statements. apply flush_trimmed.
  assert (H : forall r, Forall trimmed (statements r) ->
            Forall trimmed (statements (foldl reassemble_item r items))).
  { induction items as [|it items IH]; intros r Hr; [done|].
    simpl. apply IH. by apply reassemble_item_trimmed. }
  apply H. constructor.
Qed.

Lemma create_table_not_blank line :
  Py.startswith (Py.upper line) "CREATE TABLE" = true ->
  negb (Py.truthy line) || String.eqb line ";" = false.
Proof.
  destruct line as [|c line]; [done|]. simpl.
  destruct line as [|c' line].
  - intros H. destruct (Ascii.eqb c ";") eqn:Hc; [|done].
    apply Ascii.eqb_eq in Hc as ->. done.
  - intros _. destruct (Ascii.eqb c ";"); done.
Qed.

Lemma reassemble_standalone_step r text :
  in_create_table r = false -> continuation text ->
  let r' := reassemble_item r (JStr text) in
  in_create_table r' = false ∧ finish r' = finish r ++ [Py.strip text].
Proof.
  intros Hin (Ht & Hsemi & Hct). simpl. rewrite Ht, Hsemi, Hct, Hin. simpl.
  split; [done|]. unfold finish. simpl. unfold flush at 1.
  by rewrite strip_strip, Ht.
Qed.

(** X7. A list of string items none of which is blank, a lone semicolon or the
    start of a [CREATE TABLE] comes back item by item, each one stripped. *)
Theorem reassemble_standalone_lines (texts : list string) :
  Forall continuation texts ->
  reassemble_ai_ddl_statements (JList (JStr <$> texts)) = Py.strip <$> texts.
Proof.
  intros Hall. unfold reassemble_ai_ddl_statements.
  change (flush (statements ?r) (current_statement ?r)) with (finish r).
  assert (H : forall r, in_create_table r = false ->
            finish (foldl reassemble_item r (JStr <$> texts))
            = finish r ++ (Py.strip <$> texts)).
  { induction Hall as [|t texts Ht Hall IH]; intros r Hr.
    - by rewrite app_nil_r.
    - rewrite fmap_cons. cbn [foldl].
      destruct (reassemble_standalone_step r t Hr Ht) as [Hr' Hf].
      rewrite IH by done. rewrite Hf, fmap_cons. by rewrite <- app_assoc. }
  by rewrite H.
Qed.

Lemma reassemble_standalone_lines_witness :
  reassemble_ai_ddl_statements
    (JList (JStr <$> ["DROP TABLE a;"; "  CREATE INDEX i ON t (c) "]))
  = Py.strip <$> ["DROP TABLE a;"; "  CREATE INDEX i ON t (c) "].
Proof.
  apply reassemble_standalone_lines.
  repeat constructor.
Defined.

Lemma first_item_statements a :
  statements (reassemble_item (Reassembly [] EmptyString false 0) a) = [].
Proof.
  destruct a as [| | |text| |]; try done. simpl. repeat case_match; done.
Qed.

(** X8. An item that starts a [CREATE TABLE] replaces the statement being
    assembled without completing it: the first item of a list is lost when
    the second one starts with [CREATE TABLE]. *)
Theorem reassemble_discards_pending (a : json) (b : string) (rest : list json) :
  Py.startswith (Py.upper (Py.strip b)) "CREATE TABLE" = true ->
  reassemble_ai_ddl_statements (JList (a :: JStr b :: rest))
  = reassemble_ai_ddl_statements (JList (JStr b :: rest)).
Proof.
  intros Hb. unfold reassemble_ai_ddl_statements. cbn [foldl].
  assert (Hstep : forall r, reassemble_item r (JStr b)
            = Reassembly (statements r) (Py.strip b) true
                         (paren_balance (Py.strip b))).
  { intros r. simpl. rewrite (create_table_not_blank _ Hb). by rewrite Hb. }
  rewrite !Hstep. by rewrite first_item_statements.
Qed.

Lemma reassemble_discards_pending_witness :
  reassemble_ai_ddl_statements
    (JList [JStr "DROP TABLE t"; JStr "CREATE TABLE t (id INT)"])
  = reassemble_ai_ddl_statements (JList [JStr "CREATE TABLE t (id INT)"]).
Proof.
  apply (reassemble_discards_pending (JStr "DROP TABLE t") "CREATE TABLE t (id INT)" []).
  reflexivity.
Defined.

Lemma count_nonneg x s : (0 <= Py.count x s)%Z.
Proof. induction s as [|c s IH]; simpl; [lia|]. destruct (Ascii.eqb c x); lia. Qed.

Lemma count_lstrip x s : Py.count x s = 0%Z -> Py.count x (Py.lstrip s) = 0%Z.
Proof.
  induction s as [|c s IH]; [done|]. simpl.
  destruct (Py.is_space c); [|done]. intros H. apply IH.
  pose proof (count_nonneg x s). destruct (Ascii.eqb c x); lia.
Qed.

Lemma count_rstrip x s : Py.count x s = 0%Z -> Py.count x (Py.rstrip s) = 0%Z.
Proof.
  induction s as [|c s IH]; [done|]. simpl. intros H.
  pose proof (count_nonneg x s).
  assert (Hc : Ascii.eqb c x = false) by (destruct (Ascii.eqb c x); [lia|done]).
  rewrite Hc in H. specialize (IH ltac:(lia)).
  destruct (Py.rstrip s) as [|c' r] eqn:Hr.
  - destruct (Py.is_space c); [done|]. simpl. by rewrite Hc.
  - simpl in *. by rewrite Hc.
Qed.

Lemma count_strip x s : Py.count x s = 0%Z -> Py.count x (Py.strip s) = 0%Z.
Proof. intros H. unfold Py.strip. by apply count_lstrip, count_rstrip. Qed.

Lemma split_parts x s : Forall (fun p => Py.count x p = 0%Z) (Py.split x s).
Proof.
  induction s as [|c s IH]; simpl.
  - by repeat constructor.
  - destruct (Ascii.eqb c x) eqn:Hc.
    + constructor; [done|exact IH].
    + destruct (Py.split x s) as [|p ps]; [|inversion IH; subst];
        constructor; simpl; rewrite ?Hc; auto; lia.
Qed.

(** X9. On a string, [extract_ddl_statements] returns statements that are not
    empty, have no white space around them and hold no semicolon. *)
Theorem extract_string_statements (text : string) :
  exists l,
    extract_ddl_statements (JStr text) = Done l
    ∧ Forall (fun s => trimmed s ∧ Py.count ";" s = 0%Z) l.
Proof.
  eexists. split; [reflexivity|].
  apply Forall_forall. intros s [Hs Hin]%list_elem_of_filter.
  apply list_elem_of_fmap in Hin as (p & -> & Hp).
  split; [split; [done|apply strip_strip]|].
  apply count_strip. pose proof (split_parts ";" text) as Hall.
  rewrite Forall_forall in Hall. by apply Hall.
Qed.

Lemma split_app_sep x a rest :
  Py.count x a = 0%Z ->
  Py.split x (a +:+ String x rest) = a :: Py.split x rest.
Proof.
  induction a as [|c a IH]; simpl.
  - by rewrite Ascii.eqb_refl.
  - pose proof (count_nonneg x a). destruct (Ascii.eqb c x); [lia|].
    intros Hc. by rewrite IH by lia.
Qed.

Lemma split_join (l : list string) :
  l ≠ [] -> Forall (fun s => Py.count ";" s = 0%Z) l ->
  Py.split ";" (join ";" l) = l.
Proof.
  induction l as [|a l IH]; [done|]. intros _ Hall.
  apply Forall_cons in Hall as [Ha Hl]. destruct l as [|b l].
  - simpl. by apply split_no_sep.
  - change (join ";" (a :: b :: l)) with (a +:+ ";" +:+ join ";" (b :: l)).
    change (";" +:+ join ";" (b :: l)) with (String ";" (join ";" (b :: l))).
    rewrite split_app_sep by done. by rewrite IH.
Qed.

(** X10. Round trip: statements that are not empty, have no white space around
    them and hold no semicolon come back unchanged when they are joined with
    semicolons and the text is given to [extract_ddl_statements]. *)
Theorem extract_join_round_trip (stmts : list string) :
  Forall (fun s => trimmed s ∧ Py.count ";" s = 0%Z) stmts ->
  extract_ddl_statements (JStr (join ";" stmts)) = Done stmts.
Proof.
  intros Hall. simpl. f_equal. destruct stmts as [|a l]; [done|].
  rewrite split_join; [|done|by eapply Forall_impl; [exact Hall|]; intros ? [_ ?]].
  induction Hall as [|s l' [[Ht Hs] _] Hall IH]; [done|].
  rewrite fmap_cons, Hs, filter_cons_True by done. by rewrite IH.
Qed.

Lemma extract_join_round_trip_witness :
  extract_ddl_statements
    (JStr (join ";" ["CREATE TABLE a (id INT)"; "CREATE INDEX i ON a (id)"]))
  = Done ["CREATE TABLE a (id INT)"; "CREATE INDEX i ON a (id)"].
Proof.
  apply extract_join_round_trip. repeat constructor.
Defined.

(** ** Migration Executor: the application of the statements *)

Section ApplyFacts.
Variable W : Type.
Variable db_execute : string -> W -> answer unit * W.
Variable db_commit : W -> answer unit * W.
Variable db_rollback : W -> answer unit * W.
Variable db_close : W -> answer unit * W.
Variable json_loads : string -> answer json.

Local Abbreviation apply_body :=
  (apply_with_cursor W db_execute db_commit db_rollback db_close json_loads).

Lemma apply_outcome ddl_data (st : run_state W) :
  match apply_body ddl_data st with
  | (Ok b, st') =>
      b = true
      ∧ exists execs,
          trace st' = trace st ++ execs ++ [Commit; CloseCursor]
          ∧ Forall is_execute execs
  | (Err e, st') =>
      exists e0 execs evs,
        e = failed_to_apply e0
        ∧ trace st' = trace st ++ evs ++ [Rollback; CloseCursor]
        ∧ Forall is_execute execs
        ∧ (evs = execs ∨ evs = execs ++ [Commit])
  end.
Proof.
  unfold apply_with_cursor, try_finally, try_except, mbind, task_bind.
  destruct (statements_of json_loads ddl_data) as [stmts|e] eqn:Hstmts.
  2:{ unfold raise, suppress, call. simpl.
      destruct (db_rollback (world st)) as [r2 w2]. simpl.
      destruct (db_close w2) as [r3 w3]. simpl.
      exists e, [], []. split_and!; [done|by rewrite <- app_assoc|constructor|by left]. }
  destruct stmts as [|s l].
  { unfold raise, suppress, call. simpl.
    destruct (db_rollback (world st)) as [r2 w2]. simpl.
    destruct (db_close w2) as [r3 w3]. simpl.
    eexists _, [], []. split_and!; [done|by rewrite <- app_assoc|constructor|by left]. }
  destruct (for_task_trace W db_execute (s :: l) st) as (execs & Htr & Hex).
  destruct (for_task (s :: l) (execute_statement W db_execute) st)
    as [[[]|e] st1]; simpl in Htr.
  - unfold call at 1. destruct (db_commit (world st1)) as [[[]|e] w2] eqn:Hc; simpl.
    + unfold mret, task_ret, suppress, call. simpl.
      destruct (db_close w2) as [r3 w3]. simpl. split; [done|].
      exists execs. rewrite Htr, <- !app_assoc. done.
    + unfold raise, suppress, call. simpl.
      destruct (db_rollback w2) as [r2 w2']. simpl.
      destruct (db_close w2') as [r3 w3]. simpl.
      exists e, execs, (execs ++ [Commit]).
      split_and!; [done| |done|by right].
      rewrite Htr, <- !app_assoc. done.
  - unfold raise, suppress, call. simpl.
    destruct (db_rollback (world st1)) as [r2 w2]. simpl.
    destruct (db_close w2) as [r3 w3]. simpl.
    exists e, execs, execs. split_and!; [done| |done|by left].
    rewrite Htr, <- !app_assoc. done.
Qed.

Lemma execute_statement_ok statement (st : run_state W) :
  (forall s w, (db_execute s w).1 = Ok tt) ->
  exists w',
    execute_statement W db_execute statement st
    = (Ok tt,
       RunState w' (trace st ++ (Execute <$> to_execute [statement]))
                (executed_count st + length (to_execute [statement]))).
Proof.
  intros Hok. unfold execute_statement, to_execute.
  rewrite filter_cons, filter_nil.
  destruct (negb (Py.truthy statement) || Py.isspace statement) eqn:Hb.
  - rewrite decide_False by done. simpl. exists (world st).
    rewrite app_nil_r, Nat.add_0_r. by destruct st.
  - rewrite decide_True by done. simpl.
    unfold try_except, mbind, task_bind. rewrite execute_run.
    specialize (Hok (clean_statement statement) (world st)).
    destruct (db_execute (clean_statement statement) (world st)) as [r w1].
    simpl in Hok. subst r. simpl. exists w1. do 2 f_equal. lia.
Qed.

Lemma for_task_ok stmts (st : run_state W) :
  (forall s w, (db_execute s w).1 = Ok tt) ->
  exists w',
    for_task stmts (execute_statement W db_execute) st
    = (Ok tt,
       RunState w' (trace st ++ (Execute <$> to_execute stmts))
                (executed_count st + length (to_execute stmts))).
Proof.
  intros Hok. revert st. induction stmts as [|s l IH]; intros st.
  - exists (world st). simpl. rewrite app_nil_r, Nat.add_0_r. by destruct st.
  - simpl. unfold mbind, task_bind.
    destruct (execute_statement_ok s st Hok) as (w1 & ->).
    destruct (IH (RunState w1 (trace st ++ (Execute <$> to_execute [s]))
                    (executed_count st + length (to_execute [s])))) as (w2 & ->).
    exists w2. simpl. f_equal.
    change (s :: l) with ([s] ++ l). unfold to_execute.
    rewrite filter_app, !fmap_app, length_app, <- !app_assoc.
    f_equal. lia.
Qed.
End ApplyFacts.

(** X11. [apply_ddl_to_target] ends in one of four ways.  Without a
    connection it raises [Target connection is None].  When the connection
    refuses the cursor, the error of that call is raised as it is, and
    nothing is executed, rolled back or closed.  Otherwise it either returns
    [True], after executions followed by one commit and the closing of the
    cursor, without a rollback; or it raises an error whose message starts
    with the text of [failed_to_apply], after calls that end with a rollback
    and the closing of the cursor.  It never returns [False]. *)
Theorem apply_commits_or_rolls_back (W : Type)
    (db_execute : string -> W -> answer unit * W)
    (db_commit db_rollback db_close : W -> answer unit * W)
    (json_loads : string -> answer json)
    (db_cursor : W -> answer unit * W)
    (ddl_data : json) (st : run_state W) :
  apply_ddl_from_connection W db_execute db_commit db_rollback db_close
    json_loads db_cursor None ddl_data
  = (Err (Exception "Target connection is None"), None)
  ∧ exists r st',
      apply_ddl_from_connection W db_execute db_commit db_rollback db_close
        json_loads db_cursor (Some st) ddl_data = (r, Some st')
      ∧ match db_cursor (world st) with
        | (Err cursor_error, w) =>
            r = Err cursor_error
            ∧ st' = RunState w (trace st) (executed_count st)
        | (Ok _, _) =>
            match r with
            | Ok b =>
                b = true
                ∧ exists execs,
                    trace st' = trace st ++ execs ++ [Commit; CloseCursor]
                    ∧ Forall is_execute execs
            | Err e =>
                exists e0 execs evs,
                  e = failed_to_apply e0
                  ∧ trace st' = trace st ++ evs ++ [Rollback; CloseCursor]
                  ∧ Forall is_execute execs
                  ∧ (evs = execs ∨ evs = execs ++ [Commit])
            end
        end.
Proof.
  split; [done|].
  unfold apply_ddl_from_connection, open_cursor, mbind, task_bind.
  destruct (db_cursor (world st)) as [[[]|cursor_error] w].
  - pose proof (apply_outcome W db_execute db_commit db_rollback db_close
                  json_loads ddl_data
                  (RunState w (trace st) (executed_count st))) as H.
    destruct (apply_with_cursor _ _ _ _ _ _ _ _) as [r st'].
    by exists r, st'.
  - by eexists _, _.
Qed.

(** X12. When the target accepts every statement and the commit, every
    statement that is not blank is executed once, in order and cleaned, then
    the transaction is committed and the cursor closed, and the count of the
    executed statements grows by their number. *)
Theorem apply_all_succeed (W : Type)
    (db_execute : string -> W -> answer unit * W)
    (db_commit db_rollback db_close : W -> answer unit * W)
    (json_loads : string -> answer json)
    (ddl_data : json) (stmts : list string) (st : run_state W) :
  (forall s w, (db_execute s w).1 = Ok tt) ->
  (forall w, (db_commit w).1 = Ok tt) ->
  statements_of json_loads ddl_data = Ok stmts ->
  stmts ≠ [] ->
  exists w',
    apply_ddl_to_target W db_execute db_commit db_rollback db_close json_loads
      (Some st) ddl_data
    = (Ok true,
       Some (RunState w'
               (trace st ++ (Execute <$> to_execute stmts) ++ [Commit; CloseCursor])
               (executed_count st + length (to_execute stmts)))).
Proof.
  intros Hexec Hcommit Hstmts Hne.
  unfold apply_ddl_to_target, apply_with_cursor, try_finally, try_except,
    mbind, task_bind.
  rewrite Hstmts. destruct stmts as [|s l]; [done|].
  destruct (for_task_ok W db_execute (s :: l) st Hexec) as (w1 & ->).
  unfold call at 1. simpl. specialize (Hcommit w1).
  destruct (db_commit w1) as [r w2]. simpl in Hcommit. subst r. simpl.
  unfold suppress, call. simpl. destruct (db_close w2) as [r3 w3]. simpl.
  exists w3. by rewrite <- !app_assoc.
Qed.

Lemma apply_all_succeed_witness :
  exists w',
    apply_ddl_to_target unit (fun _ w => (Ok tt, w)) always_ok always_ok always_ok
      no_json (Some (RunState tt [] 0))
      (JStr "CREATE TABLE t (c INT); ;CREATE INDEX i ON t (c);")
    = (Ok true,
       Some (RunState w'
               ([] ++ (Execute <$> to_execute ["CREATE TABLE t (c INT)";
                                               "CREATE INDEX i ON t (c)"])
                ++ [Commit; CloseCursor])
               (0 + length (to_execute ["CREATE TABLE t (c INT)";
                                        "CREATE INDEX i ON t (c)"])))).
Proof.
  apply (apply_all_succeed unit (fun _ w => (Ok tt, w)) always_ok always_ok
           always_ok no_json
           (JStr "CREATE TABLE t (c INT); ;CREATE INDEX i ON t (c);")
           ["CREATE TABLE t (c INT)"; "CREATE INDEX i ON t (c)"]
           (RunState tt [] 0)).
  - reflexivity.
  - reflexivity.
  - vm_compute. reflexivity.
  - discriminate.
Defined.




(** ** The background task of the structure migration *)

Lemma last_take_prefix (x : Z) (l : list Z) k :
  exists v, last (x :: take k l) = Some v ∧ v ∈ x :: l.
Proof.
  revert x k. induction l as [|y l IH]; intros x k.
  - rewrite take_nil. exists x. split; [done|left].
  - destruct k as [|k].
    + exists x. split; [done|left].
    + destruct (IH y k) as (v & Hv & Hin). exists v. split; [done|by right].
Qed.

(** The calls on a connection are only ever added to. *)
Lemma call_trace {W : Type} ev (op : W -> answer unit * W) (c : run_state W) :
  trace (call W ev op c).2 = trace c ++ [ev].
Proof. unfold call. by destruct (op (world c)). Qed.

Lemma for_task_execute_trace {W : Type}
    (db_execute : string -> W -> answer unit * W) l (s : run_state W) :
  exists evs, trace (for_task l (execute W db_execute) s).2 = trace s ++ evs.
Proof.
  revert s. induction l as [|x l IH]; intros s.
  - exists []. by rewrite app_nil_r.
  - cbn [for_task]. unfold mbind, task_bind. rewrite execute_run.
    destruct (db_execute x (world s)) as [[[]|e] w2]; simpl; [|by eexists].
    destruct (IH (RunState w2 (trace s ++ [Execute x]) (executed_count s)))
      as [evs Hevs].
    exists (Execute x :: evs). rewrite Hevs. simpl. by rewrite <- app_assoc.
Qed.

Lemma for_task_execute_first {W : Type}
    (db_execute : string -> W -> answer unit * W) x l (s : run_state W) :
  exists evs,
    trace (for_task (x :: l) (execute W db_execute) s).2
    = trace s ++ Execute x :: evs.
Proof.
  cbn [for_task]. unfold mbind, task_bind. rewrite execute_run.
  destruct (db_execute x (world s)) as [[[]|e] w2]; simpl; [|by exists []].
  destruct (for_task_execute_trace db_execute l
              (RunState w2 (trace s ++ [Execute x]) (executed_count s)))
    as [evs Hevs].
  exists evs. rewrite Hevs. simpl. by rewrite <- app_assoc.
Qed.

Lemma drop_existing_trace {W : Type} (db_execute : string -> W -> answer unit * W)
    (db_commit db_close : W -> answer unit * W) (c : run_state W) :
  exists evs,
    trace (suppress (drop_existing W db_execute db_commit db_close) c)
    = trace c ++ Execute "DROP TABLE IF EXISTS order_items CASCADE" :: evs.
Proof.
  unfold suppress, drop_existing, drop_existing_statements.
  unfold mbind, task_bind.
  match goal with
  | |- context [for_task (?x :: ?l) ?b c] =>
      destruct (for_task_execute_first db_execute x l c) as [evs Hevs];
      destruct (for_task (x :: l) b c) as [[[]|e] s2]
  end; simpl in *.
  - pose proof (call_trace Commit db_commit s2) as Hc.
    destruct (call W Commit db_commit s2) as [[[]|e] s3]; simpl in *.
    + rewrite call_trace, Hc, Hevs. eexists.
      rewrite <- !app_assoc. simpl. reflexivity.
    + rewrite Hc, Hevs. eexists. rewrite <- !app_assoc. simpl. reflexivity.
  - rewrite Hevs. by eexists.
Qed.

Section StructureFacts.
Variable W : Type.
Variable bundle_exists : bool.
Variable load_bundle : answer json.
Variable active_session : json.
Variable get_connection_by_id : json -> option json.
Variable api_key : option string.
Variable build_prompt : string -> string -> json -> string.
Variable chat_completion : string -> answer (option string).
Variable json_loads : string -> answer json.
Variable json_dumps : json -> string.
Variable str_json : json -> string.
Variable connect_to_database : json -> answer W.
Variable db_execute : string -> W -> answer unit * W.
Variable db_commit : W -> answer unit * W.
Variable db_rollback : W -> answer unit * W.
Variable db_close : W -> answer unit * W.
Variable close_connection : W -> answer unit * W.

Local Abbreviation phases :=
  (structure_phases W bundle_exists load_bundle active_session
     get_connection_by_id api_key build_prompt chat_completion json_loads
     json_dumps str_json connect_to_database db_execute db_commit db_rollback
     db_close).
Local Abbreviation create :=
  (create_tables W json_loads db_execute db_commit db_rollback db_close).

Lemma quiet_steady {A} (m : task (structure_run W) A) : quiet m -> steady m.
Proof.
  intros H s. destruct (H s) as (Hp & Hd & He & Hh & Hc).
  split_and!; auto. by rewrite Hh, Hp.
Qed.

Lemma steady_bind {A B} (m : task (structure_run W) A)
    (f : A -> task (structure_run W) B) :
  steady m -> (forall a, steady (f a)) -> steady (m ≫= f).
Proof.
  intros Hm Hf s. specialize (Hm s). unfold mbind, task_bind.
  destruct (m s) as [[a|e] s1]; simpl in *; [|done].
  destruct (Hf a s1) as (Hd & He & Hc & Hl). destruct Hm as (Hd1 & He1 & Hc1 & Hl1).
  split_and!; [congruence|congruence|congruence|auto].
Qed.

Lemma quiet_emits {A} (m : task (structure_run W) A) :
  quiet m -> emits (fun r => percent_history (structure_status r)) m [].
Proof. intros H. apply emits_quiet. intros s. by destruct (H s) as (_ & _ & _ & ? & _). Qed.

Lemma quiet_ret {A} (a : A) : quiet (mret a : task (structure_run W) A).
Proof. by intros s. Qed.

Lemma quiet_raise {A} e : quiet (raise e : task (structure_run W) A).
Proof. by intros s. Qed.

Lemma quiet_lift {A} (m : answer A) : quiet (lift m : task (structure_run W) A).
Proof. by intros s. Qed.

Lemma quiet_require c msg : quiet (require W c msg).
Proof. unfold require. destruct c; [apply quiet_ret|apply quiet_raise]. Qed.

Lemma quiet_store o q n : quiet (store_translation W o q n).
Proof. by intros s. Qed.

Lemma quiet_target (f : structure_run W -> option (run_state W)) :
  quiet (modify (fun r => with_target W (f r) r)).
Proof. by intros s. Qed.

Lemma quiet_apply ddl_data :
  quiet (apply_to_target W json_loads db_execute db_commit db_rollback db_close
           ddl_data).
Proof.
  intros s. unfold apply_to_target.
  by destruct (apply_ddl_to_target _ _ _ _ _ _ _ _) as [a c].
Qed.

Lemma quiet_bind {A B} (m : task (structure_run W) A)
    (f : A -> task (structure_run W) B) :
  quiet m -> (forall a, quiet (f a)) -> quiet (m ≫= f).
Proof.
  intros Hm Hf s. specialize (Hm s). unfold mbind, task_bind.
  destruct (m s) as [[a|e] s1]; simpl in *; [|done].
  destruct (Hf a s1) as (? & ? & ? & ? & ?). destruct Hm as (? & ? & ? & ? & ?).
  split_and!; congruence.
Qed.

Lemma quiet_try_except {A} (m : task (structure_run W) A) h :
  quiet m -> (forall e, quiet (h e)) -> quiet (try_except m h).
Proof.
  intros Hm Hh s. specialize (Hm s). unfold try_except.
  destruct (m s) as [[a|e] s1]; simpl in *; [done|].
  destruct (Hh e s1) as (? & ? & ? & ? & ?). destruct Hm as (? & ? & ? & ? & ?).
  split_and!; congruence.
Qed.

Lemma quiet_create original : quiet (create original).
Proof.
  unfold create_tables. destruct (json_truthy (Some original)); [|apply quiet_ret].
  apply quiet_bind; [apply quiet_require|intros _].
  apply quiet_bind; [apply quiet_lift|intros ddl_data].
  apply quiet_try_except; [|intros e; apply quiet_raise].
  apply quiet_bind; [apply quiet_apply|intros _]. apply quiet_ret.
Qed.

Lemma steady_phase p v : steady (structure_phase W p v).
Proof.
  intros s. simpl. split_and!; auto. intros _. by rewrite last_snoc.
Qed.

Lemma emits_phase p v :
  emits (fun r => percent_history (structure_status r)) (structure_phase W p v) [v].
Proof. by intros s. Qed.

Local Abbreviation Hs := (fun r : structure_run W => percent_history (structure_status r)).

Lemma emits_phases : emits Hs phases [10; 20; 40; 60; 70; 75; 80]%Z.
Proof.
  unfold structure_phases. eapply emits_eq.
  { eapply emits_bind; [apply emits_phase|intros _].
    eapply emits_bind; [apply quiet_emits, quiet_require|intros _].
    eapply emits_bind; [apply emits_lift|intros extraction_data].
    eapply emits_bind; [apply emits_phase|intros _].
    eapply emits_bind; [apply quiet_emits, quiet_require|intros _].
    eapply emits_bind; [apply emits_lift|intros source_id].
    eapply emits_bind; [apply emits_lift|intros target_id].
    eapply emits_bind; [apply quiet_emits, quiet_require|intros _].
    eapply emits_bind; [apply emits_phase|intros _].
    eapply emits_bind; [apply emits_lift|intros source_type].
    eapply emits_bind; [apply emits_lift|intros target_type].
    eapply emits_bind; [apply emits_lift|intros translation_result].
    eapply emits_bind; [apply emits_lift|intros translated_ddl].
    eapply emits_bind; [apply emits_lift|intros original].
    eapply emits_bind; [apply emits_lift|intros notes_text].
    eapply emits_bind; [apply quiet_emits, quiet_store|intros _].
    eapply emits_bind; [apply quiet_emits, quiet_require|intros _].
    eapply emits_bind; [apply emits_phase|intros _].
    eapply emits_bind; [apply emits_phase|intros _].
    eapply emits_bind; [apply quiet_emits, quiet_require|intros _].
    eapply emits_bind; [apply emits_lift|intros credentials].
    eapply emits_bind; [apply quiet_emits, quiet_require|intros _].
    eapply emits_bind; [apply emits_lift|intros w].
    eapply emits_bind; [apply quiet_emits, (quiet_target (fun _ => _))|intros _].
    eapply emits_bind; [apply emits_phase|intros _].
    eapply emits_bind; [apply quiet_emits, (quiet_target (fun r => _))|intros _].
    eapply emits_bind; [apply emits_phase|intros _].
    apply quiet_emits, quiet_create. }
  reflexivity.
Qed.

Lemma steady_phases : steady phases.
Proof.
  unfold structure_phases.
  repeat first
    [ apply steady_phase
    | apply quiet_steady, quiet_create
    | apply steady_bind; [|intros ?]
    | apply quiet_steady, quiet_require
    | apply quiet_steady, quiet_lift
    | apply quiet_steady, quiet_store
    | apply quiet_steady, (quiet_target (fun _ => _)) ].
Qed.

Local Abbreviation init :=
  (StructureRun (W := W) (reset_status "Initializing") None None None None false).
Local Abbreviation run :=
  (run_structure_migration_task W bundle_exists load_bundle active_session
     get_connection_by_id api_key build_prompt chat_completion json_loads
     json_dumps str_json connect_to_database db_execute db_commit db_rollback
     db_close close_connection).

(** The status at the end of a run, from the state that the phases leave. *)
Lemma structure_run_status :
  match phases init with
  | (Ok _, s1) =>
      structure_status run
      = set_done (set_percent 100 (set_phase "Finalizing structure migration"
                                     (structure_status s1)))
  | (Err e, s1) =>
      structure_status run = set_done (set_error (str_exn e) (structure_status s1))
  end.
Proof.
  unfold run_structure_migration_task, structure_body, try_finally, try_except,
    mbind, task_bind.
  destruct (phases init) as [[[]|e] s1]; simpl;
    unfold close_target; simpl; by destruct (target_connection s1).
Qed.

Lemma structure_run_closed :
  connection_closed run = bool_decide (is_Some (target_connection run)).
Proof.
  unfold run_structure_migration_task, structure_body, try_finally, try_except,
    mbind, task_bind.
  pose proof (steady_phases init) as (_ & _ & Hc & _). simpl in Hc.
  destruct (phases init) as [[[]|e] s1]; simpl in *;
    unfold close_target; simpl; destruct (target_connection s1); simpl; done.
Qed.
End StructureFacts.

(** X14. The percent of a structure migration never decreases during a run and
    stays within 0 and 100, whatever the collaborators answer: the values
    written are an initial part of 0, 10, 20, 40, 60, 70, 75, 80, 100. *)
Theorem structure_migration_monotonic (W : Type) (bundle_exists : bool)
    (load_bundle : answer json) (active_session : json)
    (get_connection_by_id : json -> option json) (api_key : option string)
    (build_prompt : string -> string -> json -> string)
    (chat_completion : string -> answer (option string))
    (json_loads : string -> answer json) (json_dumps str_json : json -> string)
    (connect_to_database : json -> answer W)
    (db_execute : string -> W -> answer unit * W)
    (db_commit db_rollback db_close close_connection : W -> answer unit * W) :
  let final :=
    structure_status
      (run_structure_migration_task W bundle_exists load_bundle active_session
         get_connection_by_id api_key build_prompt chat_completion json_loads
         json_dumps str_json connect_to_database db_execute db_commit
         db_rollback db_close close_connection) in
  monotonic_percent final
  ∧ exists k,
      percent_history final = take k [0; 10; 20; 40; 60; 70; 75; 80; 100]%Z.
Proof.
  pose proof (structure_run_status W bundle_exists load_bundle active_session
    get_connection_by_id api_key build_prompt chat_completion json_loads
    json_dumps str_json connect_to_database db_execute db_commit db_rollback
    db_close close_connection) as Hfin.
  pose proof (emits_phases W bundle_exists load_bundle active_session
    get_connection_by_id api_key build_prompt chat_completion json_loads
    json_dumps str_json connect_to_database db_execute db_commit db_rollback
    db_close
    (StructureRun (reset_status "Initializing") None None None None false)) as Hem.
  destruct (structure_phases _ _ _ _ _ _ _ _ _ _ _ _ _ _ _ _ _) as [[[]|e] s1];
    simpl in Hem; cbv zeta; rewrite Hfin; unfold monotonic_percent; simpl.
  - rewrite Hem. split; [by vm_compute|]. by exists 9.
  - destruct Hem as [k ->]. split; [split|].
    + by apply (non_decreasing_take (S k) [0; 10; 20; 40; 60; 70; 75; 80]%Z).
    + by apply (within_percent_take (S k) [0; 10; 20; 40; 60; 70; 75; 80]%Z).
    + exists (Nat.min (S k) 8).
      by destruct k as [|[|[|[|[|[|[|[|k]]]]]]]].
Qed.

(** X15. Every structure migration ends with [done] set.  A run without an
    error ends at 100 percent; a run with an error keeps the percent of the
    phase that failed, which is at most 80, so that 100 is only ever written
    by a run that succeeded.  The target connection is closed exactly when
    one was opened. *)
Theorem structure_migration_outcome (W : Type) (bundle_exists : bool)
    (load_bundle : answer json) (active_session : json)
    (get_connection_by_id : json -> option json) (api_key : option string)
    (build_prompt : string -> string -> json -> string)
    (chat_completion : string -> answer (option string))
    (json_loads : string -> answer json) (json_dumps str_json : json -> string)
    (connect_to_database : json -> answer W)
    (db_execute : string -> W -> answer unit * W)
    (db_commit db_rollback db_close close_connection : W -> answer unit * W) :
  let fin := run_structure_migration_task W bundle_exists load_bundle
               active_session get_connection_by_id api_key build_prompt
               chat_completion json_loads json_dumps str_json
               connect_to_database db_execute db_commit db_rollback db_close
               close_connection in
  done (structure_status fin) = true
  ∧ (error (structure_status fin) = None -> percent (structure_status fin) = 100%Z)
  ∧ (forall msg, error (structure_status fin) = Some msg ->
       (0 <= percent (structure_status fin) <= 80)%Z)
  ∧ (connection_closed fin = true <-> is_Some (target_connection fin)).
Proof.
  intros fin. subst fin.
  pose proof (structure_run_status W bundle_exists load_bundle active_session
    get_connection_by_id api_key build_prompt chat_completion json_loads
    json_dumps str_json connect_to_database db_execute db_commit db_rollback
    db_close close_connection) as Hfin.
  pose proof (structure_run_closed W bundle_exists load_bundle active_session
    get_connection_by_id api_key build_prompt chat_completion json_loads
    json_dumps str_json connect_to_database db_execute db_commit db_rollback
    db_close close_connection) as Hcl.
  pose proof (emits_phases W bundle_exists load_bundle active_session
    get_connection_by_id api_key build_prompt chat_completion json_loads
    json_dumps str_json connect_to_database db_execute db_commit db_rollback
    db_close
    (StructureRun (reset_status "Initializing") None None None None false)) as Hem.
  pose proof (steady_phases W bundle_exists load_bundle active_session
    get_connection_by_id api_key build_prompt chat_completion json_loads
    json_dumps str_json connect_to_database db_execute db_commit db_rollback
    db_close
    (StructureRun (reset_status "Initializing") None None None None false))
    as (_ & Herr & _ & Hlast).
  split_and!.
  - destruct (structure_phases _ _ _ _ _ _ _ _ _ _ _ _ _ _ _ _ _) as [[[]|e] s1];
      by rewrite Hfin.
  - destruct (structure_phases _ _ _ _ _ _ _ _ _ _ _ _ _ _ _ _ _) as [[[]|e] s1];
      rewrite Hfin; simpl; [done|discriminate].
  - intros msg.
    destruct (structure_phases _ _ _ _ _ _ _ _ _ _ _ _ _ _ _ _ _) as [[[]|e] s1];
      rewrite Hfin; simpl in *.
    + rewrite Herr. discriminate.
    + intros _. specialize (Hlast eq_refl). destruct Hem as [k Hk].
      rewrite Hk in Hlast.
      destruct (last_take_prefix 0 [10; 20; 40; 60; 70; 75; 80]%Z k)
        as (v & Hv & Hin).
      change ([0%Z] ++ take k ?l) with (0%Z :: take k l) in Hlast.
      rewrite Hv in Hlast. injection Hlast as <-.
      set_unfold in Hin. lia.
  - rewrite Hcl. rewrite bool_decide_eq_true. done.
Qed.

Local Ltac ssimpl :=
  with_strategy opaque [translate_schema get_or json_item json_get json_truthy
                        or_none] simpl.




(** ** Progress and outcome of the other stages *)

(** X17. The percent of a data migration never decreases during a run and
    stays within 0 and 100, whatever the two databases answer. *)
Theorem data_migration_percent_monotonic (W : Type) (active_session : json)
    (get_connection_by_id : json -> option json)
    (connect_to_database : option json -> W -> answer unit * W)
    (target_execute : string -> W -> answer unit * W)
    (target_executemany : string -> list (list json) -> W -> answer unit * W)
    (target_commit : W -> answer unit * W)
    (source_execute : string -> W -> answer unit * W)
    (source_fetchone : W -> answer (option Z) * W)
    (source_fetchall : W -> answer (list (list json)) * W)
    (source_description : W -> list string)
    (close_connections : W -> answer unit * W)
    (create_table_statements : list string) (str_int : Z -> string) (w : W) :
  monotonic_percent
    (migration_status
       (run_data_migration_task W active_session get_connection_by_id
          connect_to_database target_execute target_executemany target_commit
          source_execute source_fetchone source_fetchall source_description
          close_connections create_table_statements str_int w)).
Proof. apply data_migration_monotonic. Qed.

Section ValidationOutcome.
Variable connection : Type.
Variable connect_to_database : json -> answer connection.
Variable close_connection : connection -> answer unit.
Variable active_session : json.
Variable get_connection_by_id : json -> option json.
Variable validate_row_counts : json -> json -> answer (list finding).
Variable validate_table_structure : json -> json -> answer (list finding).
Variable sample_data_comparison : json -> json -> answer (list finding).
Variable content_analysis : json -> json -> answer (list finding).
Variable automated_testing_framework : json -> json -> answer (list finding).
Variable run_performance_benchmark : json -> json -> answer (list finding).
Variable create_rollback_checkpoint : json -> json -> answer (list finding).

Local Abbreviation validation :=
  (run_comprehensive_validation connection connect_to_database close_connection
     active_session get_connection_by_id validate_row_counts
     validate_table_structure sample_data_comparison content_analysis
     automated_testing_framework run_performance_benchmark
     create_rollback_checkpoint).

Lemma validate_connections_nonempty s t :
  validate_connections connection connect_to_database close_connection s t ≠ [].
Proof.
  unfold validate_connections.
  destruct (probe _ _ _ s); [|done]. by destruct (probe _ _ _ t).
Qed.

(** What a task adds to the findings. *)
Lemma extend_results fs (r : validation_run) :
  results (extend fs r).2 = results r ++ fs.
Proof. done. Qed.

Lemma run_check_results p v check infos (r : validation_run) :
  exists fs, results (run_check p v check infos r).2 = results r ++ fs.
Proof.
  unfold run_check, mbind, task_bind, lift, enter, modify. simpl.
  destruct (check infos.1 infos.2) as [fs|e]; simpl.
  - by exists fs.
  - exists []. by rewrite app_nil_r.
Qed.

Lemma validation_run_outcome :
  let fin := validation (ValidationRun (reset_status "Initializing") []) in
  fin.1 = Ok tt
  ∧ results fin.2 ≠ []
  ∧ (forall e,
       session_connections active_session get_connection_by_id = Err e ->
       results fin.2
       = [Finding "Validation Process" Fail (Some (str_exn e))
            (Some "Check validation process implementation") (1 # 2)])
  ∧ (forall s t e,
       session_connections active_session get_connection_by_id = Ok (s, t) ->
       probe connection connect_to_database close_connection s = Ok tt ->
       probe connection connect_to_database close_connection t = Err e ->
       results fin.2
       = [Finding "Source Connection" Pass None None 1;
          Finding "Target Connection" Fail (Some (str_exn e))
            (Some "Check target database connection settings") (9 # 10)]
       ∧ percent_history (validation_status fin.2) = [0; 5]%Z).
Proof.
  unfold run_comprehensive_validation, try_except, lift, mbind, task_bind.
  destruct (session_connections active_session get_connection_by_id)
    as [[s t]|e0] eqn:Hsession; simpl.
  2:{ split_and!; [done|done| |done]. by intros e [= <-]. }
  pose proof (validate_connections_nonempty s t) as Hne.
  destruct (existsb _ _) eqn:Hfail; simpl.
  { split_and!; [done|done|done|]. intros s' t' e [= <- <-] Hs Ht.
    unfold validate_connections. by rewrite Hs, Ht. }
  assert (Hok : forall s' t' e, Ok (s, t) = Ok (s', t') ->
            probe connection connect_to_database close_connection s' = Ok tt ->
            probe connection connect_to_database close_connection t' = Err e ->
            False).
  { intros s' t' e [= <- <-] Hs Ht. unfold validate_connections in Hfail.
    rewrite Hs, Ht in Hfail. simpl in Hfail. discriminate. }
  unfold run_check, lift, mbind, task_bind, enter, extend, modify. simpl.
  repeat match goal with
         | |- context [match ?c s t with Ok _ => _ | Err _ => _ end] =>
             destruct (c s t); simpl
         end;
    (split_and!;
      [done
      |intros Hnil; apply Hne;
       repeat (apply app_eq_nil in Hnil as [Hnil _]); exact Hnil
      |done
      |intros s' t' e' Heq Hs Ht; destruct (Hok s' t' e' Heq Hs Ht)]).
Qed.
End ValidationOutcome.

(** X18. The percent of a validation run never decreases and stays within 0
    and 100, whatever the checks answer. *)
Theorem validation_percent_monotonic (connection : Type)
    (connect_to_database : json -> answer connection)
    (close_connection : connection -> answer unit)
    (active_session : json) (get_connection_by_id : json -> option json)
    (validate_row_counts validate_table_structure sample_data_comparison
       content_analysis automated_testing_framework run_performance_benchmark
       create_rollback_checkpoint : json -> json -> answer (list finding)) :
  monotonic_percent
    (validation_status
       (run_comprehensive_validation connection connect_to_database
          close_connection active_session get_connection_by_id
          validate_row_counts validate_table_structure sample_data_comparison
          content_analysis automated_testing_framework
          run_performance_benchmark create_rollback_checkpoint
          (ValidationRun (reset_status "Initializing") [])).2).
Proof. apply validation_monotonic. Qed.

(** X19. [run_comprehensive_validation] never raises and never returns an
    empty list of findings: a failure of the process itself becomes a
    finding of category [Validation Process] and status [Fail], the only
    finding when the session does not give the two connections. *)
Theorem validation_always_reports (connection : Type)
    (connect_to_database : json -> answer connection)
    (close_connection : connection -> answer unit)
    (active_session : json) (get_connection_by_id : json -> option json)
    (validate_row_counts validate_table_structure sample_data_comparison
       content_analysis automated_testing_framework run_performance_benchmark
       create_rollback_checkpoint : json -> json -> answer (list finding)) :
  let fin := run_comprehensive_validation connection connect_to_database
               close_connection active_session get_connection_by_id
               validate_row_counts validate_table_structure
               sample_data_comparison content_analysis
               automated_testing_framework run_performance_benchmark
               create_rollback_checkpoint
               (ValidationRun (reset_status "Initializing") []) in
  fin.1 = Ok tt
  ∧ results fin.2 ≠ []
  ∧ (forall e,
       session_connections active_session get_connection_by_id = Err e ->
       results fin.2
       = [Finding "Validation Process" Fail (Some (str_exn e))
            (Some "Check validation process implementation") (1 # 2)]).
Proof.
  intros fin.
  destruct (validation_run_outcome connection connect_to_database
              close_connection active_session get_connection_by_id
              validate_row_counts validate_table_structure
              sample_data_comparison content_analysis
              automated_testing_framework run_performance_benchmark
              create_rollback_checkpoint) as (H1 & H2 & H3 & _).
  done.
Qed.

(** X20. When the source connection is reached and the target connection is
    not, the findings are the passing source finding and the failing target
    finding, and no later phase is entered: the percent stays at 5. *)
Theorem validation_target_short_circuit (connection : Type)
    (connect_to_database : json -> answer connection)
    (close_connection : connection -> answer unit)
    (active_session : json) (get_connection_by_id : json -> option json)
    (validate_row_counts validate_table_structure sample_data_comparison
       content_analysis automated_testing_framework run_performance_benchmark
       create_rollback_checkpoint : json -> json -> answer (list finding))
    (source_conn_info target_conn_info : json) (e : exn) :
  session_connections active_session get_connection_by_id
  = Ok (source_conn_info, target_conn_info) ->
  probe connection connect_to_database close_connection source_conn_info = Ok tt ->
  probe connection connect_to_database close_connection target_conn_info = Err e ->
  let fin := (run_comprehensive_validation connection connect_to_database
                close_connection active_session get_connection_by_id
                validate_row_counts validate_table_structure
                sample_data_comparison content_analysis
                automated_testing_framework run_performance_benchmark
                create_rollback_checkpoint
                (ValidationRun (reset_status "Initializing") [])).2 in
  results fin
  = [Finding "Source Connection" Pass None None 1;
     Finding "Target Connection" Fail (Some (str_exn e))
       (Some "Check target database connection settings") (9 # 10)]
  ∧ percent_history (validation_status fin) = [0; 5]%Z.
Proof.
  intros Hsession Hs Ht fin.
  destruct (validation_run_outcome connection connect_to_database
              close_connection active_session get_connection_by_id
              validate_row_counts validate_table_structure
              sample_data_comparison content_analysis
              automated_testing_framework run_performance_benchmark
              create_rollback_checkpoint) as (_ & _ & _ & H4).
  by apply (H4 source_conn_info target_conn_info e).
Qed.

Lemma validation_target_short_circuit_witness :
  let fin := (run_comprehensive_validation unit
                (fun info => match json_get "id" info with
                             | Some (JNum 2) =>
                                 Err (Exception "Failed to connect to PostgreSQL database: timed out")
                             | _ => Ok tt
                             end)
                (fun _ => Ok tt) demo_session demo_connection_by_id demo_check
                demo_check demo_check demo_check demo_check demo_check demo_check
                (ValidationRun (reset_status "Initializing") [])).2 in
  results fin
  = [Finding "Source Connection" Pass None None 1;
     Finding "Target Connection" Fail
       (Some (str_exn (Exception "Failed to connect to PostgreSQL database: timed out")))
       (Some "Check target database connection settings") (9 # 10)]
  ∧ percent_history (validation_status fin) = [0; 5]%Z.
Proof.
  apply (validation_target_short_circuit unit _ (fun _ => Ok tt) demo_session
           demo_connection_by_id demo_check demo_check demo_check demo_check
           demo_check demo_check demo_check
           (JDict [("id", JNum 1); ("credentials", JDict [("host", JStr "db")])])
           (JDict [("id", JNum 2); ("credentials", JDict [("host", JStr "db")])])
           (Exception "Failed to connect to PostgreSQL database: timed out")).
  - vm_compute. reflexivity.
  - reflexivity.
  - reflexivity.
Defined.


(** ** Validator: comparison of the two sides *)

Lemma dict_get_None_keys {V : Type} (d : list (string * V)) k :
  Dict.get d k = None <-> k ∉ Dict.keys d.
Proof.
  split.
  - intros Hn Hk. apply dict_keys_get in Hk as [v Hv]. congruence.
  - intros Hk. destruct (Dict.get d k) as [v|] eqn:Hv; [|done].
    by apply dict_get_Some_keys in Hv.
Qed.

Lemma row_count_finding_pass str_int table a b :
  status (Validate.row_count_finding str_int table a b) = Pass <-> a = b.
Proof. unfold Validate.row_count_finding. by destruct (decide (a = b)). Qed.

(** X21. The comparison of the row counts passes on every table exactly when
    the two sides hold the same count for every table, a table that one side
    lacks counting as a table of 0 rows there: an empty table of the source
    that was never created in the target passes. *)
Theorem row_counts_pass_iff (str_int : Z -> string)
    (source_counts target_counts : list (string * Z)) :
  Forall (fun f => status f = Pass)
    (Validate.compare_row_counts str_int source_counts target_counts)
  <-> forall table,
        default 0%Z (Dict.get source_counts table)
        = default 0%Z (Dict.get target_counts table).
Proof.
  unfold Validate.compare_row_counts. rewrite Forall_fmap, Forall_forall. split.
  - intros Hall table.
    destruct (decide (table ∈ Dict.keys source_counts ∨ table ∈ Dict.keys target_counts))
      as [Hin|Hout].
    + apply (row_count_finding_pass str_int table). apply Hall.
      apply elem_of_elements. set_solver.
    + assert (Hs : Dict.get source_counts table = None).
      { apply dict_get_None_keys. tauto. }
      assert (Ht : Dict.get target_counts table = None).
      { apply dict_get_None_keys. tauto. }
      by rewrite Hs, Ht.
  - intros Heq table _. simpl. by apply row_count_finding_pass.
Qed.

(** X22. [get_table_row_counts] keeps the errors of its queries to itself:
    when the listing of the tables fails on both sides, [validate_row_counts]
    returns no finding at all, so that nothing is reported as failed. *)
Theorem row_count_errors_swallowed (connection : Type)
    (mysql_connect : json -> bool -> answer connection)
    (psycopg2_connect : json -> json -> answer connection)
    (select_one : connection -> answer unit)
    (close_connection : connection -> answer unit)
    (list_tables : connection -> answer (list string))
    (count_of : connection -> string -> answer Z)
    (str_json : json -> string) (str_int : Z -> string)
    (source_conn_info target_conn_info : json)
    (source_conn target_conn : connection) (ns nt : string * string) :
  (Validate.connect_to_database connection mysql_connect psycopg2_connect
     select_one str_json source_conn_info []).1 = Ok source_conn ->
  (Validate.connect_to_database connection mysql_connect psycopg2_connect
     select_one str_json target_conn_info []).1 = Ok target_conn ->
  Validate.type_and_database str_json source_conn_info = Ok ns ->
  Validate.type_and_database str_json target_conn_info = Ok nt ->
  close_connection source_conn = Ok tt ->
  close_connection target_conn = Ok tt ->
  (exists e, list_tables source_conn = Err e) ->
  (exists e, list_tables target_conn = Err e) ->
  Validate.validate_row_counts connection mysql_connect psycopg2_connect
    select_one close_connection list_tables count_of str_json str_int
    source_conn_info target_conn_info
  = [].
Proof.
  intros Hcs Hct Hns Hnt Hxs Hxt [es Hls] [et Hlt].
  unfold Validate.validate_row_counts, Validate.read_counts,
    Validate.get_table_row_counts.
  rewrite Hcs, Hct. simpl. rewrite Hns, Hnt. simpl.
  rewrite Hls, Hlt, Hxs, Hxt. simpl.
  by destruct (_ || _), (_ || _).
Qed.

Lemma row_count_errors_swallowed_witness :
  Validate.validate_row_counts unit (fun _ _ => Ok tt) (fun _ _ => Ok tt)
    (fun _ => Ok tt) (fun _ => Ok tt)
    (fun _ => Err (Exception "SELECT command denied")) (fun _ _ => Ok 0%Z)
    (fun _ => "MySQL") (fun _ => "0")
    (JDict [("dbType", JStr "MySQL"); ("credentials", JDict [("database", JStr "shop")])])
    (JDict [("dbType", JStr "MySQL"); ("credentials", JDict [("database", JStr "copy")])])
  = [].
Proof.
  apply (row_count_errors_swallowed unit (fun _ _ => Ok tt) (fun _ _ => Ok tt)
           (fun _ => Ok tt) (fun _ => Ok tt)
           (fun _ => Err (Exception "SELECT command denied")) (fun _ _ => Ok 0%Z)
           (fun _ => "MySQL") (fun _ => "0") _ _ tt tt
           ("MySQL", "MySQL") ("MySQL", "MySQL")).
  - reflexivity.
  - reflexivity.
  - reflexivity.
  - reflexivity.
  - reflexivity.
  - reflexivity.
  - by eexists.
  - by eexists.
Defined.

Lemma type_mismatch_text x :
  Py.contains "type mismatch" ("Column type mismatch: " +:+ x) = true.
Proof. by vm_compute. Qed.

Lemma compare_columns_same_shape (s t : list column) :
  same_shape s t ->
  (Validate.compare_columns s t = None ∧ same_types s t)
  ∨ (exists x, Validate.compare_columns s t = Some ("Column type mismatch: " +:+ x)
               ∧ ¬ same_types s t).
Proof.
  unfold same_shape, same_types.
  induction 1 as [|a b s t [Hn Hb] Hst IH]; [left; split; [done|constructor]|].
  simpl. rewrite Hn, String.eqb_refl, Hb, Bool.eqb_reflx. simpl.
  destruct (are_equivalent_types (col_type a) (col_type b)) eqn:Heq; simpl.
  - destruct IH as [[Hc Hall]|(x & Hc & Hnot)].
    + left. split; [done|by constructor].
    + right. exists x. split; [done|]. intros Hall. apply Hnot.
      by apply Forall2_cons in Hall as [_ ?].
  - right. eexists. split; [reflexivity|]. intros Hall.
    apply Forall2_cons in Hall as [Ha _]. congruence.
Qed.

(** X23. A difference of column types never fails the structure check.  For
    two schemas with the same columns by name and nullability, the table gets
    one finding, [Pass] when all the types are equivalent and [Warning]
    otherwise; the warning says that the types are equivalent, although it
    is given exactly when [are_equivalent_types] says they are not. *)
Theorem type_difference_is_warning (str_int : Z -> string) (table : string)
    (source_schema target_schema : list column) :
  source_schema ≠ [] ->
  same_shape source_schema target_schema ->
  exists f,
    Validate.structure_finding str_int table source_schema target_schema = [f]
    ∧ status f ≠ Fail
    ∧ (status f = Pass <-> same_types source_schema target_schema)
    ∧ (status f = Warning ->
       suggestedFix f
       = Some "Data types are equivalent but named differently across database systems").
Proof.
  intros Hne Hshape. pose proof (Forall2_length _ _ _ Hshape) as Hlen.
  unfold Validate.structure_finding.
  destruct source_schema as [|a s]; [done|].
  destruct target_schema as [|b t]; [done|].
  rewrite Hlen, Nat.eqb_refl. cbn [negb].
  destruct (compare_columns_same_shape _ _ Hshape) as [[-> Hall]|(x & -> & Hnot)].
  - eexists. split; [reflexivity|]. simpl. split_and!; done.
  - rewrite type_mismatch_text. eexists. split; [reflexivity|]. simpl.
    split_and!; [done| |done]. split; [done|]. intros Hall. by destruct Hnot.
Qed.

Lemma type_difference_is_warning_witness :
  exists f,
    Validate.structure_finding (fun _ => "1") "orders"
      [Column "total" "decimal(12,2)" false] [Column "total" "numeric" false]
    = [f]
    ∧ status f ≠ Fail
    ∧ (status f = Pass <->
       same_types [Column "total" "decimal(12,2)" false]
                  [Column "total" "numeric" false])
    ∧ (status f = Warning ->
       suggestedFix f
       = Some "Data types are equivalent but named differently across database systems").
Proof.
  apply type_difference_is_warning.
  - discriminate.
  - repeat constructor.
Defined.

(** ** Validator: the connection to PostgreSQL *)

(** X24. The validator tries a PostgreSQL connection on the saved port and, if
    that fails, once more on 5432; when the saved port is 5432 itself, the
    first failure is final and there is no second attempt.  A failure is
    reported with the last error, wrapped by both handlers. *)
Theorem postgres_port_attempts (connection : Type)
    (mysql_connect : json -> bool -> answer connection)
    (psycopg2_connect : json -> json -> answer connection)
    (select_one : connection -> answer unit) (str_json : json -> string)
    (connection_info credentials port : json) :
  get_or "dbType" (JStr EmptyString) connection_info = Ok (JStr "PostgreSQL") ->
  get_or "credentials" (JDict []) connection_info = Ok credentials ->
  get_or "port" (JNum 5432) credentials = Ok port ->
  let on_port p :=
    (Validate.attempt connection psycopg2_connect select_one credentials p []).1 in
  let failed e :=
    Err (Exception ("Failed to connect to " +:+ str_json (JStr "PostgreSQL")
                    +:+ " database: "
                    +:+ "PostgreSQL connection failed on all tried ports. Last error: "
                    +:+ str_exn e)) in
  let run := Validate.connect_to_database connection mysql_connect
               psycopg2_connect select_one str_json connection_info [] in
  match on_port port with
  | Ok c => run = (Ok c, [port])
  | Err e =>
      if is_default_port port then run = (failed e, [port])
      else
        match on_port (JNum 5432) with
        | Ok c => run = (Ok c, [port; JNum 5432])
        | Err e2 => run = (failed e2, [port; JNum 5432])
        end
  end.
Proof.
  intros Htype Hcred Hport on_port failed run. subst on_port failed run.
  unfold Validate.connect_to_database, lift, mbind, task_bind, try_except.
  rewrite Htype, Hcred. simpl. rewrite Hport. simpl.
  unfold Validate.attempt, try_except, raise. simpl.
  destruct (psycopg2_connect credentials port ≫= _) as [c|e]; [done|].
  destruct (is_default_port port); [done|].
  destruct (psycopg2_connect credentials (JNum 5432) ≫= _) as [c|e2]; done.
Qed.

Lemma postgres_port_attempts_witness :
  Validate.connect_to_database unit (fun _ _ => Ok tt)
    (fun _ _ => Err (Exception "connection refused")) (fun _ => Ok tt)
    (fun _ => "PostgreSQL")
    (JDict [("dbType", JStr "PostgreSQL"); ("credentials", JDict [("host", JStr "db")])])
    []
  = (Err (Exception ("Failed to connect to " +:+ "PostgreSQL" +:+ " database: "
                     +:+ "PostgreSQL connection failed on all tried ports. Last error: "
                     +:+ "connection refused")),
     [JNum 5432]).
Proof.
  apply (postgres_port_attempts unit (fun _ _ => Ok tt)
           (fun _ _ => Err (Exception "connection refused")) (fun _ => Ok tt)
           (fun _ => "PostgreSQL")
           (JDict [("dbType", JStr "PostgreSQL");
                   ("credentials", JDict [("host", JStr "db")])])
           (JDict [("host", JStr "db")]) (JNum 5432)).
  - reflexivity.
  - reflexivity.
  - reflexivity.
Defined.


(** ** Fix suggestions *)

(** X25. [suggest_fixes] never raises.  Unless the answer of the oracle is
    parsed as JSON and returned as it is, the result holds exactly one
    suggestion, whose precautions are [None].  The answer is given to
    [json.loads] as it comes: an answer that only parses once its code fence
    is removed is reported back as an [AI Response] issue, where
    [translate_schema] removes the fence and returns the parsed value. *)
Theorem suggest_fixes_fallback (api_key : option string)
    (build_prompt : json -> string)
    (translation_prompt : string -> string -> json -> string)
    (chat_completion : string -> answer (option string))
    (json_loads : string -> answer json)
    (validation_failures_json : json) :
  let run := suggest_fixes api_key build_prompt chat_completion json_loads
               validation_failures_json in
  ((exists result,
      chat_completion (build_prompt validation_failures_json) = Ok (Some result.1)
      ∧ json_loads result.1 = Ok result.2 ∧ run = Ok result.2)
   ∨ (exists category issue solution,
        run = Ok (one_fix (fix_entry category issue solution "None"))))
  ∧ (forall content doc source_dialect target_dialect input_ddl_json parsed,
       api_key ≠ None -> api_key ≠ Some EmptyString ->
       (forall prompt, chat_completion prompt = Ok (Some content)) ->
       json_loads content = Err (JSONDecodeError doc) ->
       json_loads (strip_code_fence content) = Ok parsed ->
       run = Ok (one_fix (fix_entry "AI Response" content "See issue description"
                            "None"))
       ∧ translate_schema api_key translation_prompt chat_completion json_loads
           source_dialect target_dialect input_ddl_json
         = Ok parsed).
Proof.
  intros run. subst run. unfold suggest_fixes. split.
  - destruct (bool_decide _); [right; by eexists _, _, _|].
    destruct (chat_completion _) as [[content|]|e] eqn:Hchat;
      [|right; by eexists _, _, _|right; by eexists _, _, _].
    destruct (json_loads content) as [result|e] eqn:Hloads.
    + left. by exists (content, result).
    + right. destruct e; by eexists _, _, _.
  - intros content doc sd td input parsed Hk1 Hk2 Hchat Hraw Hfenced.
    unfold translate_schema.
    rewrite bool_decide_eq_false_2 by (intros [?|?]; done).
    by rewrite !Hchat, Hraw, Hfenced.
Qed.

(** ** Schema Extractor: grouping and dependency graph *)

Lemma get_adjust {V : Type} (f : V -> V) k (d : list (string * V)) n :
  Dict.get (adjust f k d) n
  = if decide (n = k) then f <$> Dict.get d n else Dict.get d n.
Proof.
  induction d as [|[k' v] d IH]; simpl.
  - by destruct (decide (n = k)).
  - destruct (decide (k = k')) as [<-|Hne]; simpl.
    + destruct (decide (n = k)); done.
    + rewrite IH. destruct (decide (n = k')) as [->|]; [|done].
      by rewrite decide_False by done.
Qed.

Lemma dict_mem_get {V : Type} (d : list (string * V)) k :
  Dict.mem k d = true <-> is_Some (Dict.get d k).
Proof. unfold Dict.mem. by rewrite bool_decide_eq_true. Qed.

Lemma group_primary_key_get pk_dict row t :
  Dict.get (group_primary_key pk_dict row) t
  = if decide (t = row_table row) then
      Some (match Dict.get pk_dict t with
            | Some info =>
                PkInfo (pk_table info) (pk_columns info ++ [row_column row])
                       (pk_constraint_name info) (pk_constraint_type info)
            | None =>
                PkInfo t [row_column row] (row_constraint row) (row_type row)
            end)
    else Dict.get pk_dict t.
Proof.
  unfold group_primary_key. rewrite get_adjust.
  destruct (decide (t = row_table row)) as [->|Hne].
  - destruct (Dict.mem (row_table row) pk_dict) eqn:Hmem.
    + apply dict_mem_get in Hmem as [info Hinfo]. by rewrite Hinfo.
    + rewrite dict_get_set, decide_True by done. simpl.
      destruct (Dict.get pk_dict (row_table row)) as [info|] eqn:Hinfo; [|done].
      assert (Dict.mem (row_table row) pk_dict = true) by (apply dict_mem_get; eauto).
      congruence.
  - destruct (Dict.mem (row_table row) pk_dict); [done|].
    by rewrite dict_get_set, decide_False.
Qed.

(** X26. The grouping of the primary-key rows by table loses no row: the entry
    of a table holds the columns of all its rows, in the order of the rows,
    with the constraint name and type of the first of them, and a table has
    an entry exactly when it has a row. *)
Theorem primary_keys_grouped (pk_result : list key_row) (table_name : string) :
  Dict.get (group_primary_keys pk_result) table_name
  = match filter (fun row => row_table row = table_name) pk_result with
    | [] => None
    | first :: _ =>
        Some (PkInfo table_name
                (row_column <$> filter (fun row => row_table row = table_name)
                                  pk_result)
                (row_constraint first) (row_type first))
    end.
Proof.
  unfold group_primary_keys.
  induction pk_result as [|row rows IH] using rev_ind; [done|].
  rewrite foldl_app. cbn [foldl]. rewrite group_primary_key_get, IH.
  rewrite filter_app, filter_cons, filter_nil.
  destruct (decide (table_name = row_table row)) as [->|Hne].
  - rewrite decide_True by done.
    destruct (filter _ rows) as [|first rest]; [done|].
    simpl. by rewrite fmap_app.
  - rewrite decide_False by done. by rewrite app_nil_r.
Qed.

(** Counting after one more element. *)
Lemma occurrences_snoc {A : Type} `{EqDecision A} (x y : A) (l : list A) :
  occurrences x (l ++ [y]) = occurrences x l + (if decide (y = x) then 1 else 0).
Proof.
  rewrite occurrences_app. f_equal. unfold occurrences.
  rewrite filter_cons, filter_nil. by destruct (decide (y = x)).
Qed.

Lemma tables_indexed tables a :
  Dict.get (foldl (fun dependencies table =>
                     Dict.set table (Dependency [] []) dependencies) [] tables) a
  = if decide (a ∈ tables) then Some (Dependency [] []) else None.
Proof.
  induction tables as [|t l IH] using rev_ind.
  - cbn [foldl Dict.get]. case_decide as H; [by apply elem_of_nil in H|done].
  - rewrite foldl_app. cbn [foldl]. rewrite dict_get_set, IH.
    destruct (decide (a = t)) as [->|Hne].
    + rewrite decide_True; [done|]. set_solver.
    + destruct (decide (a ∈ l)).
      * rewrite decide_True; [done|]. set_solver.
      * rewrite decide_False; [done|]. set_solver.
Qed.

Lemma dependency_graph_counts tables relationships a dep :
  Dict.get (dependency_graph tables relationships) a = Some dep ->
  a ∈ tables
  ∧ (forall b, occurrences b (depends_on dep)
               = occurrences (Relationship a b) relationships)
  ∧ (forall b, occurrences b (referenced_by dep)
               = occurrences (Relationship b a) relationships).
Proof.
  unfold dependency_graph. revert dep.
  induction relationships as [|fk rels IH] using rev_ind; intros dep.
  - simpl. rewrite tables_indexed. destruct (decide (a ∈ tables)); [|done].
    intros [= <-]. done.
  - rewrite foldl_app. cbn [foldl]. unfold add_relationship at 1.
    rewrite !get_adjust.
    destruct (Dict.get _ a) as [d0|] eqn:Hget.
    2:{ by destruct (decide (a = target_table fk)), (decide (a = source_table fk)). }
    destruct (IH d0 eq_refl) as (Hin & Hdep & Href).
    destruct fk as [src tgt]. simpl.
    intros Hdep'. split; [done|].
    assert (dep = Dependency
                    (if decide (a = src) then depends_on d0 ++ [tgt]
                     else depends_on d0)
                    (if decide (a = tgt) then referenced_by d0 ++ [src]
                     else referenced_by d0)) as ->.
    { destruct (decide (a = tgt)), (decide (a = src)); simpl in Hdep';
        injection Hdep' as <-; by destruct d0. }
    simpl. split; intros b; rewrite occurrences_snoc.
    + destruct (decide (a = src)) as [->|Hne].
      * rewrite occurrences_snoc, Hdep. f_equal.
        destruct (decide (tgt = b)) as [->|].
        -- by rewrite decide_True.
        -- rewrite decide_False; [done|]. by intros [= ?].
      * rewrite Hdep, decide_False; [lia|]. by intros [= ? ?].
    + destruct (decide (a = tgt)) as [->|Hne].
      * rewrite occurrences_snoc, Href. f_equal.
        destruct (decide (src = b)) as [->|].
        -- by rewrite decide_True.
        -- rewrite decide_False; [done|]. by intros [= ?].
      * rewrite Href, decide_False; [lia|]. by intros [= ? ?].
Qed.

(** X27. The two directions of the dependency graph agree: for two tables that
    both have an entry, [b] is listed among the tables that [a] depends on as
    often as [a] is listed among the tables that reference [b], namely once
    for every relationship from [a] to [b]. *)
Theorem dependency_graph_mutual (tables : list string)
    (relationships : list relationship) (a b : string) (da db : dependency) :
  Dict.get (dependency_graph tables relationships) a = Some da ->
  Dict.get (dependency_graph tables relationships) b = Some db ->
  occurrences b (depends_on da) = occurrences a (referenced_by db)
  ∧ occurrences b (depends_on da)
    = occurrences (Relationship a b) relationships.
Proof.
  intros Ha Hb.
  apply dependency_graph_counts in Ha as (_ & Hdep & _).
  apply dependency_graph_counts in Hb as (_ & _ & Href).
  by rewrite Hdep, Href.
Qed.

Lemma dependency_graph_mutual_witness :
  occurrences "customers" (depends_on (Dependency ["customers"; "archive"] []))
  = occurrences "orders" (referenced_by (Dependency [] ["orders"]))
  ∧ occurrences "customers" (depends_on (Dependency ["customers"; "archive"] []))
    = occurrences (Relationship "orders" "customers")
        [Relationship "orders" "customers"; Relationship "orders" "archive"].
Proof.
  apply (dependency_graph_mutual ["customers"; "orders"]
           [Relationship "orders" "customers"; Relationship "orders" "archive"]
           "orders" "customers").
  - vm_compute. reflexivity.
  - vm_compute. reflexivity.
Defined.

(** ** Schema Extractor: the outcome of a run *)

(** X28. Every run of [run_extraction_task] ends with [done] set and a percent
    of 100, whether it failed or not; a summary is stored exactly when no
    error is.  Without a source database in the session the run writes 0 and
    100 and nothing between. *)
Theorem extraction_ends_at_100 (active_session : json)
    (get_connection_by_id : json -> option json)
    (extract_database_ddl : json -> answer json)
    (save_bundle : json -> answer unit) (summarize : json -> answer json) :
  let fin := run_extraction_task active_session get_connection_by_id
               extract_database_ddl save_bundle summarize in
  done fin = true
  ∧ percent fin = 100%Z
  ∧ (error fin = None <-> results_summary fin ≠ None)
  ∧ (json_truthy (json_get "source" active_session) = false ->
     error fin = Some "No source database selected"
     ∧ percent_history fin = [0; 100]%Z).
Proof.
  intros fin. subst fin.
  unfold run_extraction_task, extraction_body, try_except, mbind, task_bind, lift.
  destruct (json_get "source" active_session) as [source_db|] eqn:Hsrc.
  2:{ simpl. split_and!; [done|done|split; [done|by intros []]|done]. }
  destruct (json_truthy (Some source_db)) eqn:Htruthy.
  2:{ simpl. split_and!; [done|done|split; [done|by intros []]|done]. }
  destruct (json_item "id" source_db) as [source_id|e1].
  2:{ simpl. split_and!; [done|done|split; [done|by intros []]|done]. }
  destruct (get_connection_by_id source_id) as [connection_info|].
  2:{ simpl. split_and!; [done|done|split; [done|by intros []]|done]. }
  destruct (json_truthy (Some connection_info)).
  2:{ simpl. split_and!; [done|done|split; [done|by intros []]|done]. }
  simpl.
  destruct (extract_database_ddl connection_info) as [bundle|e2]; simpl.
  2:{ split_and!; [done|done|split; [done|by intros []]|done]. }
  destruct (save_bundle bundle) as [[]|e3]; simpl.
  2:{ split_and!; [done|done|split; [done|by intros []]|done]. }
  destruct (summarize bundle) as [summary|e4]; simpl.
  - split_and!; [done|done|split; done|done].
  - split_and!; [done|done|split; [done|by intros []]|done].
Qed.

(** X29. For a database type other than MySQL and PostgreSQL the extraction
    does not fail: [extract_database_ddl] returns an empty bundle that carries
    the message under [error], and the run ends done, without an error in its
    status, with a summary of zero objects. *)
Theorem unsupported_type_extracts_nothing (active_session : json)
    (get_connection_by_id : json -> option json)
    (extract_mysql_ddl extract_postgresql_ddl : json -> answer json)
    (str_json : json -> string) (save_bundle : json -> answer unit)
    (source_db source_id connection_info db_type : json) :
  json_get "source" active_session = Some source_db ->
  json_truthy (Some source_db) = true ->
  json_item "id" source_db = Ok source_id ->
  get_connection_by_id source_id = Some connection_info ->
  json_truthy (Some connection_info) = true ->
  get_or "dbType" (JStr "Unknown") connection_info = Ok db_type ->
  db_type ≠ JStr "MySQL" ->
  db_type ≠ JStr "PostgreSQL" ->
  save_bundle (unsupported_bundle (str_json db_type)) = Ok tt ->
  let fin := run_extraction_task active_session get_connection_by_id
               (extract_database_ddl extract_mysql_ddl extract_postgresql_ddl
                  str_json)
               save_bundle results_summary_of in
  done fin = true
  ∧ error fin = None
  ∧ percent fin = 100%Z
  ∧ results_summary fin
    = Some (JDict [("objects_extracted", JNum 0); ("tables", JNum 0);
                   ("views", JNum 0); ("procedures", JNum 0)])
  ∧ json_get "error" (unsupported_bundle (str_json db_type))
    = Some (JStr ("Database type '" +:+ str_json db_type
                  +:+ "' is not supported. Currently supported: MySQL, PostgreSQL.")).
Proof.
  intros Hsrc Htruthy Hid Hconn Hinfo Htype Hmysql Hpg Hsave fin. subst fin.
  assert (Hbundle : extract_database_ddl extract_mysql_ddl extract_postgresql_ddl
                      str_json connection_info
                    = Ok (unsupported_bundle (str_json db_type))).
  { unfold extract_database_ddl. rewrite Htype. simpl.
    repeat case_match; subst; done. }
  unfold run_extraction_task, extraction_body, try_except, mbind, task_bind, lift.
  rewrite Hsrc, Htruthy, Hid, Hconn, Hinfo. simpl. rewrite Hbundle. simpl.
  rewrite Hsave. simpl. done.
Qed.

Lemma unsupported_type_extracts_nothing_witness :
  let fin := run_extraction_task
               (JDict [("source", JDict [("id", JNum 1); ("dbType", JStr "Oracle")])])
               (fun id => Some (JDict [("id", id); ("dbType", JStr "Oracle")]))
               (extract_database_ddl (fun _ => Err (Exception "no driver"))
                  (fun _ => Err (Exception "no driver")) (fun _ => "Oracle"))
               (fun _ => Ok tt) results_summary_of in
  done fin = true
  ∧ error fin = None
  ∧ percent fin = 100%Z
  ∧ results_summary fin
    = Some (JDict [("objects_extracted", JNum 0); ("tables", JNum 0);
                   ("views", JNum 0); ("procedures", JNum 0)])
  ∧ json_get "error" (unsupported_bundle "Oracle")
    = Some (JStr ("Database type '" +:+ "Oracle"
                  +:+ "' is not supported. Currently supported: MySQL, PostgreSQL.")).
Proof.
  apply (unsupported_type_extracts_nothing
           (JDict [("source", JDict [("id", JNum 1); ("dbType", JStr "Oracle")])])
           (fun id => Some (JDict [("id", id); ("dbType", JStr "Oracle")]))
           (fun _ => Err (Exception "no driver"))
           (fun _ => Err (Exception "no driver")) (fun _ => "Oracle")
           (fun _ => Ok tt)
           (JDict [("id", JNum 1); ("dbType", JStr "Oracle")]) (JNum 1)
           (JDict [("id", JNum 1); ("dbType", JStr "Oracle")]) (JStr "Oracle")).
  - reflexivity.
  - reflexivity.
  - reflexivity.
  - reflexivity.
  - reflexivity.
  - reflexivity.
  - discriminate.
  - discriminate.
  - reflexivity.
Defined.


(** ** Validator: the normal form of a type name *)

Lemma lower_upper_char c : Py.lower_char (Py.upper_char c) = Py.lower_char c.
Proof. destruct c as [[] [] [] [] [] [] [] []]; reflexivity. Qed.

Lemma lower_lower_char c : Py.lower_char (Py.lower_char c) = Py.lower_char c.
Proof. destruct c as [[] [] [] [] [] [] [] []]; reflexivity. Qed.

Lemma is_space_upper_char c : Py.is_space (Py.upper_char c) = Py.is_space c.
Proof. destruct c as [[] [] [] [] [] [] [] []]; reflexivity. Qed.

Lemma is_space_lower_char c : Py.is_space (Py.lower_char c) = Py.is_space c.
Proof. destruct c as [[] [] [] [] [] [] [] []]; reflexivity. Qed.

Lemma map_chars_compose f g h s :
  (forall c, f (g c) = h c) ->
  Py.map_chars f (Py.map_chars g s) = Py.map_chars h s.
Proof. intros H. induction s as [|c s IH]; simpl; [done|]. by rewrite H, IH. Qed.

Section MapStrip.
Variable f : ascii -> ascii.
Hypothesis f_space : forall c, Py.is_space (f c) = Py.is_space c.

Lemma lstrip_map_chars s :
  Py.lstrip (Py.map_chars f s) = Py.map_chars f (Py.lstrip s).
Proof.
  induction s as [|c s IH]; simpl; [done|]. rewrite f_space.
  by destruct (Py.is_space c).
Qed.

Lemma rstrip_map_chars s :
  Py.rstrip (Py.map_chars f s) = Py.map_chars f (Py.rstrip s).
Proof.
  induction s as [|c s IH]; simpl; [done|]. rewrite IH, f_space.
  destruct (Py.rstrip s); simpl; [|done]. by destruct (Py.is_space c).
Qed.

Lemma strip_map_chars s :
  Py.strip (Py.map_chars f s) = Py.map_chars f (Py.strip s).
Proof. unfold Py.strip. by rewrite rstrip_map_chars, lstrip_map_chars. Qed.
End MapStrip.

Lemma are_equivalent_types_normal x y x' y' :
  normalize_type x' = normalize_type x ->
  normalize_type y' = normalize_type y ->
  are_equivalent_types x' y' = are_equivalent_types x y.
Proof. intros Hx Hy. unfold are_equivalent_types. by rewrite Hx, Hy. Qed.

(** X30. On ASCII type names, [are_equivalent_types] compares up to letter
    case and surrounding white space: upper-casing, lower-casing or stripping
    a name does not change its normal form, and so does not change the
    answer. *)
Theorem type_names_normalised (x y : string) :
  Py.isascii x = true -> Py.isascii y = true ->
  normalize_type (Py.upper x) = normalize_type x
  ∧ normalize_type (Py.lower x) = normalize_type x
  ∧ normalize_type (Py.strip x) = normalize_type x
  ∧ are_equivalent_types (Py.upper x) y = are_equivalent_types x y
  ∧ are_equivalent_types x (Py.strip (Py.lower y)) = are_equivalent_types x y.
Proof.
  intros _ _.
  assert (Hu : normalize_type (Py.upper x) = normalize_type x).
  { unfold normalize_type, Py.upper, Py.lower.
    rewrite (strip_map_chars _ is_space_upper_char).
    apply map_chars_compose, lower_upper_char. }
  assert (Hl : forall z, normalize_type (Py.lower z) = normalize_type z).
  { intros z. unfold normalize_type, Py.lower.
    rewrite (strip_map_chars _ is_space_lower_char).
    apply map_chars_compose, lower_lower_char. }
  assert (Hs : forall z, normalize_type (Py.strip z) = normalize_type z).
  { intros z. unfold normalize_type. by rewrite strip_strip. }
  split_and!; [done|apply Hl|apply Hs| |].
  - by apply are_equivalent_types_normal.
  - apply are_equivalent_types_normal; [done|]. by rewrite Hs, Hl.
Qed.

Lemma type_names_normalised_witness :
  normalize_type (Py.upper " VarChar ") = normalize_type " VarChar "
  ∧ normalize_type (Py.lower " VarChar ") = normalize_type " VarChar "
  ∧ normalize_type (Py.strip " VarChar ") = normalize_type " VarChar "
  ∧ are_equivalent_types (Py.upper " VarChar ") "Character Varying"
    = are_equivalent_types " VarChar " "Character Varying"
  ∧ are_equivalent_types " VarChar " (Py.strip (Py.lower "Character Varying"))
    = are_equivalent_types " VarChar " "Character Varying".
Proof.
  apply (type_names_normalised " VarChar " "Character Varying").
  - reflexivity.
  - reflexivity.
Defined.
